(** * tp_cleanup: the GCP clean-up script [main.go], embedded in Rocq

    The script lists the resources of a fixed set of projects through the
    provider SDK and, unless the dry-run flag is set, deletes them.  Its
    observable behaviour is the sequence of log lines and provider calls it
    issues, so every function of [main.go] is embedded as a computation that
    produces a trace of events and a result.

    - A log line is recorded as its format string and its operands.
    - The provider is a parameter: what each listing yields, and which
      client constructions, delete calls and operation waits return an
      error.  All statements hold for every such provider.
    - Goroutines joined by a [sync.WaitGroup] are embedded as the set of all
      interleavings of the traces of the goroutine bodies; a computation
      denotes the finite set of its runs.
    - The package variables [projectIDs] and [dryRun] are the fields of a
      configuration record passed to every function. *)

From Stdlib Require Import List String Ascii Bool Arith ZArith Lia Permutation.
Import ListNotations.
Local Open Scope string_scope.
Local Open Scope list_scope.

(** ** Strings: the two functions of package [strings] used by the script *)

Module strings.

(** [strings.HasPrefix(s, prefix)]. *)
Definition HasPrefix (s prefix : string) : bool := String.prefix prefix s.

(** [strings.Split(s, sep)] for a separator of one byte, which is how both
    call sites use it (["/"] and ["@"]).  The result always has at least
    one element: a string without the separator is returned whole. *)
Fixpoint Split (s : string) (sep : ascii) : list string :=
  match s with
  | EmptyString => [EmptyString]
  | String c s' =>
      if Ascii.eqb c sep then EmptyString :: Split s' sep
      else match Split s' sep with
           | [] => [String c EmptyString]
           | p :: ps => String c p :: ps
           end
  end.

End strings.

(** ** Provider data, as far as the script reads it *)

(** Go's [error]: a provider error, or one wrapped by [fmt.Errorf("...%w")]. *)
Inductive error : Type :=
| ProviderError (msg : string)
| Errorf (format : string) (wrapped : error).

(** What an SDK iterator yields through [Next]: items, then either
    [iterator.Done] ([None]) or an error. *)
Record iterator (A : Type) : Type := Iterator {
  items : list A;
  final : option error
}.

Arguments Iterator {A} items final.
Arguments items {A} i.
Arguments final {A} i.

Record Instance : Type := {
  InstanceName : string;
  InstanceZone : string;
  InstanceStatus : string
}.

Record Disk : Type := {
  DiskName : string;
  DiskZone : string;
  DiskUsers : list string;
  DiskSizeGb : Z
}.

Record Address : Type := {
  AddressName : string;
  AddressRegion : string;
  AddressAddress : string;
  AddressStatus : string
}.

Record ServiceAccount : Type := {
  Name : string;
  Email : string;
  DisplayName : string
}.

Record BucketAttrs : Type := {
  BucketName : string;
  Location : string;
  StorageClass : string
}.

Inductive client_kind : Type :=
| InstancesRESTClient
| DisksRESTClient
| AddressesRESTClient
| GlobalAddressesRESTClient
| StorageClient
| IAMService.

Inductive list_req : Type :=
| AggregatedListInstancesRequest (Project : string)
| AggregatedListDisksRequest (Project : string)
| AggregatedListAddressesRequest (Project : string)
| ListGlobalAddressesRequest (Project : string)
| ListBuckets (Project : string)
| ListObjects (bucket : string)
| ListServiceAccounts (parent : string).

(** The mutating calls of the provider API. *)
Inductive delete_req : Type :=
| DeleteInstanceRequest (Project Zone Instance : string)
| DeleteDiskRequest (Project Zone Disk : string)
| DeleteAddressRequest (Project Region Address : string)
| DeleteGlobalAddressRequest (Project Address : string)
| DeleteServiceAccount (name : string)
| DeleteObject (bucket object : string)
| DeleteBucket (bucket : string).

(** Arguments of a [Printf] verb. *)
Inductive arg : Type :=
| AStr (s : string)
| AInt (n : Z)
| ABool (b : bool)
| AErr (e : error)
| AStrs (l : list string).

(** ** Events *)

Inductive event : Type :=
| ELog (format : string) (args : list arg)      (* log.Printf, log.Println *)
| EPrintf (format : string) (args : list arg)   (* fmt.Printf *)
| ENewClient (k : client_kind)                  (* compute.New...Client, iam.NewService *)
| EClose (k : client_kind)                      (* client.Close() *)
| EList (r : list_req)                          (* a list call and its iteration *)
| EDelete (r : delete_req)                      (* a delete call *)
| EWait (r : delete_req)                        (* op.Wait on the operation a delete returned *)
| EPanic.                                       (* a run-time panic *)

Definition trace : Type := list event.

(** The provider as the script sees it.  Listings are what the iterators
    yield for a project (for a bucket, its objects); [newClient] says which
    client constructions fail while a project is cleaned; [deleteResult] and
    [waitResult] say which delete calls and which operation waits return an
    error. *)
Record backend : Type := {
  newClient : client_kind -> string -> option error;
  instances : string -> iterator (list Instance);
  disks : string -> iterator (list Disk);
  addresses : string -> iterator (list Address);
  globalAddresses : string -> iterator Address;
  buckets : string -> iterator BucketAttrs;
  objects : string -> iterator string;
  serviceAccounts : string -> list ServiceAccount + error;
  deleteResult : delete_req -> option error;
  waitResult : delete_req -> option error
}.

(** The package-level configuration variables. *)
Record config : Type := {
  projectIDs : list string;
  dryRun : bool
}.

(** ** Interleavings *)

Section Merge.
Variable A : Type.

(** All interleavings of two sequences. *)
Fixpoint merge2 (xs : list A) : list A -> list (list A) :=
  fix inner (ys : list A) : list (list A) :=
    match xs, ys with
    | [], _ => [ys]
    | _, [] => [xs]
    | x :: xs', y :: ys' =>
        map (cons x) (merge2 xs' ys) ++ map (cons y) (inner ys')
    end.

(** The same as a relation: [t] interleaves [xs] and [ys]. *)
Inductive interleave : list A -> list A -> list A -> Prop :=
| interleave_nil_l ys : interleave [] ys ys
| interleave_nil_r xs : interleave xs [] xs
| interleave_l x xs ys t : interleave xs ys t -> interleave (x :: xs) ys (x :: t)
| interleave_r y xs ys t : interleave xs ys t -> interleave xs (y :: ys) (y :: t).

(** [l] is a subsequence of [t]. *)
Inductive subseq : list A -> list A -> Prop :=
| subseq_nil : subseq [] []
| subseq_skip l t x : subseq l t -> subseq l (x :: t)
| subseq_keep l t x : subseq l t -> subseq (x :: l) (x :: t).

End Merge.

Arguments merge2 {A} xs ys.
Arguments interleave {A} xs ys t.
Arguments subseq {A} l t.

(** ** The monad of behaviours

    A computation denotes the finite set of its possible runs; a run is the
    trace it produced and the value it returned. *)

Definition M (A : Type) : Type := list (trace * A).

Definition ret {A} (a : A) : M A := [([], a)].

Definition bind {A B} (m : M A) (f : A -> M B) : M B :=
  flat_map (fun ta => map (fun tb => (fst ta ++ fst tb, snd tb)) (f (snd ta))) m.

Definition emit (e : event) : M unit := [([e], tt)].

(** [go f1(); ...; go fn(); wg.Wait()]: every goroutine runs to completion,
    in any interleaving with the others. *)
Fixpoint par (tasks : list (M unit)) : M unit :=
  match tasks with
  | [] => ret tt
  | m :: ms =>
      flat_map (fun t1 =>
        flat_map (fun t2 => map (fun t => (t, tt)) (merge2 (fst t1) (fst t2)))
                 (par ms)) m
  end.

Declare Scope M_scope.
Delimit Scope M_scope with M.
Notation "x <- m ;; k" := (bind m (fun x => k))
  (at level 61, m at next level, right associativity) : M_scope.
Notation "m ;; k" := (bind m (fun _ => k))
  (at level 61, right associativity) : M_scope.
Local Open Scope M_scope.

(** [log.Printf], [log.Println] (one operand, no verbs) and [fmt.Printf]. *)
Definition log_Printf (format : string) (args : list arg) : M unit :=
  emit (ELog format args).

Definition log_Println (msg : string) : M unit :=
  emit (ELog msg []).

Definition fmt_Printf (format : string) (args : list arg) : M unit :=
  emit (EPrintf format args).

Definition LF : string := String "010"%char EmptyString.
Definition ESC : string := String "027"%char EmptyString.

(** ** main.go *)

(** [extractZoneFromURL]: the last path segment of the zone URL. *)
Definition extractZoneFromURL (zoneURL : string) : string :=
  if String.eqb zoneURL "" then ""
  else
    let parts := strings.Split zoneURL "/"%char in
    if (0 <? List.length parts)%nat then nth (List.length parts - 1) parts "" else zoneURL.

(** [extractRegionFromURL]: the last path segment of the region URL. *)
Definition extractRegionFromURL (regionURL : string) : string :=
  if String.eqb regionURL "" then ""
  else
    let parts := strings.Split regionURL "/"%char in
    if (0 <? List.length parts)%nat then nth (List.length parts - 1) parts "" else regionURL.

Section Cleaners.
Variable cfg : config.
Variable b : backend.

(** *** deleteVMInstances *)

Record instanceInfo : Type := { name : string; zone : string }.

(** The body of [for _, instance := range pair.Value.Instances]. *)
Fixpoint collectPair (l : list Instance) (instances : list instanceInfo)
  : M (list instanceInfo) :=
  match l with
  | [] => ret instances
  | instance :: l' =>
      let zone := extractZoneFromURL (InstanceZone instance) in
      let instances := instances ++ [{| name := InstanceName instance; zone := zone |}] in
      log_Printf "  Found VM Instance: %s (zone: %s, status: %s)"
        [AStr (InstanceName instance); AStr zone; AStr (InstanceStatus instance)] ;;
      collectPair l' instances
  end.

(** The iterations of [for { pair, err := it.Next() ... }] that yield a pair. *)
Fixpoint collectInstances (pairs : list (list Instance)) (instances : list instanceInfo)
  : M (list instanceInfo) :=
  match pairs with
  | [] => ret instances
  | pair0 :: pairs' =>
      instances <- collectPair pair0 instances ;;
      collectInstances pairs' instances
  end.

(** The goroutine started for one instance. *)
Definition deleteInstanceTask (projectID : string) (inst : instanceInfo) : M unit :=
  let deleteReq := DeleteInstanceRequest projectID (zone inst) (name inst) in
  emit (EDelete deleteReq) ;;
  match deleteResult b deleteReq with
  | Some err =>
      log_Printf "  ERROR deleting instance %s: %v" [AStr (name inst); AErr err]
  | None =>
      emit (EWait deleteReq) ;;
      match waitResult b deleteReq with
      | Some err =>
          log_Printf "  ERROR waiting for deletion of %s: %v" [AStr (name inst); AErr err]
      | None =>
          log_Printf "  ✓ Deleted VM instance: %s" [AStr (name inst)]
      end
  end.

Definition deleteVMInstances (projectID : string) : M (option error) :=
  log_Printf "[%s] Checking VM instances..." [AStr projectID] ;;
  emit (ENewClient InstancesRESTClient) ;;
  match newClient b InstancesRESTClient projectID with
  | Some err => ret (Some (Errorf "failed to create instances client: %w" err))
  | None =>
      r <- (let it := instances b projectID in
            emit (EList (AggregatedListInstancesRequest projectID)) ;;
            instances <- collectInstances (items it) [] ;;
            match final it with
            | Some err => ret (Some (Errorf "error listing instances: %w" err))
            | None =>
                if (List.length instances =? 0)%nat then
                  log_Printf "[%s] No VM instances found" [AStr projectID] ;;
                  ret None
                else if dryRun cfg then
                  log_Printf "[%s] Would delete %d VM instances"
                    [AStr projectID; AInt (Z.of_nat (List.length instances))] ;;
                  ret None
                else
                  log_Printf "[%s] Deleting %d VM instances in parallel..."
                    [AStr projectID; AInt (Z.of_nat (List.length instances))] ;;
                  par (map (deleteInstanceTask projectID) instances) ;;
                  log_Printf "[%s] All VM deletions complete" [AStr projectID] ;;
                  ret None
            end) ;;
      emit (EClose InstancesRESTClient) ;;
      ret r
  end.

(** *** deleteDisks *)

(** The body of [for _, disk := range pair.Value.Disks]. *)
Definition diskBody (projectID : string) (disk : Disk) (diskCount : nat) : M nat :=
  let zone := extractZoneFromURL (DiskZone disk) in
  if (0 <? List.length (DiskUsers disk))%nat then
    log_Printf "  Skipping disk %s (attached to instances)" [AStr (DiskName disk)] ;;
    ret diskCount
  else
    let diskCount := S diskCount in
    log_Printf "  Found Disk: %s (zone: %s, size: %d GB)"
      [AStr (DiskName disk); AStr zone; AInt (DiskSizeGb disk)] ;;
    (if negb (dryRun cfg) then
       let deleteReq := DeleteDiskRequest projectID zone (DiskName disk) in
       emit (EDelete deleteReq) ;;
       match deleteResult b deleteReq with
       | Some err =>
           log_Printf "  ERROR deleting disk %s: %v" [AStr (DiskName disk); AErr err]
       | None =>
           emit (EWait deleteReq) ;;
           match waitResult b deleteReq with
           | Some err =>
               log_Printf "  ERROR waiting for deletion of %s: %v"
                 [AStr (DiskName disk); AErr err]
           | None =>
               log_Printf "  ✓ Deleted disk: %s" [AStr (DiskName disk)]
           end
       end
     else ret tt) ;;
    ret diskCount.

Fixpoint disksPair (projectID : string) (l : list Disk) (diskCount : nat) : M nat :=
  match l with
  | [] => ret diskCount
  | disk :: l' =>
      diskCount <- diskBody projectID disk diskCount ;;
      disksPair projectID l' diskCount
  end.

Fixpoint disksLoop (projectID : string) (pairs : list (list Disk)) (diskCount : nat)
  : M nat :=
  match pairs with
  | [] => ret diskCount
  | pair0 :: pairs' =>
      diskCount <- disksPair projectID pair0 diskCount ;;
      disksLoop projectID pairs' diskCount
  end.

Definition deleteDisks (projectID : string) : M (option error) :=
  log_Printf "[%s] Checking disks..." [AStr projectID] ;;
  emit (ENewClient DisksRESTClient) ;;
  match newClient b DisksRESTClient projectID with
  | Some err => ret (Some (Errorf "failed to create disks client: %w" err))
  | None =>
      r <- (let it := disks b projectID in
            emit (EList (AggregatedListDisksRequest projectID)) ;;
            diskCount <- disksLoop projectID (items it) 0 ;;
            match final it with
            | Some err => ret (Some (Errorf "error listing disks: %w" err))
            | None =>
                (if (diskCount =? 0)%nat then
                   log_Printf "[%s] No unattached disks found" [AStr projectID]
                 else if dryRun cfg then
                   log_Printf "[%s] Would delete %d disks"
                     [AStr projectID; AInt (Z.of_nat diskCount)]
                 else ret tt) ;;
                ret None
            end) ;;
      emit (EClose DisksRESTClient) ;;
      ret r
  end.

(** *** releaseStaticIPs *)

(** The body of [for _, address := range pair.Value.Addresses]. *)
Definition addressBody (projectID : string) (address : Address) (ipCount : nat) : M nat :=
  let region := extractRegionFromURL (AddressRegion address) in
  if String.eqb (AddressStatus address) "IN_USE" then
    log_Printf "  Skipping address %s (in use)" [AStr (AddressName address)] ;;
    ret ipCount
  else
    let ipCount := S ipCount in
    log_Printf "  Found Static IP: %s (region: %s, address: %s, status: %s)"
      [AStr (AddressName address); AStr region; AStr (AddressAddress address);
       AStr (AddressStatus address)] ;;
    (if negb (dryRun cfg) then
       let deleteReq := DeleteAddressRequest projectID region (AddressName address) in
       emit (EDelete deleteReq) ;;
       match deleteResult b deleteReq with
       | Some err =>
           log_Printf "  ERROR releasing address %s: %v" [AStr (AddressName address); AErr err]
       | None =>
           emit (EWait deleteReq) ;;
           match waitResult b deleteReq with
           | Some err =>
               log_Printf "  ERROR waiting for release of %s: %v"
                 [AStr (AddressName address); AErr err]
           | None =>
               log_Printf "  ✓ Released static IP: %s" [AStr (AddressName address)]
           end
       end
     else ret tt) ;;
    ret ipCount.

Fixpoint addressesPair (projectID : string) (l : list Address) (ipCount : nat) : M nat :=
  match l with
  | [] => ret ipCount
  | address :: l' =>
      ipCount <- addressBody projectID address ipCount ;;
      addressesPair projectID l' ipCount
  end.

Fixpoint addressesLoop (projectID : string) (pairs : list (list Address)) (ipCount : nat)
  : M nat :=
  match pairs with
  | [] => ret ipCount
  | pair0 :: pairs' =>
      ipCount <- addressesPair projectID pair0 ipCount ;;
      addressesLoop projectID pairs' ipCount
  end.

(** One iteration of the loop over [globalIt] that yields an address. *)
Definition globalBody (projectID : string) (globalAddr : Address) (ipCount : nat) : M nat :=
  if String.eqb (AddressStatus globalAddr) "IN_USE" then
    log_Printf "  Skipping global address %s (in use)" [AStr (AddressName globalAddr)] ;;
    ret ipCount
  else
    let ipCount := S ipCount in
    log_Printf "  Found Global Static IP: %s (address: %s, status: %s)"
      [AStr (AddressName globalAddr); AStr (AddressAddress globalAddr);
       AStr (AddressStatus globalAddr)] ;;
    (if negb (dryRun cfg) then
       let deleteReq := DeleteGlobalAddressRequest projectID (AddressName globalAddr) in
       emit (EDelete deleteReq) ;;
       match deleteResult b deleteReq with
       | Some err =>
           log_Printf "  ERROR releasing global address %s: %v"
             [AStr (AddressName globalAddr); AErr err]
       | None =>
           emit (EWait deleteReq) ;;
           match waitResult b deleteReq with
           | Some err =>
               log_Printf "  ERROR waiting for release of %s: %v"
                 [AStr (AddressName globalAddr); AErr err]
           | None =>
               log_Printf "  ✓ Released global static IP: %s" [AStr (AddressName globalAddr)]
           end
       end
     else ret tt) ;;
    ret ipCount.

Fixpoint globalLoop (projectID : string) (l : list Address) (ipCount : nat) : M nat :=
  match l with
  | [] => ret ipCount
  | globalAddr :: l' =>
      ipCount <- globalBody projectID globalAddr ipCount ;;
      globalLoop projectID l' ipCount
  end.

Definition releaseStaticIPs (projectID : string) : M (option error) :=
  log_Printf "[%s] Checking static IP addresses..." [AStr projectID] ;;
  emit (ENewClient AddressesRESTClient) ;;
  match newClient b AddressesRESTClient projectID with
  | Some err => ret (Some (Errorf "failed to create addresses client: %w" err))
  | None =>
      r <- (let it := addresses b projectID in
            emit (EList (AggregatedListAddressesRequest projectID)) ;;
            ipCount <- addressesLoop projectID (items it) 0 ;;
            match final it with
            | Some err => ret (Some (Errorf "error listing addresses: %w" err))
            | None =>
                emit (ENewClient GlobalAddressesRESTClient) ;;
                match newClient b GlobalAddressesRESTClient projectID with
                | Some err =>
                    ret (Some (Errorf "failed to create global addresses client: %w" err))
                | None =>
                    r <- (let globalIt := globalAddresses b projectID in
                          emit (EList (ListGlobalAddressesRequest projectID)) ;;
                          ipCount <- globalLoop projectID (items globalIt) ipCount ;;
                          match final globalIt with
                          | Some err =>
                              log_Printf "Error listing global addresses: %v" [AErr err]
                          | None => ret tt
                          end ;;
                          (if (ipCount =? 0)%nat then
                             log_Printf "[%s] No unused static IPs found" [AStr projectID]
                           else if dryRun cfg then
                             log_Printf "[%s] Would release %d static IPs"
                               [AStr projectID; AInt (Z.of_nat ipCount)]
                           else ret tt) ;;
                          ret None) ;;
                    emit (EClose GlobalAddressesRESTClient) ;;
                    ret r
                end
            end) ;;
      emit (EClose AddressesRESTClient) ;;
      ret r
  end.

(** *** deleteBuckets (not called by [cleanupProject]) *)

(** The loop over [objIt]: every object of the bucket is deleted, the
    successes are counted. *)
Fixpoint objectsLoop (bucket : string) (l : list string) (objCount : nat) : M nat :=
  match l with
  | [] => ret objCount
  | objName :: l' =>
      emit (EDelete (DeleteObject bucket objName)) ;;
      match deleteResult b (DeleteObject bucket objName) with
      | Some err =>
          log_Printf "  ERROR deleting object %s: %v" [AStr objName; AErr err] ;;
          objectsLoop bucket l' objCount
      | None => objectsLoop bucket l' (S objCount)
      end
  end.

Definition bucketBody (attrs : BucketAttrs) (bucketCount : nat) : M nat :=
  let bucketCount := S bucketCount in
  log_Printf "  Found Bucket: %s (location: %s, storage class: %s)"
    [AStr (BucketName attrs); AStr (Location attrs); AStr (StorageClass attrs)] ;;
  (if negb (dryRun cfg) then
     let objIt := objects b (BucketName attrs) in
     log_Printf "  Deleting objects in bucket %s..." [AStr (BucketName attrs)] ;;
     emit (EList (ListObjects (BucketName attrs))) ;;
     objCount <- objectsLoop (BucketName attrs) (items objIt) 0 ;;
     match final objIt with
     | Some err =>
         log_Printf "  ERROR listing objects in bucket %s: %v"
           [AStr (BucketName attrs); AErr err]
     | None => ret tt
     end ;;
     (if (0 <? objCount)%nat then
        log_Printf "  Deleted %d objects from bucket %s"
          [AInt (Z.of_nat objCount); AStr (BucketName attrs)]
      else ret tt) ;;
     emit (EDelete (DeleteBucket (BucketName attrs))) ;;
     match deleteResult b (DeleteBucket (BucketName attrs)) with
     | Some err =>
         log_Printf "  ERROR deleting bucket %s: %v" [AStr (BucketName attrs); AErr err]
     | None =>
         log_Printf "  ✓ Deleted bucket: %s" [AStr (BucketName attrs)]
     end
   else ret tt) ;;
  ret bucketCount.

Fixpoint bucketsLoop (l : list BucketAttrs) (bucketCount : nat) : M nat :=
  match l with
  | [] => ret bucketCount
  | attrs :: l' =>
      bucketCount <- bucketBody attrs bucketCount ;;
      bucketsLoop l' bucketCount
  end.

Definition deleteBuckets (projectID : string) : M (option error) :=
  log_Printf "[%s] Checking storage buckets..." [AStr projectID] ;;
  emit (ENewClient StorageClient) ;;
  match newClient b StorageClient projectID with
  | Some err => ret (Some (Errorf "failed to create storage client: %w" err))
  | None =>
      r <- (let it := buckets b projectID in
            emit (EList (ListBuckets projectID)) ;;
            bucketCount <- bucketsLoop (items it) 0 ;;
            match final it with
            | Some err => ret (Some (Errorf "error listing buckets: %w" err))
            | None =>
                (if (bucketCount =? 0)%nat then
                   log_Printf "[%s] No buckets found" [AStr projectID]
                 else if dryRun cfg then
                   log_Printf "[%s] Would delete %d buckets"
                     [AStr projectID; AInt (Z.of_nat bucketCount)]
                 else ret tt) ;;
                ret None
            end) ;;
      emit (EClose StorageClient) ;;
      ret r
  end.

(** *** deleteServiceAccounts *)

(** The filter condition
    [len(emailParts) > 0 && strings.HasPrefix(emailParts[0], "vsa-sa-gcnv")].
    Indexing a slice out of range panics in Go: [None] stands for that
    panic. *)
Definition isTarget (email : string) : option bool :=
  let emailParts := strings.Split email "@"%char in
  if (0 <? List.length emailParts)%nat then
    match nth_error emailParts 0 with
    | Some local => Some (strings.HasPrefix local "vsa-sa-gcnv")
    | None => None
    end
  else Some false.

(** The filter loop [for _, sa := range resp.Accounts]; [None] after a
    panic. *)
Fixpoint filterAccounts (l : list ServiceAccount) (targetAccounts : list ServiceAccount)
  : M (option (list ServiceAccount)) :=
  match l with
  | [] => ret (Some targetAccounts)
  | sa :: l' =>
      match isTarget (Email sa) with
      | None => emit EPanic ;; ret None
      | Some true =>
          let targetAccounts := targetAccounts ++ [sa] in
          log_Printf "  Found Service Account: %s (%s)" [AStr (Email sa); AStr (DisplayName sa)] ;;
          filterAccounts l' targetAccounts
      | Some false => filterAccounts l' targetAccounts
      end
  end.

(** The goroutine started for one target account. *)
Definition deleteAccountTask (account : ServiceAccount) : M unit :=
  emit (EDelete (DeleteServiceAccount (Name account))) ;;
  match deleteResult b (DeleteServiceAccount (Name account)) with
  | Some err =>
      log_Printf "  ERROR deleting service account %s: %v" [AStr (Email account); AErr err]
  | None =>
      log_Printf "  ✓ Deleted service account: %s" [AStr (Email account)]
  end.

Definition deleteServiceAccounts (projectID : string) : M (option error) :=
  log_Printf "[%s] Checking service accounts..." [AStr projectID] ;;
  emit (ENewClient IAMService) ;;
  match newClient b IAMService projectID with
  | Some err => ret (Some (Errorf "failed to create IAM service: %w" err))
  | None =>
      emit (EList (ListServiceAccounts (String.append "projects/" projectID))) ;;
      match serviceAccounts b (String.append "projects/" projectID) with
      | inr err => ret (Some (Errorf "failed to list service accounts: %w" err))
      | inl accounts =>
          filtered <- filterAccounts accounts [] ;;
          match filtered with
          | None => ret None
          | Some targetAccounts =>
              if (List.length targetAccounts =? 0)%nat then
                log_Printf "[%s] No service accounts found with prefix 'vsa-sa-gcnv'"
                  [AStr projectID] ;;
                ret None
              else if dryRun cfg then
                log_Printf "[%s] Would delete %d service accounts"
                  [AStr projectID; AInt (Z.of_nat (List.length targetAccounts))] ;;
                ret None
              else
                log_Printf "[%s] Deleting %d service accounts in parallel..."
                  [AStr projectID; AInt (Z.of_nat (List.length targetAccounts))] ;;
                par (map deleteAccountTask targetAccounts) ;;
                log_Printf "[%s] All service account deletions complete" [AStr projectID] ;;
                ret None
          end
      end
  end.

(** *** cleanupProject *)

(** [if err := f(ctx, projectID); err != nil { log.Printf(format, projectID, err) }] *)
Definition logged (format : string) (projectID : string) (f : M (option error)) : M unit :=
  err <- f ;;
  match err with
  | Some err => log_Printf format [AStr projectID; AErr err]
  | None => ret tt
  end.

Definition bucketsNote : string :=
  String.append ESC
    (String.append "[31m[%s] Note: Storage buckets must be deleted manually via GCP Console"
       (String.append ESC (String.append "[0m" LF))).

Definition cleanupProject (projectID : string) : M unit :=
  logged "Error deleting VM instances in %s: %v" projectID (deleteVMInstances projectID) ;;
  par [ logged "Error deleting disks in %s: %v" projectID (deleteDisks projectID);
        logged "Error releasing static IPs in %s: %v" projectID (releaseStaticIPs projectID);
        logged "Error deleting service accounts in %s: %v" projectID
          (deleteServiceAccounts projectID) ] ;;
  fmt_Printf bucketsNote [AStr projectID].

(** *** main *)

Definition sectionMarker : string :=
  String.append LF "========== Processing Project: %s ==========".

Definition completeBanner : string :=
  String.append LF "========== Cleanup Complete ==========".

(** [for _, projectID := range projectIDs]. *)
Fixpoint projectsLoop (l : list string) : M unit :=
  match l with
  | [] => ret tt
  | projectID :: l' =>
      log_Printf sectionMarker [AStr projectID] ;;
      cleanupProject projectID ;;
      projectsLoop l'
  end.

Definition main : M unit :=
  log_Printf "Starting GCP cleanup script (Dry Run: %v)" [ABool (dryRun cfg)] ;;
  log_Printf "Projects to clean: %v" [AStrs (projectIDs cfg)] ;;
  projectsLoop (projectIDs cfg) ;;
  log_Println completeBanner.

End Cleaners.

(** The configuration as committed in [main.go]. *)
Definition sourceConfig : config :=
  {| projectIDs := ["z257c6412e15fa257-tp"; "mfc4dc04826a8d270-tp"; "u6c7e2e4892fda638-tp"];
     dryRun := false |}.

(** * Vocabulary of the properties *)

(** The resource-type cleaners of [main.go]. *)
Inductive cleaner : Type :=
| CInstances | CDisks | CAddresses | CServiceAccounts | CBuckets.

Definition client_cleaner (k : client_kind) : cleaner :=
  match k with
  | InstancesRESTClient => CInstances
  | DisksRESTClient => CDisks
  | AddressesRESTClient | GlobalAddressesRESTClient => CAddresses
  | StorageClient => CBuckets
  | IAMService => CServiceAccounts
  end.

Definition list_cleaner (r : list_req) : cleaner :=
  match r with
  | AggregatedListInstancesRequest _ => CInstances
  | AggregatedListDisksRequest _ => CDisks
  | AggregatedListAddressesRequest _ | ListGlobalAddressesRequest _ => CAddresses
  | ListBuckets _ | ListObjects _ => CBuckets
  | ListServiceAccounts _ => CServiceAccounts
  end.

Definition req_cleaner (r : delete_req) : cleaner :=
  match r with
  | DeleteInstanceRequest _ _ _ => CInstances
  | DeleteDiskRequest _ _ _ => CDisks
  | DeleteAddressRequest _ _ _ | DeleteGlobalAddressRequest _ _ => CAddresses
  | DeleteServiceAccount _ => CServiceAccounts
  | DeleteObject _ _ | DeleteBucket _ => CBuckets
  end.

(** The project a compute request names. *)
Definition req_project (r : delete_req) : option string :=
  match r with
  | DeleteInstanceRequest p _ _ | DeleteDiskRequest p _ _
  | DeleteAddressRequest p _ _ | DeleteGlobalAddressRequest p _ => Some p
  | DeleteServiceAccount _ | DeleteObject _ _ | DeleteBucket _ => None
  end.

(** The delete calls that return a long-running operation. *)
Definition returns_operation (r : delete_req) : bool :=
  match r with
  | DeleteInstanceRequest _ _ _ | DeleteDiskRequest _ _ _
  | DeleteAddressRequest _ _ _ | DeleteGlobalAddressRequest _ _ => true
  | DeleteServiceAccount _ | DeleteObject _ _ | DeleteBucket _ => false
  end.

(** A mutating provider call. *)
Definition is_mutating (e : event) : bool :=
  match e with
  | EDelete _ => true
  | _ => false
  end.

(** A call to the storage API: client, listing or deletion of buckets and
    objects. *)
Definition is_storage (e : event) : bool :=
  match e with
  | ENewClient StorageClient | EClose StorageClient => true
  | EList (ListBuckets _) | EList (ListObjects _) => true
  | EDelete (DeleteObject _ _) | EDelete (DeleteBucket _) => true
  | EWait (DeleteObject _ _) | EWait (DeleteBucket _) => true
  | _ => false
  end.

(** What the cleaner [k], run on [projectID], may do at all. *)
Definition emits (cfg : config) (projectID : string) (k : cleaner) (e : event) : Prop :=
  match e with
  | ELog _ _ => True
  | EPrintf _ _ => False
  | ENewClient c | EClose c => client_cleaner c = k
  | EList r => list_cleaner r = k
  | EDelete r =>
      dryRun cfg = false /\ req_cleaner r = k /\
      (req_project r = None \/ req_project r = Some projectID)
  | EWait r =>
      dryRun cfg = false /\ req_cleaner r = k /\ returns_operation r = true /\
      req_project r = Some projectID
  | EPanic => False
  end.

(** Every run of [m] has a trace satisfying [Q]. *)
Definition always {A} (Q : trace -> Prop) (m : M A) : Prop :=
  forall t a, In (t, a) m -> Q t.

(** [m] has a run: the computation returns. *)
Definition returns {A} (m : M A) : Prop := exists t a, In (t, a) m.

(** The delete calls of a trace, in order. *)
Fixpoint deletes_of (t : trace) : list delete_req :=
  match t with
  | [] => []
  | EDelete r :: t' => r :: deletes_of t'
  | _ :: t' => deletes_of t'
  end.

(** The delete calls and operation waits of a trace, in order. *)
Fixpoint calls_of (t : trace) : trace :=
  match t with
  | [] => []
  | EDelete r :: t' => EDelete r :: calls_of t'
  | EWait r :: t' => EWait r :: calls_of t'
  | _ :: t' => calls_of t'
  end.

(** The byte [c] occurs in [s]. *)
Fixpoint contains_byte (c : ascii) (s : string) : bool :=
  match s with
  | EmptyString => false
  | String a s' => Ascii.eqb a c || contains_byte c s'
  end.

(** The fixed prefix tag of the service accounts created by automation. *)
Definition prefixTag : string := "vsa-sa-gcnv".

(** The accounts the filter of [deleteServiceAccounts] keeps. *)
Definition isCandidate (sa : ServiceAccount) : bool :=
  match isTarget (Email sa) with
  | Some true => true
  | _ => false
  end.

(** What [cleanupProject] may do on [projectID]: what its four cleaners may
    do, and the closing note about buckets. *)
Definition project_event (cfg : config) (projectID : string) (e : event) : Prop :=
  (exists k, k <> CBuckets /\ emits cfg projectID k e) \/
  e = EPrintf bucketsNote [AStr projectID].

(** An event of discovery or reporting: anything but a delete call, an
    operation wait or a panic. *)
Definition reports_only (e : event) : bool :=
  match e with
  | EDelete _ | EWait _ | EPanic => false
  | _ => true
  end.

(** No mutating call, only discovery and reports. *)
Definition dry (e : event) : Prop := is_mutating e = false /\ reports_only e = true.

(** ** The end-to-end scenario of the specification

    One project with two instances (one of them running), one unattached
    disk, one reserved regional address, one global address in use and one
    service account created by automation; no provider call fails. *)

Definition scenarioBackend : backend :=
  {| newClient := fun _ _ => None;
     instances := fun _ =>
       Iterator
         [[ {| InstanceName := "vm-a";
               InstanceZone := "https://www.googleapis.com/compute/v1/projects/p/zones/us-central1-a";
               InstanceStatus := "RUNNING" |};
            {| InstanceName := "vm-b";
               InstanceZone := "https://www.googleapis.com/compute/v1/projects/p/zones/us-central1-b";
               InstanceStatus := "TERMINATED" |} ]] None;
     disks := fun _ =>
       Iterator
         [[ {| DiskName := "disk-1";
               DiskZone := "https://www.googleapis.com/compute/v1/projects/p/zones/us-central1-a";
               DiskUsers := [];
               DiskSizeGb := 10 |} ]] None;
     addresses := fun _ =>
       Iterator
         [[ {| AddressName := "ip-1";
               AddressRegion := "https://www.googleapis.com/compute/v1/projects/p/regions/us-central1";
               AddressAddress := "10.0.0.1";
               AddressStatus := "RESERVED" |} ]] None;
     globalAddresses := fun _ =>
       Iterator
         [ {| AddressName := "gip-1";
              AddressRegion := "";
              AddressAddress := "10.0.0.2";
              AddressStatus := "IN_USE" |} ] None;
     buckets := fun _ =>
       Iterator [ {| BucketName := "bkt"; Location := "US"; StorageClass := "STANDARD" |} ] None;
     objects := fun _ => Iterator ["obj"] None;
     serviceAccounts := fun _ =>
       inl [ {| Name := "projects/p/serviceAccounts/vsa-sa-gcnv-x@p.iam.gserviceaccount.com";
                Email := "vsa-sa-gcnv-x@p.iam.gserviceaccount.com";
                DisplayName := "x" |} ];
     deleteResult := fun _ => None;
     waitResult := fun _ => None |}.

Definition dryConfig : config := {| projectIDs := ["p"]; dryRun := true |}.
Definition liveConfig : config := {| projectIDs := ["p"]; dryRun := false |}.

(** ** Candidates *)

(** The trace of the first run of a computation; for the sequential
    functions of [main.go] it is the only one. *)
Definition first_run {A} (m : M A) : trace :=
  match m with
  | (t, _) :: _ => t
  | [] => []
  end.

(** A disk without attachment references. *)
Definition unattached (d : Disk) : bool := negb (0 <? List.length (DiskUsers d))%nat.

(** An address whose status is ["IN_USE"]. *)
Definition in_use (a : Address) : bool := String.eqb (AddressStatus a) "IN_USE".

Definition instanceRequest (p : string) (i : Instance) : delete_req :=
  DeleteInstanceRequest p (extractZoneFromURL (InstanceZone i)) (InstanceName i).

Definition diskRequest (p : string) (d : Disk) : delete_req :=
  DeleteDiskRequest p (extractZoneFromURL (DiskZone d)) (DiskName d).

Definition addressRequest (p : string) (a : Address) : delete_req :=
  DeleteAddressRequest p (extractRegionFromURL (AddressRegion a)) (AddressName a).

Definition globalRequest (p : string) (a : Address) : delete_req :=
  DeleteGlobalAddressRequest p (AddressName a).

Definition accountRequest (sa : ServiceAccount) : delete_req :=
  DeleteServiceAccount (Name sa).

(** What the listings of project [p] yield before they end or fail. *)
Definition listed_instances (b : backend) (p : string) : list Instance :=
  List.concat (items (instances b p)).

Definition listed_disks (b : backend) (p : string) : list Disk :=
  List.concat (items (disks b p)).

Definition listed_addresses (b : backend) (p : string) : list Address :=
  List.concat (items (addresses b p)).

Definition listed_globals (b : backend) (p : string) : list Address :=
  items (globalAddresses b p).

Definition listed_accounts (b : backend) (p : string) : list ServiceAccount :=
  match serviceAccounts b (String.append "projects/" p) with
  | inl accounts => accounts
  | inr _ => []
  end.

(** The delete call for [r], followed by the wait on its operation when the
    provider accepted the call. *)
Definition call_and_wait (b : backend) (r : delete_req) : trace :=
  EDelete r :: match deleteResult b r with
               | Some _ => []
               | None => [EWait r]
               end.

(** An address that is not in use. *)
Definition releasable (a : Address) : bool := negb (in_use a).

(** A variant of the scenario with other disks, regional addresses and
    service accounts, and with provider calls that may fail. *)
Definition scenarioWith (ds : list Disk) (ads : list Address) (sas : list ServiceAccount)
    (failing : delete_req -> option error) : backend :=
  {| newClient := newClient scenarioBackend;
     instances := instances scenarioBackend;
     disks := fun _ => Iterator [ds] None;
     addresses := fun _ => Iterator [ads] None;
     globalAddresses := globalAddresses scenarioBackend;
     buckets := buckets scenarioBackend;
     objects := objects scenarioBackend;
     serviceAccounts := fun _ => inl sas;
     deleteResult := failing;
     waitResult := fun _ => None |}.

Definition freeDisk : Disk :=
  {| DiskName := "disk-1"; DiskZone := "zones/us-central1-a"; DiskUsers := [];
     DiskSizeGb := 10 |}.

Definition attachedDisk : Disk :=
  {| DiskName := "disk-2"; DiskZone := "zones/us-central1-a";
     DiskUsers := ["zones/us-central1-a/instances/vm-a"]; DiskSizeGb := 500 |}.

Definition reservedAddress : Address :=
  {| AddressName := "ip-1"; AddressRegion := "regions/us-central1";
     AddressAddress := "10.0.0.1"; AddressStatus := "RESERVED" |}.

Definition usedAddress : Address :=
  {| AddressName := "ip-2"; AddressRegion := "regions/us-central1";
     AddressAddress := "10.0.0.3"; AddressStatus := "IN_USE" |}.

Definition taggedAccount : ServiceAccount :=
  {| Name := "projects/p/serviceAccounts/vsa-sa-gcnv-123@proj.iam.gserviceaccount.com";
     Email := "vsa-sa-gcnv-123@proj.iam.gserviceaccount.com";
     DisplayName := "automation" |}.

Definition otherAccount : ServiceAccount :=
  {| Name := "projects/p/serviceAccounts/other-sa@proj.iam.gserviceaccount.com";
     Email := "other-sa@proj.iam.gserviceaccount.com";
     DisplayName := "other" |}.

(** Attached and unattached disks, used and reserved addresses, tagged and
    untagged accounts; the provider refuses to delete [disk-1]. *)
Definition mixedBackend : backend :=
  scenarioWith [attachedDisk; freeDisk] [usedAddress; reservedAddress]
    [otherAccount; taggedAccount]
    (fun r => match r with
              | DeleteDiskRequest _ _ _ => Some (ProviderError "resource is not ready")
              | _ => None
              end).

(** The calls of the loop over global addresses, which runs when the
    regional listing ended without error and the global client exists. *)
Definition global_calls (b : backend) (p : string) : trace :=
  match final (addresses b p), newClient b GlobalAddressesRESTClient p with
  | None, None =>
      flat_map (fun a => call_and_wait b (globalRequest p a))
        (filter releasable (listed_globals b p))
  | _, _ => []
  end.

(** What [deleteVMInstances] records of an instance. *)
Definition infoOf (i : Instance) : instanceInfo :=
  {| name := InstanceName i; zone := extractZoneFromURL (InstanceZone i) |}.

(** The part of the trace of [main] produced by the loop over the projects:
    for each project its section marker, then a run of [cleanupProject]. *)
Definition sections (ps : list string) (ts : list trace) : trace :=
  List.concat (map (fun pt => ELog sectionMarker [AStr (fst pt)] :: snd pt) (combine ps ts)).

(** The runs of the cleaners on [mixedBackend] used as examples. *)
Definition mixedDiskRun : trace :=
  Eval vm_compute in first_run (deleteDisks liveConfig mixedBackend "p").

Definition mixedAddressDryRun : trace :=
  Eval vm_compute in first_run (releaseStaticIPs dryConfig mixedBackend "p").

Definition mixedAccountRun : trace :=
  Eval vm_compute in first_run (deleteServiceAccounts liveConfig mixedBackend "p").

(** A provider call made by cleaner [k]: client creation or closing, a
    listing, a delete call or an operation wait. *)
Definition belongs_to (k : cleaner) (e : event) : Prop :=
  match e with
  | ENewClient c | EClose c => client_cleaner c = k
  | EList r => list_cleaner r = k
  | EDelete r | EWait r => req_cleaner r = k
  | _ => False
  end.

(** The line [cleanupProject] logs when a cleaner returned an error. *)
Definition errLog (format : string) (projectID : string) (r : option error) : trace :=
  match r with
  | Some err => [ELog format [AStr projectID; AErr err]]
  | None => []
  end.

(** The runs of the four cleaners on the scenario in live mode, the
    goroutines taken one after the other. *)
Definition scenarioVMRun : trace :=
  Eval vm_compute in first_run (deleteVMInstances liveConfig scenarioBackend "p").

Definition scenarioDiskRun : trace :=
  Eval vm_compute in first_run (deleteDisks liveConfig scenarioBackend "p").

Definition scenarioAddressRun : trace :=
  Eval vm_compute in first_run (releaseStaticIPs liveConfig scenarioBackend "p").

Definition scenarioAccountRun : trace :=
  Eval vm_compute in first_run (deleteServiceAccounts liveConfig scenarioBackend "p").

Definition scenarioProjectRun : trace :=
  Eval vm_compute in
    scenarioVMRun ++ scenarioDiskRun ++ scenarioAddressRun ++ scenarioAccountRun
    ++ [EPrintf bucketsNote [AStr "p"]].

(** ** Success reports *)

(** A line reporting that an item was deleted or released. *)
Definition is_success (e : event) : bool :=
  match e with
  | ELog format _ => String.prefix "  ✓" format
  | _ => false
  end.

(** The success line of the item named by a compute request. *)
Definition reports_success (e : event) (r : delete_req) : Prop :=
  match r with
  | DeleteInstanceRequest _ _ n => e = ELog "  ✓ Deleted VM instance: %s" [AStr n]
  | DeleteDiskRequest _ _ n => e = ELog "  ✓ Deleted disk: %s" [AStr n]
  | DeleteAddressRequest _ _ n => e = ELog "  ✓ Released static IP: %s" [AStr n]
  | DeleteGlobalAddressRequest _ n => e = ELog "  ✓ Released global static IP: %s" [AStr n]
  | _ => False
  end.


(** What precedes a success report in the code: for an instance, disk or
    address, the accepted delete call for that item and then the wait on its
    operation, which returned without error; for a service account, the
    delete call alone, which returned without error. *)
Definition justified (b : backend) (p : string) (pre : trace) (e : event) : Prop :=
  (exists r, returns_operation r = true /\ req_project r = Some p /\
             reports_success e r /\
             deleteResult b r = None /\ waitResult b r = None /\
             subseq [EDelete r; EWait r] pre) \/
  (exists sa, In sa (listed_accounts b p) /\
              e = ELog "  ✓ Deleted service account: %s" [AStr (Email sa)] /\
              deleteResult b (accountRequest sa) = None /\
              In (EDelete (accountRequest sa)) pre).

Definition success_justified (b : backend) (p : string) (t : trace) : Prop :=
  forall pre e post, t = pre ++ e :: post -> is_success e = true -> justified b p pre e.

(** Every delete call of the trace is directly followed by an event that
    is not a delete call: no second delete is issued before the caller has
    seen the outcome of the first. *)
Definition one_at_a_time (t : trace) : Prop :=
  forall a q c, t = a ++ EDelete q :: c ->
    exists e c', c = e :: c' /\ is_mutating e = false.

(** Two delete calls in a row: the second is issued while the first is
    still in flight. *)
Definition overlapping (t : trace) (q1 q2 : delete_req) : Prop :=
  exists a c, t = a ++ EDelete q1 :: EDelete q2 :: c.

(** A run of [main] on the scenario. *)
Definition scenarioMainRun : trace :=
  Eval vm_compute in
    [ELog "Starting GCP cleanup script (Dry Run: %v)" [ABool false];
     ELog "Projects to clean: %v" [AStrs ["p"]]]
    ++ sections ["p"] [scenarioProjectRun]
    ++ [ELog completeBanner []].

(** Two unattached disks and two tagged accounts; no provider call fails. *)
Definition busyBackend : backend :=
  scenarioWith
    [freeDisk;
     {| DiskName := "disk-3"; DiskZone := "zones/us-central1-b"; DiskUsers := [];
        DiskSizeGb := 20 |}]
    [reservedAddress]
    [taggedAccount;
     {| Name := "projects/p/serviceAccounts/vsa-sa-gcnv-456@proj.iam.gserviceaccount.com";
        Email := "vsa-sa-gcnv-456@proj.iam.gserviceaccount.com";
        DisplayName := "automation" |}]
    (fun _ => None).

Definition busyDiskRun : trace :=
  Eval vm_compute in first_run (deleteDisks liveConfig busyBackend "p").

(** ** Buckets *)

(** The delete calls [deleteBuckets] issues for one bucket: one per listed
    object, then the bucket itself. *)
Definition bucket_requests (b : backend) (attrs : BucketAttrs) : list delete_req :=
  map (DeleteObject (BucketName attrs)) (items (objects b (BucketName attrs)))
  ++ [DeleteBucket (BucketName attrs)].

(** The provider accepts the deletion of object [o] of [bucket]. *)
Definition object_deleted (b : backend) (bucket o : string) : bool :=
  match deleteResult b (DeleteObject bucket o) with
  | None => true
  | Some _ => false
  end.

(** The runs of the bucket cleaner on the scenario. *)
Definition scenarioBucketRun : trace :=
  Eval vm_compute in first_run (deleteBuckets liveConfig scenarioBackend "p").

Definition scenarioBucketDryRun : trace :=
  Eval vm_compute in first_run (deleteBuckets dryConfig scenarioBackend "p").

Definition scenarioBucket : BucketAttrs :=
  {| BucketName := "bkt"; Location := "US"; StorageClass := "STANDARD" |}.

Definition scenarioBucketBodyRun : trace :=
  Eval vm_compute in first_run (bucketBody liveConfig scenarioBackend scenarioBucket 0).

(** ** What the cleaners return

    The error each cleaner returns, read off its [return] statements: the
    construction of a client or a listing failed. *)

Definition vmResult (b : backend) (p : string) : option error :=
  match newClient b InstancesRESTClient p with
  | Some err => Some (Errorf "failed to create instances client: %w" err)
  | None =>
      match final (instances b p) with
      | Some err => Some (Errorf "error listing instances: %w" err)
      | None => None
      end
  end.

Definition disksResult (b : backend) (p : string) : option error :=
  match newClient b DisksRESTClient p with
  | Some err => Some (Errorf "failed to create disks client: %w" err)
  | None =>
      match final (disks b p) with
      | Some err => Some (Errorf "error listing disks: %w" err)
      | None => None
      end
  end.

Definition addressesResult (b : backend) (p : string) : option error :=
  match newClient b AddressesRESTClient p with
  | Some err => Some (Errorf "failed to create addresses client: %w" err)
  | None =>
      match final (addresses b p) with
      | Some err => Some (Errorf "error listing addresses: %w" err)
      | None =>
          match newClient b GlobalAddressesRESTClient p with
          | Some err => Some (Errorf "failed to create global addresses client: %w" err)
          | None => None
          end
      end
  end.

Definition accountsResult (b : backend) (p : string) : option error :=
  match newClient b IAMService p with
  | Some err => Some (Errorf "failed to create IAM service: %w" err)
  | None =>
      match serviceAccounts b (String.append "projects/" p) with
      | inr err => Some (Errorf "failed to list service accounts: %w" err)
      | inl _ => None
      end
  end.

Definition bucketsResult (b : backend) (p : string) : option error :=
  match newClient b StorageClient p with
  | Some err => Some (Errorf "failed to create storage client: %w" err)
  | None =>
      match final (buckets b p) with
      | Some err => Some (Errorf "error listing buckets: %w" err)
      | None => None
      end
  end.

(** ** Clients and listings that fail *)

(** The clients a trace tries to create and the clients it closes, in
    order. *)
Fixpoint clients_of (t : trace) : list client_kind :=
  match t with
  | [] => []
  | ENewClient k :: t' => k :: clients_of t'
  | _ :: t' => clients_of t'
  end.

Fixpoint closes_of (t : trace) : list client_kind :=
  match t with
  | [] => []
  | EClose k :: t' => k :: closes_of t'
  | _ :: t' => closes_of t'
  end.

(** The clients that [main.go] closes with [defer client.Close()]: all but
    the IAM service. *)
Definition deferred_close (k : client_kind) : bool :=
  match k with
  | IAMService => false
  | _ => true
  end.

(** The construction of client [k] succeeds for project [p]. *)
Definition created (b : backend) (p : string) (k : client_kind) : bool :=
  match newClient b k p with
  | None => true
  | Some _ => false
  end.

(** An event that neither creates nor closes a client. *)
Definition no_client (e : event) : Prop :=
  match e with
  | ENewClient _ | EClose _ => False
  | _ => True
  end.

Definition run_cleaner (cfg : config) (b : backend) (p : string) (k : cleaner)
  : M (option error) :=
  match k with
  | CInstances => deleteVMInstances cfg b p
  | CDisks => deleteDisks cfg b p
  | CAddresses => releaseStaticIPs cfg b p
  | CServiceAccounts => deleteServiceAccounts cfg b p
  | CBuckets => deleteBuckets cfg b p
  end.

(** The line [deleteVMInstances] logs for a listed instance. *)
Definition foundInstance (i : Instance) : event :=
  ELog "  Found VM Instance: %s (zone: %s, status: %s)"
    [AStr (InstanceName i); AStr (extractZoneFromURL (InstanceZone i));
     AStr (InstanceStatus i)].

(** A provider whose listings yield items and then fail, and whose
    operations never complete. *)
Definition quotaError : error := ProviderError "quota exceeded".

Definition faultyBackend : backend :=
  {| newClient := fun _ _ => None;
     instances := fun _ => Iterator (items (instances scenarioBackend "p")) (Some quotaError);
     disks := fun _ => Iterator [[attachedDisk; freeDisk]] (Some quotaError);
     addresses := fun _ => Iterator [[usedAddress; reservedAddress]] (Some quotaError);
     globalAddresses := fun _ =>
       Iterator [ {| AddressName := "gip-2"; AddressRegion := "";
                     AddressAddress := "10.0.0.4"; AddressStatus := "RESERVED" |} ]
         (Some quotaError);
     buckets := fun _ => Iterator [scenarioBucket] (Some quotaError);
     objects := fun _ => Iterator ["obj"] (Some quotaError);
     serviceAccounts := fun _ => inr quotaError;
     deleteResult := fun _ => None;
     waitResult := fun _ => Some (ProviderError "operation timed out") |}.

Definition faultyVMRun : trace :=
  Eval vm_compute in first_run (deleteVMInstances liveConfig faultyBackend "p").

Definition faultyDiskRun : trace :=
  Eval vm_compute in first_run (deleteDisks liveConfig faultyBackend "p").

Definition faultyAddressRun : trace :=
  Eval vm_compute in first_run (releaseStaticIPs liveConfig faultyBackend "p").

Definition faultyAccountRun : trace :=
  Eval vm_compute in first_run (deleteServiceAccounts liveConfig faultyBackend "p").

(** ** Errors of the cleaners, as [cleanupProject] logs them *)

Definition result_of (b : backend) (p : string) (k : cleaner) : option error :=
  match k with
  | CInstances => vmResult b p
  | CDisks => disksResult b p
  | CAddresses => addressesResult b p
  | CServiceAccounts => accountsResult b p
  | CBuckets => bucketsResult b p
  end.

(** The format of the line [cleanupProject] logs when a cleaner returns an
    error. *)
Definition error_lines : list (cleaner * string) :=
  [(CInstances, "Error deleting VM instances in %s: %v");
   (CDisks, "Error deleting disks in %s: %v");
   (CAddresses, "Error releasing static IPs in %s: %v");
   (CServiceAccounts, "Error deleting service accounts in %s: %v")].

(** The first line of each cleaner [cleanupProject] calls. *)
Definition checking_lines : list string :=
  ["[%s] Checking VM instances..."; "[%s] Checking disks...";
   "[%s] Checking static IP addresses..."; "[%s] Checking service accounts..."].

(** An event that is not one of the error lines of [cleanupProject]. *)
Definition no_project_error (e : event) : Prop :=
  match e with
  | ELog format _ => existsb (fun kf => String.eqb (snd kf) format) error_lines = false
  | _ => True
  end.

Definition faultyProjectRun : trace :=
  Eval vm_compute in
    faultyVMRun
    ++ errLog "Error deleting VM instances in %s: %v" "p" (vmResult faultyBackend "p")
    ++ ((faultyDiskRun
         ++ errLog "Error deleting disks in %s: %v" "p" (disksResult faultyBackend "p"))
        ++ (faultyAddressRun
            ++ errLog "Error releasing static IPs in %s: %v" "p"
                 (addressesResult faultyBackend "p"))
        ++ (faultyAccountRun
            ++ errLog "Error deleting service accounts in %s: %v" "p"
                 (accountsResult faultyBackend "p")))
    ++ [EPrintf bucketsNote [AStr "p"]].

(** ** What follows a provider call *)

(** The line reporting that the delete call [r] was refused with [err]. *)
Definition reports_delete_failure (e : event) (r : delete_req) (err : error) : Prop :=
  match r with
  | DeleteInstanceRequest _ _ n =>
      e = ELog "  ERROR deleting instance %s: %v" [AStr n; AErr err]
  | DeleteDiskRequest _ _ n => e = ELog "  ERROR deleting disk %s: %v" [AStr n; AErr err]
  | DeleteAddressRequest _ _ n =>
      e = ELog "  ERROR releasing address %s: %v" [AStr n; AErr err]
  | DeleteGlobalAddressRequest _ n =>
      e = ELog "  ERROR releasing global address %s: %v" [AStr n; AErr err]
  | _ => False
  end.

(** The line reporting that the wait on the operation of [r] failed with
    [err]. *)
Definition reports_wait_failure (e : event) (r : delete_req) (err : error) : Prop :=
  match r with
  | DeleteInstanceRequest _ _ n | DeleteDiskRequest _ _ n =>
      e = ELog "  ERROR waiting for deletion of %s: %v" [AStr n; AErr err]
  | DeleteAddressRequest _ _ n | DeleteGlobalAddressRequest _ n =>
      e = ELog "  ERROR waiting for release of %s: %v" [AStr n; AErr err]
  | _ => False
  end.

(** What the code does after the provider call [e], given the provider's
    answer, is found in [post]: after a compute delete call, the error line
    or the wait on its operation; after a wait, the error line or the
    success line. *)
Definition followed_up (b : backend) (e : event) (post : trace) : Prop :=
  match e with
  | EDelete r =>
      returns_operation r = true ->
      match deleteResult b r with
      | Some err => exists l, reports_delete_failure l r err /\ In l post
      | None => In (EWait r) post
      end
  | EWait r =>
      match waitResult b r with
      | Some err => exists l, reports_wait_failure l r err /\ In l post
      | None => exists l, reports_success l r /\ In l post
      end
  | _ => True
  end.

Definition calls_followed_up (b : backend) (t : trace) : Prop :=
  forall pre e post, t = pre ++ e :: post -> followed_up b e post.

(** The position of the wait on the operation of [disk-1] in
    [faultyProjectRun]. *)
Definition faultyWaitPosition : nat :=
  Eval vm_compute in
    (fix find (t : trace) (n : nat) : nat :=
       match t with
       | [] => n
       | EWait _ :: _ => n
       | _ :: t' => find t' (S n)
       end) faultyProjectRun 0%nat.

(** ** What a dry run announces *)

(** The number of items of project [p] that cleaner [k] counts as found. *)
Definition candidate_count (b : backend) (p : string) (k : cleaner) : nat :=
  match k with
  | CInstances => List.length (listed_instances b p)
  | CDisks => List.length (filter unattached (listed_disks b p))
  | CAddresses =>
      List.length (filter releasable (listed_addresses b p))
      + List.length (filter releasable (listed_globals b p))
  | CServiceAccounts => List.length (filter isCandidate (listed_accounts b p))
  | CBuckets => List.length (items (buckets b p))
  end.

(** The format of the line a cleaner called by [cleanupProject] logs at the
    end of a dry run that found something. *)
Definition would_lines : list (cleaner * string) :=
  [(CInstances, "[%s] Would delete %d VM instances");
   (CDisks, "[%s] Would delete %d disks");
   (CAddresses, "[%s] Would release %d static IPs");
   (CServiceAccounts, "[%s] Would delete %d service accounts")].

(** The line [deleteServiceAccounts] logs for a target account. *)
Definition foundAccount (sa : ServiceAccount) : event :=
  ELog "  Found Service Account: %s (%s)" [AStr (Email sa); AStr (DisplayName sa)].

Definition mixedDiskDryRun : trace :=
  Eval vm_compute in first_run (deleteDisks dryConfig mixedBackend "p").

(** ** Scope of a run *)

(** The list call [r] asks for the resources of project [p]. *)
Definition lists_project (p : string) (r : list_req) : Prop :=
  match r with
  | AggregatedListInstancesRequest q | AggregatedListDisksRequest q
  | AggregatedListAddressesRequest q | ListGlobalAddressesRequest q
  | ListBuckets q => q = p
  | ListServiceAccounts parent => parent = String.append "projects/" p
  | ListObjects _ => False
  end.

(** An event that is not a list call for anything but project [p]. *)
Definition lists_only (p : string) (e : event) : Prop :=
  match e with
  | EList r => lists_project p r
  | _ => True
  end.

(** An account whose email holds no ["@"]. *)
Definition localAccount : ServiceAccount :=
  {| Name := "projects/p/serviceAccounts/vsa-sa-gcnv-local";
     Email := "vsa-sa-gcnv-local";
     DisplayName := "local" |}.

(** ** What follows the delete call of a service account *)

(** The delete call of a service account returns no operation: the line
    that reports its outcome, the success line if the call returned without
    error, is found in [post], for a listed candidate with that resource
    name. *)
Definition account_followed_up (b : backend) (p : string) (e : event) (post : trace)
  : Prop :=
  match e with
  | EDelete (DeleteServiceAccount n) =>
      exists sa, In sa (listed_accounts b p) /\ isCandidate sa = true /\ Name sa = n /\
        match deleteResult b (DeleteServiceAccount n) with
        | Some err =>
            In (ELog "  ERROR deleting service account %s: %v" [AStr (Email sa); AErr err])
               post
        | None => In (ELog "  ✓ Deleted service account: %s" [AStr (Email sa)]) post
        end
  | _ => True
  end.

Definition accounts_followed_up (b : backend) (p : string) (t : trace) : Prop :=
  forall pre e post, t = pre ++ e :: post -> account_followed_up b p e post.



(** * Reasoning principles *)

(** ** Interleavings as a relation *)

Section MergeFacts.
Variable A : Type.
Implicit Types xs ys t l : list A.

Lemma merge2_nil_l ys : merge2 [] ys = [ys].
Proof. destruct ys; reflexivity. Qed.

Lemma merge2_nil_r xs : merge2 xs [] = [xs].
Proof. destruct xs; reflexivity. Qed.

Lemma merge2_cons x xs y ys :
  merge2 (x :: xs) (y :: ys) =
  map (cons x) (merge2 xs (y :: ys)) ++ map (cons y) (merge2 (x :: xs) ys).
Proof. reflexivity. Qed.

Lemma merge2_interleave xs : forall ys t, In t (merge2 xs ys) -> interleave xs ys t.
Proof.
  induction xs as [|x xs IHx]; intros ys t H.
  - rewrite merge2_nil_l in H. destruct H as [<-|[]]. constructor.
  - induction ys as [|y ys IHy] in t, H |- *.
    + rewrite merge2_nil_r in H. destruct H as [<-|[]]. constructor.
    + rewrite merge2_cons in H. apply in_app_or in H as [H|H];
        apply in_map_iff in H as (t' & <- & H).
      * constructor. now apply IHx.
      * constructor. now apply IHy.
Qed.

Lemma interleave_merge2 xs ys t : interleave xs ys t -> In t (merge2 xs ys).
Proof.
  induction 1 as [ys|xs|x xs ys t _ IH|y xs ys t _ IH].
  - rewrite merge2_nil_l. now left.
  - rewrite merge2_nil_r. now left.
  - destruct ys as [|y ys].
    + rewrite merge2_nil_r in *. destruct IH as [<-|[]]. now left.
    + rewrite merge2_cons. apply in_or_app. left. now apply in_map.
  - destruct xs as [|x xs].
    + rewrite merge2_nil_l in *. destruct IH as [<-|[]]. now left.
    + rewrite merge2_cons. apply in_or_app. right. now apply in_map.
Qed.

(** Running one goroutine after the other is one of the interleavings. *)
Lemma interleave_app xs ys : interleave xs ys (xs ++ ys).
Proof. induction xs; simpl; constructor; assumption. Qed.

Lemma interleave_Forall (P : A -> Prop) xs ys t :
  interleave xs ys t -> Forall P xs -> Forall P ys -> Forall P t.
Proof.
  induction 1; intros Hx Hy; auto.
  - inversion Hx; subst. constructor; auto.
  - inversion Hy; subst. constructor; auto.
Qed.

Lemma interleave_Permutation xs ys t :
  interleave xs ys t -> Permutation (xs ++ ys) t.
Proof.
  induction 1; simpl.
  - reflexivity.
  - now rewrite app_nil_r.
  - now constructor.
  - rewrite <- IHinterleave. symmetry. apply Permutation_middle.
Qed.

Lemma subseq_refl t : subseq t t.
Proof. induction t; [apply subseq_nil|apply subseq_keep; assumption]. Qed.

Lemma subseq_nil_l t : subseq (@nil A) t.
Proof. induction t; constructor; assumption. Qed.

Lemma subseq_trans (l1 l2 l3 : list A) : subseq l1 l2 -> subseq l2 l3 -> subseq l1 l3.
Proof.
  intros H12 H23. revert l1 H12.
  induction H23 as [|l2 l3 x _ IH|l2 l3 x _ IH]; intros l1 H12.
  - assumption.
  - constructor. now apply IH.
  - inversion H12; subst.
    + apply subseq_skip. now apply IH.
    + apply subseq_keep. now apply IH.
Qed.

Lemma subseq_app_r l (t1 t2 : list A) : subseq l t2 -> subseq l (t1 ++ t2).
Proof. intros H. induction t1; simpl; [assumption|now apply subseq_skip]. Qed.

Lemma subseq_In l t x : subseq l t -> In x l -> In x t.
Proof. induction 1; simpl; intuition. Qed.

Lemma interleave_subseq xs ys t : interleave xs ys t -> subseq xs t /\ subseq ys t.
Proof.
  induction 1 as [ys|xs|x xs ys t _ [IH1 IH2]|y xs ys t _ [IH1 IH2]].
  - split; [apply subseq_nil_l|apply subseq_refl].
  - split; [apply subseq_refl|apply subseq_nil_l].
  - split; [apply subseq_keep|apply subseq_skip]; assumption.
  - split; [apply subseq_skip|apply subseq_keep]; assumption.
Qed.

(** An event of an interleaving comes from one of the two goroutines, and
    what that goroutine did before it also precedes it in the
    interleaving. *)
Lemma interleave_split xs ys t :
  interleave xs ys t ->
  forall pre e post, t = pre ++ e :: post ->
    (exists xp xq, xs = xp ++ e :: xq /\ subseq xp pre) \/
    (exists yp yq, ys = yp ++ e :: yq /\ subseq yp pre).
Proof.
  induction 1 as [ys|xs|x xs ys t _ IH|y xs ys t _ IH]; intros pre e post E.
  - right. exists pre, post. split; [assumption|apply subseq_refl].
  - left. exists pre, post. split; [assumption|apply subseq_refl].
  - destruct pre as [|a pre]; simpl in E; injection E as -> ->.
    + left. exists [], xs. split; [reflexivity|apply subseq_nil].
    + destruct (IH pre e post eq_refl) as [(xp & xq & -> & S)|(yp & yq & -> & S)].
      * left. exists (a :: xp), xq. split; [reflexivity|now apply subseq_keep].
      * right. exists yp, yq. split; [reflexivity|now apply subseq_skip].
  - destruct pre as [|a pre]; simpl in E; injection E as -> ->.
    + right. exists [], ys. split; [reflexivity|apply subseq_nil].
    + destruct (IH pre e post eq_refl) as [(xp & xq & -> & S)|(yp & yq & -> & S)].
      * left. exists xp, xq. split; [reflexivity|now apply subseq_skip].
      * right. exists (a :: yp), yq. split; [reflexivity|now apply subseq_keep].
Qed.

End MergeFacts.

(** ** Runs of the monad *)

Arguments ret : simpl never.
Arguments bind : simpl never.
Arguments emit : simpl never.
Arguments par : simpl never.

Lemma in_ret {A} (x : A) t a : In (t, a) (ret x) <-> t = [] /\ a = x.
Proof.
  unfold ret; simpl. split.
  - intros [E|[]]. injection E as <- <-. auto.
  - intros [-> ->]. now left.
Qed.

Lemma in_emit e t a : In (t, a) (emit e) <-> t = [e].
Proof.
  unfold emit; simpl. split.
  - intros [E|[]]. now injection E as <-.
  - intros ->. destruct a. now left.
Qed.

Lemma in_bind {A B} (m : M A) (f : A -> M B) t b :
  In (t, b) (bind m f) <->
  exists t1 a t2, In (t1, a) m /\ In (t2, b) (f a) /\ t = t1 ++ t2.
Proof.
  unfold bind. rewrite in_flat_map. split.
  - intros ([t1 a] & H1 & H2). apply in_map_iff in H2 as ([t2 b'] & E & H2).
    simpl in E. injection E as <- <-. now exists t1, a, t2.
  - intros (t1 & a & t2 & H1 & H2 & ->). exists (t1, a). split; [assumption|].
    apply in_map_iff. now exists (t2, b).
Qed.

Lemma in_par_nil t a : In (t, a) (par []) <-> t = [].
Proof.
  unfold par, ret; simpl. split.
  - intros [E|[]]. now injection E as <-.
  - intros ->. destruct a. now left.
Qed.

Lemma in_par_cons (m : M unit) ms t a :
  In (t, a) (par (m :: ms)) <->
  exists t1 t2, In (t1, tt) m /\ In (t2, tt) (par ms) /\ interleave t1 t2 t.
Proof.
  change (par (m :: ms)) with
    (flat_map (fun t1 =>
       flat_map (fun t2 => map (fun t => (t, tt)) (merge2 (fst t1) (fst t2)))
                (par ms)) m).
  rewrite in_flat_map. split.
  - intros ([t1 []] & H1 & H2). apply in_flat_map in H2 as ([t2 []] & H2 & H3).
    apply in_map_iff in H3 as (t' & E & H3). injection E as ->.
    exists t1, t2. repeat split; try assumption. now apply merge2_interleave.
  - intros (t1 & t2 & H1 & H2 & H3). exists (t1, tt). split; [assumption|].
    apply in_flat_map. exists (t2, tt). split; [assumption|].
    apply in_map_iff. exists t. destruct a. split; [reflexivity|].
    now apply interleave_merge2.
Qed.

(** The goroutines may also run one after the other. *)
Lemma in_par_concat (tasks : list (M unit)) (ts : list trace) :
  Forall2 (fun m t => In (t, tt) m) tasks ts -> In (List.concat ts, tt) (par tasks).
Proof.
  induction 1 as [|m t ms ts Hm _ IH]; simpl List.concat.
  - now apply in_par_nil.
  - apply in_par_cons. exists t, (List.concat ts). repeat split; try assumption.
    apply interleave_app.
Qed.

(** ** Properties closed under sequencing and interleaving *)

Section Always.
Variable Q : trace -> Prop.
Hypothesis Q_nil : Q [].
Hypothesis Q_app : forall t1 t2, Q t1 -> Q t2 -> Q (t1 ++ t2).
Hypothesis Q_merge : forall t1 t2 t, Q t1 -> Q t2 -> interleave t1 t2 t -> Q t.

Lemma always_ret {A} (x : A) : always Q (ret x).
Proof. intros t a H. apply in_ret in H as [-> _]. exact Q_nil. Qed.

Lemma always_bind {A B} (m : M A) (f : A -> M B) :
  always Q m -> (forall a, always Q (f a)) -> always Q (bind m f).
Proof.
  intros Hm Hf t b' H. apply in_bind in H as (t1 & a & t2 & H1 & H2 & ->).
  apply Q_app; [eapply Hm|eapply Hf]; eassumption.
Qed.

Lemma always_par (tasks : list (M unit)) :
  Forall (always Q) tasks -> always Q (par tasks).
Proof.
  induction 1 as [|m ms Hm _ IH]; intros t a H.
  - apply in_par_nil in H as ->. exact Q_nil.
  - apply in_par_cons in H as (t1 & t2 & H1 & H2 & H3).
    eapply Q_merge; [eapply Hm|eapply IH|]; eassumption.
Qed.

End Always.

Lemma always_emit (Q : trace -> Prop) e : Q [e] -> always Q (emit e).
Proof. intros H t a Ht. apply in_emit in Ht as ->. exact H. Qed.

Lemma always_impl {A} (Q Q' : trace -> Prop) (m : M A) :
  (forall t, Q t -> Q' t) -> always Q m -> always Q' m.
Proof. intros HQ Hm t a H. eapply HQ, Hm, H. Qed.

(** ** Existence of runs *)

Lemma returns_ret {A} (x : A) : returns (ret x).
Proof. exists [], x. now left. Qed.

Lemma returns_emit e : returns (emit e).
Proof. exists [e], tt. now left. Qed.

Lemma returns_bind {A B} (m : M A) (f : A -> M B) :
  returns m -> (forall a, returns (f a)) -> returns (bind m f).
Proof.
  intros (t1 & a & H1) Hf. destruct (Hf a) as (t2 & b' & H2).
  exists (t1 ++ t2), b'. apply in_bind. now exists t1, a, t2.
Qed.

Lemma returns_par (tasks : list (M unit)) : Forall returns tasks -> returns (par tasks).
Proof.
  induction 1 as [|m ms (t1 & [] & H1) _ (t2 & [] & H2)].
  - exists [], tt. now left.
  - exists (t1 ++ t2), tt. apply in_par_cons. exists t1, t2.
    repeat split; try assumption. apply interleave_app.
Qed.

(** ** Properties of every event of a run *)

Section AlwaysForall.
Variable P : event -> Prop.

Lemma all_ret {A} (x : A) : always (Forall P) (ret x).
Proof. apply always_ret. constructor. Qed.

Lemma all_bind {A B} (m : M A) (f : A -> M B) :
  always (Forall P) m -> (forall a, always (Forall P) (f a)) ->
  always (Forall P) (bind m f).
Proof. apply always_bind. intros t1 t2 H1 H2. apply Forall_app; auto. Qed.

Lemma all_par (tasks : list (M unit)) :
  Forall (always (Forall P)) tasks -> always (Forall P) (par tasks).
Proof.
  apply always_par; [constructor|].
  intros t1 t2 t H1 H2 H. eapply interleave_Forall; eassumption.
Qed.

Lemma all_emit e : P e -> always (Forall P) (emit e).
Proof. intros H. apply always_emit. auto. Qed.

Lemma all_par_map {A} (f : A -> M unit) (l : list A) :
  (forall x, always (Forall P) (f x)) -> always (Forall P) (par (map f l)).
Proof. intros H. apply all_par. apply Forall_map, Forall_forall. auto. Qed.

End AlwaysForall.

Lemma all_impl {A} (P P' : event -> Prop) (m : M A) :
  (forall e, P e -> P' e) -> always (Forall P) m -> always (Forall P') m.
Proof. intros H. apply always_impl. intros t. now apply Forall_impl. Qed.

(** Walks through a computation written with [bind], [emit], [ret], [match]
    and [if], leaving one goal per emitted event; [loops] closes the calls
    of loop functions. *)
Ltac all_events loops :=
  unfold log_Printf, log_Println, fmt_Printf;
  repeat first
    [ match goal with
      | |- always _ (ret _) => apply all_ret
      | |- always _ (emit _) => apply all_emit
      | |- always _ (bind _ _) => apply all_bind; [|intros ?]
      | |- always _ (par (map _ _)) => apply all_par_map; intros ?
      | |- always _ (match ?x with _ => _ end) => destruct x eqn:?
      end
    | loops ].

Ltac emits_done :=
  simpl; repeat split; auto;
  repeat match goal with
  | H : negb ?x = true |- _ => apply negb_true_iff in H
  end; auto.

Section CleanerEvents.
Variable cfg : config.
Variable b : backend.
Variable projectID : string.

Lemma collectInstances_emits pairs l :
  always (Forall (emits cfg projectID CInstances)) (collectInstances pairs l).
Proof.
  assert (Hp : forall p l0,
             always (Forall (emits cfg projectID CInstances)) (collectPair p l0)).
  { induction p as [|i p IH]; intros l0; simpl; all_events ltac:(apply IH); emits_done. }
  revert l. induction pairs as [|p pairs IH]; intros l; simpl;
    all_events ltac:(first [apply Hp|apply IH]).
Qed.

Lemma deleteVMInstances_emits :
  always (Forall (emits cfg projectID CInstances)) (deleteVMInstances cfg b projectID).
Proof.
  unfold deleteVMInstances, deleteInstanceTask.
  all_events ltac:(apply collectInstances_emits); emits_done.
Qed.

Lemma disksLoop_emits pairs n :
  always (Forall (emits cfg projectID CDisks)) (disksLoop cfg b projectID pairs n).
Proof.
  assert (Hb : forall d k,
             always (Forall (emits cfg projectID CDisks)) (diskBody cfg b projectID d k)).
  { intros d k. unfold diskBody. all_events fail; emits_done. }
  assert (Hp : forall p k,
             always (Forall (emits cfg projectID CDisks)) (disksPair cfg b projectID p k)).
  { induction p as [|d p IH]; intros k; simpl; all_events ltac:(first [apply Hb|apply IH]). }
  revert n. induction pairs as [|p pairs IH]; intros n; simpl;
    all_events ltac:(first [apply Hp|apply IH]).
Qed.

Lemma deleteDisks_emits :
  always (Forall (emits cfg projectID CDisks)) (deleteDisks cfg b projectID).
Proof.
  unfold deleteDisks. all_events ltac:(apply disksLoop_emits); emits_done.
Qed.

Lemma addressesLoop_emits pairs n :
  always (Forall (emits cfg projectID CAddresses)) (addressesLoop cfg b projectID pairs n).
Proof.
  assert (Hb : forall d k,
             always (Forall (emits cfg projectID CAddresses))
               (addressBody cfg b projectID d k)).
  { intros d k. unfold addressBody. all_events fail; emits_done. }
  assert (Hp : forall p k,
             always (Forall (emits cfg projectID CAddresses))
               (addressesPair cfg b projectID p k)).
  { induction p as [|d p IH]; intros k; simpl; all_events ltac:(first [apply Hb|apply IH]). }
  revert n. induction pairs as [|p pairs IH]; intros n; simpl;
    all_events ltac:(first [apply Hp|apply IH]).
Qed.

Lemma globalLoop_emits l n :
  always (Forall (emits cfg projectID CAddresses)) (globalLoop cfg b projectID l n).
Proof.
  assert (Hb : forall d k,
             always (Forall (emits cfg projectID CAddresses))
               (globalBody cfg b projectID d k)).
  { intros d k. unfold globalBody. all_events fail; emits_done. }
  revert n. induction l as [|d l IH]; intros n; simpl;
    all_events ltac:(first [apply Hb|apply IH]).
Qed.

Lemma releaseStaticIPs_emits :
  always (Forall (emits cfg projectID CAddresses)) (releaseStaticIPs cfg b projectID).
Proof.
  unfold releaseStaticIPs.
  all_events ltac:(first [apply addressesLoop_emits|apply globalLoop_emits]); emits_done.
Qed.

End CleanerEvents.

(** ** Strings *)

Lemma Split_not_nil s sep : strings.Split s sep <> [].
Proof.
  destruct s as [|c s]; simpl; [discriminate|].
  destruct (Ascii.eqb c sep); [discriminate|].
  destruct (strings.Split s sep); discriminate.
Qed.

Lemma Split_length s sep : 0 < List.length (strings.Split s sep).
Proof.
  pose proof (Split_not_nil s sep). destruct (strings.Split s sep); simpl; [congruence|lia].
Qed.

(** A string without the separator is returned whole. *)
Lemma Split_no_sep s sep : contains_byte sep s = false -> strings.Split s sep = [s].
Proof.
  induction s as [|c s IH]; simpl; [reflexivity|].
  intros H. apply orb_false_iff in H as [Hc Hs].
  rewrite Hc, (IH Hs). reflexivity.
Qed.

(** The first element of the split starts with [pfx] exactly when the whole
    string does, as long as the separator does not occur in [pfx]. *)
Lemma Split_head_prefix pfx sep : contains_byte sep pfx = false ->
  forall s, String.prefix pfx (hd EmptyString (strings.Split s sep)) = String.prefix pfx s.
Proof.
  induction pfx as [|a pfx IH]; intros Hp s.
  - destruct s, (hd EmptyString _); reflexivity.
  - simpl in Hp. apply orb_false_iff in Hp as [Ha Hp].
    induction s as [|c s IHs]; [reflexivity|].
    simpl strings.Split. destruct (Ascii.eqb c sep) eqn:Hc.
    + apply Ascii.eqb_eq in Hc as ->. simpl.
      destruct (ascii_dec a sep) as [->|_]; [|reflexivity].
      now rewrite Ascii.eqb_refl in Ha.
    + pose proof (Split_not_nil s sep) as Hn.
      destruct (strings.Split s sep) as [|q qs] eqn:E; [congruence|].
      simpl. destruct (ascii_dec a c); [|reflexivity].
      specialize (IH Hp s). rewrite E in IH. exact IH.
Qed.

Lemma prefix_app_sep pfx sep : contains_byte sep pfx = false ->
  forall local rest,
    String.prefix pfx (String.append local (String sep rest)) = String.prefix pfx local.
Proof.
  induction pfx as [|a pfx IH]; intros Hp local rest.
  - destruct local; reflexivity.
  - simpl in Hp. apply orb_false_iff in Hp as [Ha Hp].
    destruct local as [|c local]; simpl.
    + destruct (ascii_dec a sep) as [->|_]; [|reflexivity].
      now rewrite Ascii.eqb_refl in Ha.
    + destruct (ascii_dec a c); [|reflexivity]. now apply IH.
Qed.

(** The filter condition never panics, and it tests the prefix on the whole
    email, since the tag contains no ["@"]. *)
Lemma isTarget_eq email : isTarget email = Some (strings.HasPrefix email prefixTag).
Proof.
  unfold isTarget. pose proof (Split_length email "@") as Hl.
  apply Nat.ltb_lt in Hl. rewrite Hl.
  pose proof (Split_head_prefix prefixTag "@" eq_refl email) as Hh.
  destruct (strings.Split email "@") as [|q qs]; [discriminate|].
  simpl in *. unfold strings.HasPrefix. now rewrite <- Hh.
Qed.

(** ** Events of the service-account cleaner, the orchestrator and the driver *)

Section ProjectEvents.
Variable cfg : config.
Variable b : backend.

Lemma filterAccounts_emits projectID l acc :
  always (Forall (emits cfg projectID CServiceAccounts)) (filterAccounts l acc).
Proof.
  revert acc. induction l as [|sa l IH]; intros acc; simpl.
  - apply all_ret.
  - rewrite isTarget_eq. destruct (strings.HasPrefix (Email sa) prefixTag);
      all_events ltac:(apply IH); emits_done.
Qed.

Lemma deleteServiceAccounts_emits projectID :
  always (Forall (emits cfg projectID CServiceAccounts))
    (deleteServiceAccounts cfg b projectID).
Proof.
  unfold deleteServiceAccounts, deleteAccountTask.
  all_events ltac:(apply filterAccounts_emits); emits_done.
Qed.

Lemma logged_emits projectID k format (f : M (option error)) :
  always (Forall (emits cfg projectID k)) f ->
  always (Forall (emits cfg projectID k)) (logged format projectID f).
Proof. intros H. unfold logged. all_events ltac:(exact H); emits_done. Qed.

Lemma cleanupProject_events projectID :
  always (Forall (project_event cfg projectID)) (cleanupProject cfg b projectID).
Proof.
  assert (Hk : forall k (m : M unit), k <> CBuckets ->
             always (Forall (emits cfg projectID k)) m ->
             always (Forall (project_event cfg projectID)) m).
  { intros k m Hk. apply all_impl. intros e He. left. now exists k. }
  unfold cleanupProject. apply all_bind; [|intros _; apply all_bind; [|intros _]].
  - apply (Hk CInstances); [discriminate|].
    apply logged_emits, deleteVMInstances_emits.
  - apply all_par. repeat constructor.
    + apply (Hk CDisks); [discriminate|]. apply logged_emits, deleteDisks_emits.
    + apply (Hk CAddresses); [discriminate|]. apply logged_emits, releaseStaticIPs_emits.
    + apply (Hk CServiceAccounts); [discriminate|].
      apply logged_emits, deleteServiceAccounts_emits.
  - apply all_emit. now right.
Qed.

Lemma main_all (P : event -> Prop) :
  (forall f a, P (ELog f a)) ->
  (forall p, always (Forall P) (cleanupProject cfg b p)) ->
  always (Forall P) (main cfg b).
Proof.
  intros Hlog Hp.
  assert (Hl : forall l, always (Forall P) (projectsLoop cfg b l)).
  { induction l as [|p l IH]; simpl; all_events ltac:(first [apply Hp|apply IH]); auto. }
  unfold main. all_events ltac:(apply Hl); auto.
Qed.

End ProjectEvents.

(** ** Every function of [main.go] returns *)

Ltac returns_tac loops :=
  unfold log_Printf, log_Println, fmt_Printf;
  repeat first
    [ match goal with
      | |- returns (ret _) => apply returns_ret
      | |- returns (emit _) => apply returns_emit
      | |- returns (bind _ _) => apply returns_bind; [|intros ?]
      | |- returns (par (map _ _)) =>
          apply returns_par, Forall_map, Forall_forall; intros ? _
      | |- returns (match ?x with _ => _ end) => destruct x eqn:?
      end
    | loops ].

Section Returns.
Variable cfg : config.
Variable b : backend.

Lemma collectInstances_returns pairs l : returns (collectInstances pairs l).
Proof.
  assert (Hp : forall p l0, returns (collectPair p l0)).
  { induction p as [|i p IH]; intros l0; simpl; returns_tac ltac:(apply IH). }
  revert l. induction pairs as [|p pairs IH]; intros l; simpl;
    returns_tac ltac:(first [apply Hp|apply IH]).
Qed.

Lemma deleteVMInstances_returns p : returns (deleteVMInstances cfg b p).
Proof.
  unfold deleteVMInstances, deleteInstanceTask.
  returns_tac ltac:(apply collectInstances_returns).
Qed.

Lemma disksLoop_returns p pairs n : returns (disksLoop cfg b p pairs n).
Proof.
  assert (Hb : forall d k, returns (diskBody cfg b p d k)).
  { intros d k. unfold diskBody. returns_tac fail. }
  assert (Hp : forall l k, returns (disksPair cfg b p l k)).
  { induction l as [|d l IH]; intros k; simpl; returns_tac ltac:(first [apply Hb|apply IH]). }
  revert n. induction pairs as [|l pairs IH]; intros n; simpl;
    returns_tac ltac:(first [apply Hp|apply IH]).
Qed.

Lemma deleteDisks_returns p : returns (deleteDisks cfg b p).
Proof. unfold deleteDisks. returns_tac ltac:(apply disksLoop_returns). Qed.

Lemma addressesLoop_returns p pairs n : returns (addressesLoop cfg b p pairs n).
Proof.
  assert (Hb : forall d k, returns (addressBody cfg b p d k)).
  { intros d k. unfold addressBody. returns_tac fail. }
  assert (Hp : forall l k, returns (addressesPair cfg b p l k)).
  { induction l as [|d l IH]; intros k; simpl; returns_tac ltac:(first [apply Hb|apply IH]). }
  revert n. induction pairs as [|l pairs IH]; intros n; simpl;
    returns_tac ltac:(first [apply Hp|apply IH]).
Qed.

Lemma globalLoop_returns p l n : returns (globalLoop cfg b p l n).
Proof.
  assert (Hb : forall d k, returns (globalBody cfg b p d k)).
  { intros d k. unfold globalBody. returns_tac fail. }
  revert n. induction l as [|d l IH]; intros n; simpl;
    returns_tac ltac:(first [apply Hb|apply IH]).
Qed.

Lemma releaseStaticIPs_returns p : returns (releaseStaticIPs cfg b p).
Proof.
  unfold releaseStaticIPs.
  returns_tac ltac:(first [apply addressesLoop_returns|apply globalLoop_returns]).
Qed.

Lemma filterAccounts_returns l acc : returns (filterAccounts l acc).
Proof.
  revert acc. induction l as [|sa l IH]; intros acc; simpl; returns_tac ltac:(apply IH).
Qed.

Lemma deleteServiceAccounts_returns p : returns (deleteServiceAccounts cfg b p).
Proof.
  unfold deleteServiceAccounts, deleteAccountTask.
  returns_tac ltac:(apply filterAccounts_returns).
Qed.

Lemma logged_returns format p (f : M (option error)) :
  returns f -> returns (logged format p f).
Proof. intros H. unfold logged. returns_tac ltac:(exact H). Qed.

Lemma cleanupProject_returns p : returns (cleanupProject cfg b p).
Proof.
  unfold cleanupProject.
  apply returns_bind; [apply logged_returns, deleteVMInstances_returns|intros _].
  apply returns_bind; [|intros _; apply returns_emit].
  apply returns_par. repeat constructor; apply logged_returns.
  - apply deleteDisks_returns.
  - apply releaseStaticIPs_returns.
  - apply deleteServiceAccounts_returns.
Qed.

Lemma main_returns : returns (main cfg b).
Proof.
  assert (Hl : forall l, returns (projectsLoop cfg b l)).
  { induction l as [|p l IH]; simpl;
      returns_tac ltac:(first [apply cleanupProject_returns|apply IH]). }
  unfold main. returns_tac ltac:(apply Hl).
Qed.

End Returns.

(** * Dry run *)

Lemma emits_dry cfg p k e : dryRun cfg = true -> emits cfg p k e -> dry e.
Proof.
  intros Hd. destruct e; simpl; unfold dry; simpl; try tauto.
  - intros (H & _). congruence.
  - intros (H & _). congruence.
Qed.

Lemma project_event_dry cfg p e : dryRun cfg = true -> project_event cfg p e -> dry e.
Proof.
  intros Hd [(k & _ & He)| ->].
  - eapply emits_dry; eassumption.
  - split; reflexivity.
Qed.

(** C1: with the dry-run flag set, no run of any cleaner (instances, disks,
    regional and global addresses, service accounts), of the orchestrator or
    of the whole driver contains a mutating provider call, whatever the
    provider lists; every event is discovery or reporting, and the driver
    does run to its end. *)
Theorem dry_run_issues_no_mutating_call (cfg : config) (b : backend) :
  dryRun cfg = true ->
  (forall p, always (Forall dry) (deleteVMInstances cfg b p)) /\
  (forall p, always (Forall dry) (deleteDisks cfg b p)) /\
  (forall p, always (Forall dry) (releaseStaticIPs cfg b p)) /\
  (forall p, always (Forall dry) (deleteServiceAccounts cfg b p)) /\
  (forall p, always (Forall dry) (cleanupProject cfg b p)) /\
  always (Forall dry) (main cfg b) /\
  always (fun t => deletes_of t = []) (main cfg b) /\
  returns (main cfg b).
Proof.
  intros Hd.
  assert (Hp : forall p, always (Forall dry) (cleanupProject cfg b p)).
  { intros p. eapply all_impl; [|apply cleanupProject_events].
    intros e. now apply project_event_dry. }
  assert (Hm : always (Forall dry) (main cfg b)).
  { apply main_all; [|exact Hp]. intros f a. split; reflexivity. }
  repeat split.
  - intros p. eapply all_impl; [|apply deleteVMInstances_emits].
    intros e. now apply emits_dry.
  - intros p. eapply all_impl; [|apply deleteDisks_emits].
    intros e. now apply emits_dry.
  - intros p. eapply all_impl; [|apply releaseStaticIPs_emits].
    intros e. now apply emits_dry.
  - intros p. eapply all_impl; [|apply deleteServiceAccounts_emits].
    intros e. now apply emits_dry.
  - exact Hp.
  - exact Hm.
  - intros t a H. specialize (Hm t a H). clear H.
    induction Hm as [|e t [He _] _ IH]; [reflexivity|].
    destruct e; simpl in *; try assumption. discriminate.
  - apply main_returns.
Qed.

Lemma dry_run_issues_no_mutating_call_witness :
  dryRun dryConfig = true /\
  always (Forall dry) (main dryConfig scenarioBackend) /\
  returns (main dryConfig scenarioBackend).
Proof.
  split; [reflexivity|].
  pose proof (dry_run_issues_no_mutating_call dryConfig scenarioBackend eq_refl) as H.
  split; apply H.
Defined.

(** * Buckets *)

Lemma emits_not_storage cfg p k e : k <> CBuckets -> emits cfg p k e -> is_storage e = false.
Proof.
  intros Hk. destruct e as [| |c|c|r|r|r|]; simpl; try reflexivity.
  - destruct c; simpl; intros <-; congruence.
  - destruct c; simpl; intros <-; congruence.
  - destruct r; simpl; intros <-; congruence.
  - destruct r; simpl; intros (_ & <- & _); congruence.
  - destruct r; simpl; intros (_ & <- & _); congruence.
Qed.

(** The deletion path exists: called directly in live mode, [deleteBuckets]
    empties and deletes the bucket of the scenario. *)
Lemma deleteBuckets_deletes :
  exists t, In (t, None) (deleteBuckets liveConfig scenarioBackend "p") /\
            deletes_of t = [DeleteObject "bkt" "obj"; DeleteBucket "bkt"].
Proof.
  exists (first_run (deleteBuckets liveConfig scenarioBackend "p")).
  vm_compute. split; [left|]; reflexivity.
Qed.

(** C2: in every run of [cleanupProject], for every project, provider state
    and value of the dry-run flag, no storage call occurs (no storage client,
    no bucket or object listing, no bucket or object deletion), and the run
    ends with the note that buckets must be deleted manually. *)
Theorem orchestrator_never_deletes_buckets (cfg : config) (b : backend) (p : string)
    (t : trace) :
  In (t, tt) (cleanupProject cfg b p) ->
  Forall (fun e => is_storage e = false) t /\
  (forall r, In (EDelete r) t -> req_cleaner r <> CBuckets) /\
  exists t', t = t' ++ [EPrintf bucketsNote [AStr p]].
Proof.
  intros H.
  assert (Hs : Forall (fun e => is_storage e = false) t).
  { eapply Forall_impl; [|eapply cleanupProject_events; exact H].
    intros e [(k & Hk & He)| ->]; [|reflexivity].
    eapply emits_not_storage; eassumption. }
  split; [exact Hs|]. split.
  - intros r Hr. rewrite Forall_forall in Hs. specialize (Hs _ Hr).
    destruct r; simpl in *; congruence.
  - unfold cleanupProject in H.
    apply in_bind in H as (t1 & [] & t2 & _ & H & ->).
    apply in_bind in H as (t3 & [] & t4 & _ & H & ->).
    apply in_emit in H as ->.
    exists (t1 ++ t3). now rewrite app_assoc.
Qed.

(** * Sequential runs *)

Lemma bind_run {A B} (m : M A) (f : A -> M B) t a t' a' :
  m = [(t, a)] -> f a = [(t', a')] -> bind m f = [(t ++ t', a')].
Proof. intros -> H. unfold bind; simpl. rewrite H. reflexivity. Qed.

(** Evaluates a sequential computation whose loops have been rewritten to
    their single run. *)
Ltac run_simpl :=
  unfold log_Printf, log_Println, fmt_Printf, bind, emit, ret;
  repeat progress (simpl; rewrite ?app_nil_r, <- ?app_assoc).

Lemma calls_of_app t1 t2 : calls_of (t1 ++ t2) = calls_of t1 ++ calls_of t2.
Proof.
  induction t1 as [|e t1 IH]; [reflexivity|].
  destruct e; simpl; rewrite ?IH; reflexivity.
Qed.

Lemma deletes_of_app t1 t2 : deletes_of (t1 ++ t2) = deletes_of t1 ++ deletes_of t2.
Proof.
  induction t1 as [|e t1 IH]; [reflexivity|].
  destruct e; simpl; rewrite ?IH; reflexivity.
Qed.

Lemma deletes_of_calls t : deletes_of (calls_of t) = deletes_of t.
Proof. induction t as [|e t IH]; [reflexivity|]. destruct e; simpl; congruence. Qed.

Lemma calls_of_flat_map {A} (f : A -> trace) l :
  calls_of (flat_map f l) = flat_map (fun x => calls_of (f x)) l.
Proof. induction l as [|x l IH]; simpl; [reflexivity|]. now rewrite calls_of_app, IH. Qed.

Lemma deletes_of_call_and_wait {A} b (f : A -> delete_req) l :
  deletes_of (flat_map (fun x => call_and_wait b (f x)) l) = map f l.
Proof.
  induction l as [|x l IH]; [reflexivity|]. cbn [flat_map map].
  rewrite deletes_of_app, IH. unfold call_and_wait.
  destruct (deleteResult b (f x)); reflexivity.
Qed.

Lemma flat_map_filter {A B} (c : A -> bool) (f g : A -> list B) l :
  (forall x, f x = if c x then g x else []) ->
  flat_map f l = flat_map g (filter c l).
Proof.
  intros H. induction l as [|x l IH]; simpl; [reflexivity|].
  rewrite H, IH. destruct (c x); reflexivity.
Qed.

Lemma unattached_iff d : unattached d = true <-> DiskUsers d = [].
Proof.
  unfold unattached. destruct (DiskUsers d); simpl; split; congruence.
Qed.

Section DiskRuns.
Variable cfg : config.
Variable b : backend.
Variable p : string.

(** What one iteration of the disk loop does. *)
Let item (d : Disk) : trace := first_run (diskBody cfg b p d 0).

Lemma diskBody_run d n :
  diskBody cfg b p d n = [(item d, if unattached d then S n else n)].
Proof.
  unfold item, diskBody, unattached.
  destruct (0 <? List.length (DiskUsers d))%nat; simpl negb; cbv iota.
  - reflexivity.
  - destruct (dryRun cfg); simpl negb; cbv iota; [reflexivity|].
    unfold log_Printf.
    destruct (deleteResult b _); [reflexivity|].
    destruct (waitResult b _); reflexivity.
Qed.

Lemma disksPair_run l n :
  disksPair cfg b p l n =
  [(flat_map item l, n + List.length (filter unattached l))].
Proof.
  revert n. induction l as [|d l IH]; intros n; simpl.
  - now rewrite Nat.add_0_r.
  - erewrite bind_run; [|apply diskBody_run|apply IH].
    destruct (unattached d); simpl; repeat f_equal; lia.
Qed.

Lemma disksLoop_run pairs n :
  disksLoop cfg b p pairs n =
  [(flat_map item (List.concat pairs),
    n + List.length (filter unattached (List.concat pairs)))].
Proof.
  revert n. induction pairs as [|l pairs IH]; intros n; simpl.
  - now rewrite Nat.add_0_r.
  - erewrite bind_run; [|apply disksPair_run|apply IH].
    now rewrite flat_map_app, filter_app, length_app, Nat.add_assoc.
Qed.

(** The calls of one iteration. *)
Lemma item_calls d :
  calls_of (item d) =
  if unattached d && negb (dryRun cfg) then call_and_wait b (diskRequest p d) else [].
Proof.
  unfold item, diskBody, unattached, call_and_wait, diskRequest.
  destruct (0 <? List.length (DiskUsers d))%nat; simpl negb; cbv iota; [reflexivity|].
  destruct (dryRun cfg); simpl negb; cbv iota; [reflexivity|].
  unfold log_Printf. simpl andb. cbv iota.
  destruct (deleteResult b _); [reflexivity|].
  destruct (waitResult b _); reflexivity.
Qed.

(** An attached disk is skipped: a log line, nothing else. *)
Lemma item_attached d :
  unattached d = false ->
  item d = [ELog "  Skipping disk %s (attached to instances)" [AStr (DiskName d)]].
Proof.
  unfold item, diskBody, unattached. intros H. apply negb_false_iff in H.
  rewrite H. reflexivity.
Qed.

(** The whole run of the disk cleaner once its client exists. *)
Lemma deleteDisks_run :
  newClient b DisksRESTClient p = None ->
  let n := List.length (filter unattached (listed_disks b p)) in
  deleteDisks cfg b p =
  [([ELog "[%s] Checking disks..." [AStr p]; ENewClient DisksRESTClient;
     EList (AggregatedListDisksRequest p)]
    ++ flat_map item (listed_disks b p)
    ++ match final (disks b p) with
       | Some _ => []
       | None =>
           if (n =? 0)%nat then [ELog "[%s] No unattached disks found" [AStr p]]
           else if dryRun cfg then
             [ELog "[%s] Would delete %d disks" [AStr p; AInt (Z.of_nat n)]]
           else []
       end
    ++ [EClose DisksRESTClient],
    match final (disks b p) with
    | Some err => Some (Errorf "error listing disks: %w" err)
    | None => None
    end)].
Proof.
  intros Hc. unfold deleteDisks, listed_disks. rewrite Hc, disksLoop_run.
  set (all := List.concat (items (disks b p))).
  destruct (final (disks b p)) as [err|] eqn:Hf; [run_simpl; reflexivity|].
  simpl. destruct (filter unattached all) as [|d0 l0] eqn:Hn; [run_simpl; reflexivity|].
  destruct (dryRun cfg) eqn:Hd; run_simpl; reflexivity.
Qed.

End DiskRuns.

Section DiskClaims.
Variable cfg : config.
Variable b : backend.
Variable p : string.

Lemma deleteDisks_no_client err :
  newClient b DisksRESTClient p = Some err ->
  deleteDisks cfg b p =
  [([ELog "[%s] Checking disks..." [AStr p]; ENewClient DisksRESTClient],
    Some (Errorf "failed to create disks client: %w" err))].
Proof. intros Hc. unfold deleteDisks. rewrite Hc. reflexivity. Qed.

(** No iteration of the disk loop prints the final report. *)
Lemma disk_item_no_report d n :
  ~ In (ELog "[%s] Would delete %d disks" [AStr p; AInt n])
       (first_run (diskBody cfg b p d 0)).
Proof.
  unfold diskBody, log_Printf.
  destruct (0 <? List.length (DiskUsers d))%nat; [simpl; intuition discriminate|].
  destruct (negb (dryRun cfg)); [|simpl; intuition discriminate].
  destruct (deleteResult b _); [simpl; intuition discriminate|].
  destruct (waitResult b _); simpl; intuition discriminate.
Qed.

(** The delete calls and waits of a run of the disk cleaner: one delete
    per unattached disk, in listing order, each followed by its wait. *)
Lemma deleteDisks_calls t r :
  In (t, r) (deleteDisks cfg b p) ->
  calls_of t =
  match newClient b DisksRESTClient p with
  | Some _ => []
  | None =>
      if dryRun cfg then []
      else flat_map (fun d => call_and_wait b (diskRequest p d))
             (filter unattached (listed_disks b p))
  end.
Proof.
  intros H. destruct (newClient b DisksRESTClient p) as [err|] eqn:Hc.
  - rewrite (deleteDisks_no_client err Hc) in H. destruct H as [E|[]].
    injection E as <- _. reflexivity.
  - rewrite (deleteDisks_run cfg b p Hc) in H.
    destruct H as [H|[]]. injection H as <- _.
    cbn [calls_of]. rewrite !calls_of_app, calls_of_flat_map.
    replace (calls_of (match final (disks b p) with Some _ => [] | None => _ end))
      with (@nil event)
      by (destruct (final (disks b p)); [|destruct (_ =? _)%nat; [|destruct (dryRun cfg)]];
          reflexivity).
    simpl. rewrite app_nil_r.
    destruct (dryRun cfg) eqn:Hd.
    + induction (listed_disks b p) as [|d l IH]; [reflexivity|]. simpl.
      rewrite item_calls, Hd, andb_false_r. exact IH.
    + apply flat_map_filter. intros d. rewrite item_calls, Hd, andb_true_r. reflexivity.
Qed.

Lemma deleteDisks_deletes t r :
  In (t, r) (deleteDisks cfg b p) ->
  deletes_of t =
  match newClient b DisksRESTClient p with
  | Some _ => []
  | None =>
      if dryRun cfg then []
      else map (diskRequest p) (filter unattached (listed_disks b p))
  end.
Proof.
  intros H. rewrite <- deletes_of_calls, (deleteDisks_calls t r H).
  destruct (newClient b DisksRESTClient p); [reflexivity|].
  destruct (dryRun cfg); [reflexivity|]. apply deletes_of_call_and_wait.
Qed.

Lemma deleteDisks_count t r n :
  In (t, r) (deleteDisks cfg b p) ->
  In (ELog "[%s] Would delete %d disks" [AStr p; AInt n]) t ->
  n = Z.of_nat (List.length (filter unattached (listed_disks b p))).
Proof.
  intros H Hin. destruct (newClient b DisksRESTClient p) as [err|] eqn:Hc.
  - rewrite (deleteDisks_no_client err Hc) in H. destruct H as [E|[]].
    injection E as <- _. simpl in Hin. intuition discriminate.
  - rewrite (deleteDisks_run cfg b p Hc) in H.
    destruct H as [H|[]]. injection H as <- _.
    destruct Hin as [E|[E|[E|Hin]]]; try discriminate.
    apply in_app_or in Hin as [Hin|Hin].
    { apply in_flat_map in Hin as (d & _ & Hd). now apply disk_item_no_report in Hd. }
    apply in_app_or in Hin as [Hin|Hin]; [|simpl in Hin; intuition discriminate].
    destruct (final (disks b p)); [destruct Hin|].
    destruct (_ =? _)%nat; [simpl in Hin; intuition discriminate|].
    destruct (dryRun cfg); [|destruct Hin].
    destruct Hin as [E|[]]. now injection E.
Qed.

End DiskClaims.

Lemma bind_emit {B} e (f : unit -> M B) :
  bind (emit e) f = map (fun tb => (e :: fst tb, snd tb)) (f tt).
Proof. unfold bind, emit; simpl. now rewrite app_nil_r. Qed.

Lemma bind_single {A B} t (a : A) (f : A -> M B) :
  bind [(t, a)] f = map (fun tb => (t ++ fst tb, snd tb)) (f a).
Proof. unfold bind; simpl. now rewrite app_nil_r. Qed.

Ltac run_step := first [rewrite bind_emit | rewrite bind_single]; cbv beta.

Section AddressRuns.
Variable cfg : config.
Variable b : backend.
Variable p : string.

(** What one iteration of the regional and of the global loop does. *)
Let item (a : Address) : trace := first_run (addressBody cfg b p a 0).
Let gitem (a : Address) : trace := first_run (globalBody cfg b p a 0).

Lemma addressBody_run a n :
  addressBody cfg b p a n = [(item a, if in_use a then n else S n)].
Proof.
  unfold item, addressBody, in_use.
  destruct (String.eqb (AddressStatus a) "IN_USE"); [reflexivity|].
  destruct (dryRun cfg); simpl negb; cbv iota; [reflexivity|].
  unfold log_Printf.
  destruct (deleteResult b _); [reflexivity|].
  destruct (waitResult b _); reflexivity.
Qed.

Lemma globalBody_run a n :
  globalBody cfg b p a n = [(gitem a, if in_use a then n else S n)].
Proof.
  unfold gitem, globalBody, in_use.
  destruct (String.eqb (AddressStatus a) "IN_USE"); [reflexivity|].
  destruct (dryRun cfg); simpl negb; cbv iota; [reflexivity|].
  unfold log_Printf.
  destruct (deleteResult b _); [reflexivity|].
  destruct (waitResult b _); reflexivity.
Qed.

Lemma addressesPair_run l n :
  addressesPair cfg b p l n = [(flat_map item l, n + List.length (filter releasable l))].
Proof.
  revert n. induction l as [|a l IH]; intros n; simpl.
  - now rewrite Nat.add_0_r.
  - erewrite bind_run; [|apply addressBody_run|apply IH].
    unfold releasable at 2. destruct (in_use a); simpl; repeat f_equal; lia.
Qed.

Lemma addressesLoop_run pairs n :
  addressesLoop cfg b p pairs n =
  [(flat_map item (List.concat pairs),
    n + List.length (filter releasable (List.concat pairs)))].
Proof.
  revert n. induction pairs as [|l pairs IH]; intros n; simpl.
  - now rewrite Nat.add_0_r.
  - erewrite bind_run; [|apply addressesPair_run|apply IH].
    now rewrite flat_map_app, filter_app, length_app, Nat.add_assoc.
Qed.

Lemma globalLoop_run l n :
  globalLoop cfg b p l n = [(flat_map gitem l, n + List.length (filter releasable l))].
Proof.
  revert n. induction l as [|a l IH]; intros n; simpl.
  - now rewrite Nat.add_0_r.
  - erewrite bind_run; [|apply globalBody_run|apply IH].
    unfold releasable at 2. destruct (in_use a); simpl; repeat f_equal; lia.
Qed.

Lemma address_item_calls a :
  calls_of (item a) =
  if releasable a && negb (dryRun cfg) then call_and_wait b (addressRequest p a) else [].
Proof.
  unfold item, releasable, addressBody, in_use, call_and_wait, addressRequest.
  destruct (String.eqb (AddressStatus a) "IN_USE"); [reflexivity|].
  destruct (dryRun cfg); simpl negb; cbv iota; [reflexivity|].
  unfold log_Printf. simpl andb. cbv iota.
  destruct (deleteResult b _); [reflexivity|].
  destruct (waitResult b _); reflexivity.
Qed.

Lemma global_item_calls a :
  calls_of (gitem a) =
  if releasable a && negb (dryRun cfg) then call_and_wait b (globalRequest p a) else [].
Proof.
  unfold gitem, releasable, globalBody, in_use, call_and_wait, globalRequest.
  destruct (String.eqb (AddressStatus a) "IN_USE"); [reflexivity|].
  destruct (dryRun cfg); simpl negb; cbv iota; [reflexivity|].
  unfold log_Printf. simpl andb. cbv iota.
  destruct (deleteResult b _); [reflexivity|].
  destruct (waitResult b _); reflexivity.
Qed.

(** The part of [releaseStaticIPs] that runs once the global client
    exists. *)
Let globalPart (n : nat) : trace :=
  [EList (ListGlobalAddressesRequest p)]
  ++ flat_map gitem (listed_globals b p)
  ++ match final (globalAddresses b p) with
     | Some err => [ELog "Error listing global addresses: %v" [AErr err]]
     | None => []
     end
  ++ (if (n =? 0)%nat then [ELog "[%s] No unused static IPs found" [AStr p]]
      else if dryRun cfg then
        [ELog "[%s] Would release %d static IPs" [AStr p; AInt (Z.of_nat n)]]
      else [])
  ++ [EClose GlobalAddressesRESTClient].

(** The whole run of the address cleaner once its first client exists. *)
Lemma releaseStaticIPs_run :
  newClient b AddressesRESTClient p = None ->
  let n := List.length (filter releasable (listed_addresses b p)) +
           List.length (filter releasable (listed_globals b p)) in
  releaseStaticIPs cfg b p =
  [([ELog "[%s] Checking static IP addresses..." [AStr p];
     ENewClient AddressesRESTClient;
     EList (AggregatedListAddressesRequest p)]
    ++ flat_map item (listed_addresses b p)
    ++ match final (addresses b p) with
       | Some _ => []
       | None =>
           ENewClient GlobalAddressesRESTClient
           :: match newClient b GlobalAddressesRESTClient p with
              | Some _ => []
              | None => globalPart n
              end
       end
    ++ [EClose AddressesRESTClient],
    match final (addresses b p) with
    | Some err => Some (Errorf "error listing addresses: %w" err)
    | None =>
        match newClient b GlobalAddressesRESTClient p with
        | Some err => Some (Errorf "failed to create global addresses client: %w" err)
        | None => None
        end
    end)].
Proof.
  intros Hc. unfold releaseStaticIPs, listed_addresses, listed_globals, globalPart.
  rewrite Hc. unfold log_Printf. repeat run_step. rewrite addressesLoop_run. run_step.
  set (all := List.concat (items (addresses b p))).
  destruct (final (addresses b p)) as [err|] eqn:Hf; [run_simpl; reflexivity|].
  run_step.
  destruct (newClient b GlobalAddressesRESTClient p) as [err|] eqn:Hg;
    [run_simpl; reflexivity|].
  run_step. rewrite globalLoop_run. simpl (0 + _).
  set (n := List.length (filter releasable all) + _).
  destruct (final (globalAddresses b p)) as [err|] eqn:Hgf;
    destruct n as [|k]; simpl Nat.eqb; cbv iota;
    try (destruct (dryRun cfg) eqn:Hd); run_simpl; reflexivity.
Qed.

End AddressRuns.

Section AddressClaims.
Variable cfg : config.
Variable b : backend.
Variable p : string.

Lemma releaseStaticIPs_no_client err :
  newClient b AddressesRESTClient p = Some err ->
  releaseStaticIPs cfg b p =
  [([ELog "[%s] Checking static IP addresses..." [AStr p]; ENewClient AddressesRESTClient],
    Some (Errorf "failed to create addresses client: %w" err))].
Proof. intros Hc. unfold releaseStaticIPs. rewrite Hc. reflexivity. Qed.

Lemma address_item_no_report a n :
  ~ In (ELog "[%s] Would release %d static IPs" [AStr p; AInt n])
       (first_run (addressBody cfg b p a 0)).
Proof.
  unfold addressBody, log_Printf.
  destruct (String.eqb (AddressStatus a) "IN_USE"); [simpl; intuition discriminate|].
  destruct (negb (dryRun cfg)); [|simpl; intuition discriminate].
  destruct (deleteResult b _); [simpl; intuition discriminate|].
  destruct (waitResult b _); simpl; intuition discriminate.
Qed.

Lemma global_item_no_report a n :
  ~ In (ELog "[%s] Would release %d static IPs" [AStr p; AInt n])
       (first_run (globalBody cfg b p a 0)).
Proof.
  unfold globalBody, log_Printf.
  destruct (String.eqb (AddressStatus a) "IN_USE"); [simpl; intuition discriminate|].
  destruct (negb (dryRun cfg)); [|simpl; intuition discriminate].
  destruct (deleteResult b _); [simpl; intuition discriminate|].
  destruct (waitResult b _); simpl; intuition discriminate.
Qed.

(** The delete calls and waits of a run of the address cleaner: one delete
    per address not in use, regional ones first, each followed by its
    wait. *)
Lemma releaseStaticIPs_calls t r :
  In (t, r) (releaseStaticIPs cfg b p) ->
  calls_of t =
  match newClient b AddressesRESTClient p with
  | Some _ => []
  | None =>
      if dryRun cfg then []
      else flat_map (fun a => call_and_wait b (addressRequest p a))
             (filter releasable (listed_addresses b p)) ++ global_calls b p
  end.
Proof.
  intros H. destruct (newClient b AddressesRESTClient p) as [err|] eqn:Hc.
  - rewrite (releaseStaticIPs_no_client err Hc) in H. destruct H as [E|[]].
    injection E as <- _. reflexivity.
  - rewrite (releaseStaticIPs_run cfg b p Hc) in H.
    destruct H as [H|[]]. injection H as <- _.
    cbn [calls_of]. rewrite !calls_of_app, calls_of_flat_map. cbn [calls_of].
    rewrite app_nil_r. unfold global_calls.
    assert (Hr : forall l,
               flat_map (fun a => calls_of (first_run (addressBody cfg b p a 0))) l =
               if dryRun cfg then []
               else flat_map (fun a => call_and_wait b (addressRequest p a))
                      (filter releasable l)).
    { intros l. destruct (dryRun cfg) eqn:Hd.
      - induction l as [|a l IH]; [reflexivity|]. simpl.
        rewrite address_item_calls, Hd, andb_false_r. exact IH.
      - apply flat_map_filter. intros a.
        rewrite address_item_calls, Hd, andb_true_r. reflexivity. }
    assert (Hg : forall l,
               flat_map (fun a => calls_of (first_run (globalBody cfg b p a 0))) l =
               if dryRun cfg then []
               else flat_map (fun a => call_and_wait b (globalRequest p a))
                      (filter releasable l)).
    { intros l. destruct (dryRun cfg) eqn:Hd.
      - induction l as [|a l IH]; [reflexivity|]. simpl.
        rewrite global_item_calls, Hd, andb_false_r. exact IH.
      - apply flat_map_filter. intros a.
        rewrite global_item_calls, Hd, andb_true_r. reflexivity. }
    rewrite Hr.
    destruct (final (addresses b p)) as [e1|];
      [destruct (dryRun cfg); now rewrite ?app_nil_r|].
    cbn [calls_of].
    destruct (newClient b GlobalAddressesRESTClient p) as [e2|];
      [destruct (dryRun cfg); now rewrite ?app_nil_r|].
    cbn [calls_of app]. rewrite !calls_of_app, calls_of_flat_map, Hg.
    replace (calls_of (match final (globalAddresses b p) with Some _ => _ | None => _ end))
      with (@nil event) by (destruct (final (globalAddresses b p)); reflexivity).
    replace (calls_of (if (_ =? 0)%nat then _ else _)) with (@nil event)
      by (destruct (_ =? 0)%nat; [|destruct (dryRun cfg)]; reflexivity).
    cbn [calls_of app]. rewrite app_nil_r. destruct (dryRun cfg); reflexivity.
Qed.

Lemma releaseStaticIPs_count t r n :
  In (t, r) (releaseStaticIPs cfg b p) ->
  In (ELog "[%s] Would release %d static IPs" [AStr p; AInt n]) t ->
  n = Z.of_nat (List.length (filter releasable (listed_addresses b p)) +
                List.length (filter releasable (listed_globals b p))).
Proof.
  intros H Hin. destruct (newClient b AddressesRESTClient p) as [err|] eqn:Hc.
  - rewrite (releaseStaticIPs_no_client err Hc) in H. destruct H as [E|[]].
    injection E as <- _. simpl in Hin. intuition discriminate.
  - rewrite (releaseStaticIPs_run cfg b p Hc) in H.
    destruct H as [H|[]]. injection H as <- _.
    destruct Hin as [E|[E|[E|Hin]]]; try discriminate.
    apply in_app_or in Hin as [Hin|Hin].
    { apply in_flat_map in Hin as (a & _ & Ha). now apply address_item_no_report in Ha. }
    apply in_app_or in Hin as [Hin|Hin]; [|simpl in Hin; intuition discriminate].
    destruct (final (addresses b p)); [destruct Hin|].
    destruct Hin as [E|Hin]; [discriminate|].
    destruct (newClient b GlobalAddressesRESTClient p); [destruct Hin|].
    destruct Hin as [E|Hin]; [discriminate|].
    apply in_app_or in Hin as [Hin|Hin].
    { apply in_flat_map in Hin as (a & _ & Ha). now apply global_item_no_report in Ha. }
    apply in_app_or in Hin as [Hin|Hin].
    { destruct (final (globalAddresses b p)); simpl in Hin; intuition discriminate. }
    apply in_app_or in Hin as [Hin|Hin]; [|simpl in Hin; intuition discriminate].
    destruct (_ =? 0)%nat; [simpl in Hin; intuition discriminate|].
    destruct (dryRun cfg); [|destruct Hin].
    destruct Hin as [E|[]]. now injection E.
Qed.

End AddressClaims.

(** * Liveness predicates *)

Lemma In_deletes_of_call_and_wait {A} b (f : A -> delete_req) l q :
  In q (deletes_of (flat_map (fun x => call_and_wait b (f x)) l)) ->
  exists x, In x l /\ q = f x.
Proof.
  rewrite deletes_of_call_and_wait. intros H. apply in_map_iff in H as (x & <- & H). eauto.
Qed.

(** C3: a disk with at least one attachment reference is skipped by the
    loop body (one log line, the count unchanged, no call), whatever its size
    and zone; every delete call of a run of the disk cleaner names an
    unattached listed disk, in live mode exactly the unattached listed disks
    are deleted, and the reported count is the number of unattached listed
    disks. *)
Theorem attached_disk_is_never_a_candidate (cfg : config) (b : backend) (p : string) :
  (forall d n, DiskUsers d <> [] ->
     diskBody cfg b p d n =
     [([ELog "  Skipping disk %s (attached to instances)" [AStr (DiskName d)]], n)]) /\
  (forall t r, In (t, r) (deleteDisks cfg b p) ->
     (forall q, In q (deletes_of t) ->
        exists d, In d (listed_disks b p) /\ DiskUsers d = [] /\ q = diskRequest p d) /\
     (dryRun cfg = false -> newClient b DisksRESTClient p = None ->
      deletes_of t = map (diskRequest p) (filter unattached (listed_disks b p))) /\
     (forall n, In (ELog "[%s] Would delete %d disks" [AStr p; AInt n]) t ->
        n = Z.of_nat (List.length (filter unattached (listed_disks b p))))) /\
  (forall d, unattached d = true <-> DiskUsers d = []).
Proof.
  split; [|split].
  - intros d n Hu. rewrite diskBody_run.
    assert (Ha : unattached d = false).
    { destruct (unattached d) eqn:E; [|reflexivity]. now apply unattached_iff in E. }
    rewrite Ha, (item_attached cfg b p d Ha). reflexivity.
  - intros t r H. split; [|split].
    + intros q Hq. rewrite (deleteDisks_deletes cfg b p t r H) in Hq.
      destruct (newClient b DisksRESTClient p); [destruct Hq|].
      destruct (dryRun cfg); [destruct Hq|].
      apply in_map_iff in Hq as (d & <- & Hd). apply filter_In in Hd as [Hd Hu].
      exists d. repeat split; [assumption|now apply unattached_iff].
    + intros Hd Hc. rewrite (deleteDisks_deletes cfg b p t r H), Hc, Hd. reflexivity.
    + intros n. apply (deleteDisks_count cfg b p t r n H).
  - apply unattached_iff.
Qed.

Lemma attached_disk_is_never_a_candidate_witness :
  DiskUsers attachedDisk <> [] /\
  diskBody liveConfig mixedBackend "p" attachedDisk 0 =
    [([ELog "  Skipping disk %s (attached to instances)" [AStr "disk-2"]], 0)] /\
  In (mixedDiskRun, None) (deleteDisks liveConfig mixedBackend "p") /\
  deletes_of mixedDiskRun = [DeleteDiskRequest "p" "us-central1-a" "disk-1"].
Proof.
  destruct (attached_disk_is_never_a_candidate liveConfig mixedBackend "p") as (H1 & H2 & _).
  split; [discriminate|]. split; [apply (H1 attachedDisk 0); discriminate|].
  assert (Hin : In (mixedDiskRun, None) (deleteDisks liveConfig mixedBackend "p"))
    by (vm_compute; left; reflexivity).
  split; [exact Hin|].
  destruct (H2 mixedDiskRun None Hin) as (_ & H3 & _).
  rewrite H3; reflexivity.
Defined.

(** C4: an address whose status is ["IN_USE"] is skipped by the regional and
    by the global loop body (one log line, the count unchanged, no call);
    every delete call of a run of the address cleaner names a listed
    regional or global address whose status is not ["IN_USE"]; and the
    reported total is the number of such regional addresses plus the number
    of such global addresses. *)
Theorem address_in_use_is_never_a_candidate (cfg : config) (b : backend) (p : string) :
  (forall a n, AddressStatus a = "IN_USE" ->
     addressBody cfg b p a n =
       [([ELog "  Skipping address %s (in use)" [AStr (AddressName a)]], n)] /\
     globalBody cfg b p a n =
       [([ELog "  Skipping global address %s (in use)" [AStr (AddressName a)]], n)]) /\
  (forall t r, In (t, r) (releaseStaticIPs cfg b p) ->
     (forall q, In q (deletes_of t) ->
        exists a, AddressStatus a <> "IN_USE" /\
                  ((In a (listed_addresses b p) /\ q = addressRequest p a) \/
                   (In a (listed_globals b p) /\ q = globalRequest p a))) /\
     (forall n, In (ELog "[%s] Would release %d static IPs" [AStr p; AInt n]) t ->
        n = Z.of_nat (List.length (filter releasable (listed_addresses b p)) +
                      List.length (filter releasable (listed_globals b p))))).
Proof.
  split.
  - intros a n Hs. unfold addressBody, globalBody. rewrite Hs. split; reflexivity.
  - intros t r H. split.
    + intros q Hq. rewrite <- deletes_of_calls, (releaseStaticIPs_calls cfg b p t r H) in Hq.
      destruct (newClient b AddressesRESTClient p); [destruct Hq|].
      destruct (dryRun cfg); [destruct Hq|].
      rewrite deletes_of_app in Hq. apply in_app_or in Hq as [Hq|Hq].
      * apply In_deletes_of_call_and_wait in Hq as (a & Ha & ->).
        apply filter_In in Ha as [Ha Hf]. exists a. split; [|now left].
        unfold releasable, in_use in Hf. apply negb_true_iff in Hf.
        now apply String.eqb_neq in Hf.
      * unfold global_calls in Hq.
        destruct (final (addresses b p)); [destruct Hq|].
        destruct (newClient b GlobalAddressesRESTClient p); [destruct Hq|].
        apply In_deletes_of_call_and_wait in Hq as (a & Ha & ->).
        apply filter_In in Ha as [Ha Hf]. exists a. split; [|now right].
        unfold releasable, in_use in Hf. apply negb_true_iff in Hf.
        now apply String.eqb_neq in Hf.
    + intros n. apply (releaseStaticIPs_count cfg b p t r n H).
Qed.

Lemma address_in_use_is_never_a_candidate_witness :
  AddressStatus usedAddress = "IN_USE" /\
  addressBody dryConfig mixedBackend "p" usedAddress 0 =
    [([ELog "  Skipping address %s (in use)" [AStr "ip-2"]], 0)] /\
  In (mixedAddressDryRun, None) (releaseStaticIPs dryConfig mixedBackend "p") /\
  In (ELog "[%s] Would release %d static IPs" [AStr "p"; AInt 1]) mixedAddressDryRun /\
  1%Z = Z.of_nat (List.length (filter releasable (listed_addresses mixedBackend "p")) +
                  List.length (filter releasable (listed_globals mixedBackend "p"))).
Proof.
  destruct (address_in_use_is_never_a_candidate dryConfig mixedBackend "p") as (H1 & H2).
  split; [reflexivity|]. split; [apply (H1 usedAddress 0 eq_refl)|].
  assert (Hrun : In (mixedAddressDryRun, None) (releaseStaticIPs dryConfig mixedBackend "p"))
    by (vm_compute; left; reflexivity).
  assert (Hin : In (ELog "[%s] Would release %d static IPs" [AStr "p"; AInt 1])
                   mixedAddressDryRun)
    by (vm_compute; tauto).
  split; [exact Hrun|]. split; [exact Hin|].
  destruct (H2 mixedAddressDryRun None Hrun) as (_ & H3).
  apply (H3 1%Z Hin).
Defined.

(** * Parallel runs *)

Lemma in_emit_bind {B} e (f : unit -> M B) t r :
  In (t, r) (bind (emit e) f) <-> exists t', t = e :: t' /\ In (t', r) (f tt).
Proof.
  rewrite in_bind. split.
  - intros (t1 & [] & t2 & H1 & H2 & ->). apply in_emit in H1 as ->. now exists t2.
  - intros (t' & -> & H). exists [e], tt, t'. repeat split; [now apply in_emit|assumption].
Qed.

Lemma deletes_of_Permutation t t' :
  Permutation t t' -> Permutation (deletes_of t) (deletes_of t').
Proof.
  induction 1 as [|e t t' _ IH|e e' t|t t' t'' _ IH1 _ IH2].
  - constructor.
  - destruct e; simpl; auto.
  - destruct e, e'; simpl; try reflexivity. apply perm_swap.
  - now transitivity (deletes_of t').
Qed.

Section ParMap.
Variable A : Type.
Variable f : A -> M unit.
Variable g : A -> trace.
Hypothesis f_run : forall x, f x = [(g x, tt)].

(** A run of the goroutines is a rearrangement of their traces. *)
Lemma par_map_Permutation l m :
  In (m, tt) (par (map f l)) -> Permutation (flat_map g l) m.
Proof.
  revert m. induction l as [|x l IH]; intros m H; simpl in H.
  - apply in_par_nil in H as ->. constructor.
  - apply in_par_cons in H as (t1 & t2 & H1 & H2 & H3).
    rewrite f_run in H1. destruct H1 as [E|[]]. injection E as <-.
    simpl. rewrite (IH t2 H2). now apply interleave_Permutation.
Qed.


(** The goroutines may run one after the other. *)
Lemma par_map_sequential l : In (flat_map g l, tt) (par (map f l)).
Proof.
  induction l as [|x l IH]; simpl.
  - now apply in_par_nil.
  - apply in_par_cons. exists (g x), (flat_map g l). rewrite f_run.
    repeat split; [now left|assumption|apply interleave_app].
Qed.

(** The second goroutine may take its first step before the first one
    takes its second step. *)
Lemma par_map_overlap x y l e1 t1 e2 t2 :
  g x = e1 :: t1 -> g y = e2 :: t2 ->
  In (e1 :: e2 :: t1 ++ t2 ++ flat_map g l, tt) (par (map f (x :: y :: l))).
Proof.
  intros Hx Hy. simpl. apply in_par_cons.
  exists (g x), (g y ++ flat_map g l). rewrite f_run. repeat split; [now left| |].
  - apply (par_map_sequential (y :: l)).
  - rewrite Hx, Hy. simpl. apply interleave_l, interleave_r, interleave_app.
Qed.

End ParMap.

Lemma bind_const {A B} (m : M A) t2 (r : B) :
  bind m (fun _ => [(t2, r)]) = map (fun ta => (fst ta ++ t2, r)) m.
Proof.
  unfold bind. induction m as [|[t a] m IH]; [reflexivity|].
  simpl in *. now rewrite IH.
Qed.

Lemma bind_then_emit {A} (m : M A) e :
  bind m (fun r => bind (emit e) (fun _ => ret r)) =
  map (fun ta => (fst ta ++ [e], snd ta)) m.
Proof.
  unfold bind, emit, ret. induction m as [|[t a] m IH]; [reflexivity|].
  simpl in *. now rewrite IH.
Qed.

Section InstanceRuns.
Variable cfg : config.
Variable b : backend.
Variable p : string.

Let found (i : Instance) : event :=
  ELog "  Found VM Instance: %s (zone: %s, status: %s)"
    [AStr (InstanceName i); AStr (extractZoneFromURL (InstanceZone i));
     AStr (InstanceStatus i)].

Lemma collectPair_run l acc :
  collectPair l acc = [(map found l, acc ++ map infoOf l)].
Proof.
  revert acc. induction l as [|i l IH]; intros acc; simpl.
  - now rewrite app_nil_r.
  - unfold log_Printf. rewrite bind_emit, IH. simpl. now rewrite <- app_assoc.
Qed.

Lemma collectInstances_run pairs acc :
  collectInstances pairs acc =
  [(map found (List.concat pairs), acc ++ map infoOf (List.concat pairs))].
Proof.
  revert acc. induction pairs as [|l pairs IH]; intros acc; simpl.
  - now rewrite app_nil_r.
  - rewrite collectPair_run, bind_single, IH. simpl.
    now rewrite !map_app, app_assoc.
Qed.

(** The goroutine of one instance has one run. *)
Lemma deleteInstanceTask_run inst :
  deleteInstanceTask b p inst = [(first_run (deleteInstanceTask b p inst), tt)].
Proof.
  unfold deleteInstanceTask, log_Printf.
  destruct (deleteResult b _); [reflexivity|].
  destruct (waitResult b _); reflexivity.
Qed.

Lemma deleteInstanceTask_calls i :
  calls_of (first_run (deleteInstanceTask b p (infoOf i))) =
  call_and_wait b (instanceRequest p i).
Proof.
  unfold deleteInstanceTask, log_Printf, call_and_wait, instanceRequest. simpl.
  destruct (deleteResult b _); [reflexivity|].
  destruct (waitResult b _); reflexivity.
Qed.

Let pre : trace :=
  [ELog "[%s] Checking VM instances..." [AStr p]; ENewClient InstancesRESTClient;
   EList (AggregatedListInstancesRequest p)]
  ++ map found (listed_instances b p).

(** The runs of the instance cleaner that reach the deletions: the
    goroutines, between the announcement and the closing lines. *)
Lemma deleteVMInstances_live :
  newClient b InstancesRESTClient p = None ->
  final (instances b p) = None ->
  listed_instances b p <> [] ->
  dryRun cfg = false ->
  deleteVMInstances cfg b p =
  map (fun m =>
         (pre
          ++ [ELog "[%s] Deleting %d VM instances in parallel..."
                [AStr p; AInt (Z.of_nat (List.length (listed_instances b p)))]]
          ++ fst m
          ++ [ELog "[%s] All VM deletions complete" [AStr p];
              EClose InstancesRESTClient],
          None))
      (par (map (deleteInstanceTask b p) (map infoOf (listed_instances b p)))).
Proof.
  intros Hc Hf Hl Hd. unfold deleteVMInstances, pre, listed_instances in *.
  rewrite Hc, Hf, Hd, bind_then_emit, collectInstances_run, bind_single.
  cbv beta. cbn [app snd]. rewrite length_map.
  set (all := List.concat (items (instances b p))) in *.
  replace (List.length all =? 0)%nat with false by (destruct all; [congruence|reflexivity]).
  unfold log_Printf, ret.
  repeat (rewrite ?bind_emit, ?bind_single, ?bind_const, ?map_map; cbn [map fst snd]).
  apply map_ext. intros [m []]. cbn [fst snd app].
  rewrite <- !app_assoc. cbn [app]. rewrite <- !app_assoc. reflexivity.
Qed.

(** A run that reaches the instance deletions, taken apart. *)
Lemma deleteVMInstances_live_inv t r :
  newClient b InstancesRESTClient p = None ->
  final (instances b p) = None ->
  listed_instances b p <> [] ->
  dryRun cfg = false ->
  In (t, r) (deleteVMInstances cfg b p) ->
  exists t1 m t2,
    t = t1 ++ m ++ t2 /\ calls_of t1 = [] /\ calls_of t2 = [] /\
    In (m, tt) (par (map (deleteInstanceTask b p) (map infoOf (listed_instances b p)))).
Proof.
  intros Hc Hf Hl Hd H. rewrite (deleteVMInstances_live Hc Hf Hl Hd) in H.
  apply in_map_iff in H as ([m []] & E & H). injection E as <- _.
  exists (pre ++ [ELog "[%s] Deleting %d VM instances in parallel..."
                    [AStr p; AInt (Z.of_nat (List.length (listed_instances b p)))]]),
    m, [ELog "[%s] All VM deletions complete" [AStr p]; EClose InstancesRESTClient].
  split; [now rewrite <- app_assoc|]. split; [|split; [reflexivity|exact H]].
  assert (Hfound : forall l, calls_of (map found l) = [])
    by (induction l; simpl; auto).
  unfold pre. rewrite !calls_of_app, Hfound. reflexivity.
Qed.

(** All other runs of the instance cleaner: no deletion is started. *)
Lemma deleteVMInstances_idle t r :
  In (t, r) (deleteVMInstances cfg b p) ->
  newClient b InstancesRESTClient p <> None \/
  final (instances b p) <> None \/
  listed_instances b p = [] \/
  dryRun cfg = true ->
  calls_of t = [].
Proof.
  unfold deleteVMInstances, listed_instances. intros H Hcase.
  destruct (newClient b InstancesRESTClient p) as [err|] eqn:Hc.
  { revert H. run_simpl. intros [E|[]]. injection E as <- _. reflexivity. }
  rewrite bind_then_emit, collectInstances_run, bind_single in H.
  cbv beta in H. cbn [app snd] in H. rewrite length_map in H.
  assert (Hfound : forall l, calls_of (map found l) = [])
    by (induction l; simpl; auto).
  assert (Hend : forall t0,
             In (t, r) [(ELog "[%s] Checking VM instances..." [AStr p]
                         :: ENewClient InstancesRESTClient
                         :: EList (AggregatedListInstancesRequest p)
                         :: map found (List.concat (items (instances b p))) ++ t0, r)] ->
             calls_of t0 = [] -> calls_of t = []).
  { intros t0 [E|[]] H0. injection E as <-. cbn [calls_of].
    now rewrite calls_of_app, Hfound, H0. }
  destruct (final (instances b p)) as [err|] eqn:Hf.
  { revert H. run_simpl. intros [E|[]]. injection E as <- _.
    cbn [calls_of]. now rewrite calls_of_app, Hfound. }
  destruct (List.concat (items (instances b p))) as [|i0 l0] eqn:E.
  { revert H. run_simpl. intros [E'|[]]. injection E' as <- _. reflexivity. }
  rewrite <- E in *.
  replace (List.length (List.concat (items (instances b p))) =? 0)%nat with false in H
    by (rewrite E; reflexivity).
  destruct (dryRun cfg) eqn:Hd.
  { revert H. run_simpl. intros [E'|[]]. injection E' as <- _.
    cbn [calls_of]. now rewrite calls_of_app, Hfound. }
  exfalso. destruct Hcase as [H'|[H'|[H'|H']]]; congruence.
Qed.

End InstanceRuns.

Section AccountRuns.
Variable cfg : config.
Variable b : backend.
Variable p : string.

Let found (sa : ServiceAccount) : event :=
  ELog "  Found Service Account: %s (%s)" [AStr (Email sa); AStr (DisplayName sa)].

(** The filter loop never panics and keeps the candidates, in order. *)
Lemma filterAccounts_run l acc :
  filterAccounts l acc =
  [(map found (filter isCandidate l), Some (acc ++ filter isCandidate l))].
Proof.
  revert acc. induction l as [|sa l IH]; intros acc; simpl.
  - now rewrite app_nil_r.
  - pose proof (eq_refl (isCandidate sa)) as Hk. unfold isCandidate at 2 in Hk.
    destruct (isTarget (Email sa)) as [[|]|] eqn:E; rewrite Hk.
    + unfold log_Printf. rewrite bind_emit, IH. simpl. now rewrite <- app_assoc.
    + apply IH.
    + rewrite isTarget_eq in E. discriminate.
Qed.

(** The goroutine of one account has one run. *)
Lemma deleteAccountTask_run sa :
  deleteAccountTask b sa = [(first_run (deleteAccountTask b sa), tt)].
Proof.
  unfold deleteAccountTask, log_Printf. destruct (deleteResult b _); reflexivity.
Qed.

Lemma deleteAccountTask_calls sa :
  calls_of (first_run (deleteAccountTask b sa)) = [EDelete (accountRequest sa)].
Proof.
  unfold deleteAccountTask, log_Printf, accountRequest.
  destruct (deleteResult b _); reflexivity.
Qed.

Let targets : list ServiceAccount := filter isCandidate (listed_accounts b p).

Let pre : trace :=
  [ELog "[%s] Checking service accounts..." [AStr p]; ENewClient IAMService;
   EList (ListServiceAccounts (String.append "projects/" p))]
  ++ map found targets.

(** The runs of the service-account cleaner that reach the deletions. *)
Lemma deleteServiceAccounts_live :
  newClient b IAMService p = None ->
  targets <> [] ->
  dryRun cfg = false ->
  deleteServiceAccounts cfg b p =
  map (fun m =>
         (pre
          ++ [ELog "[%s] Deleting %d service accounts in parallel..."
                [AStr p; AInt (Z.of_nat (List.length targets))]]
          ++ fst m
          ++ [ELog "[%s] All service account deletions complete" [AStr p]],
          None))
      (par (map (deleteAccountTask b) targets)).
Proof.
  intros Hc Hl Hd. unfold deleteServiceAccounts, pre, targets, listed_accounts in *.
  rewrite Hc, Hd.
  destruct (serviceAccounts b (String.append "projects/" p)) as [accounts|err];
    [|now contradiction Hl].
  rewrite filterAccounts_run, bind_single. cbv beta. cbn [app snd].
  set (tg := filter isCandidate accounts) in *.
  replace (List.length tg =? 0)%nat with false by (destruct tg; [congruence|reflexivity]).
  unfold log_Printf, ret.
  repeat (rewrite ?bind_emit, ?bind_single, ?bind_const, ?map_map; cbn [map fst snd]).
  apply map_ext. intros [m []]. cbn [fst snd app].
  rewrite <- ?app_assoc. cbn [app]. rewrite <- ?app_assoc. reflexivity.
Qed.

(** A run that reaches the service-account deletions, taken apart. *)
Lemma deleteServiceAccounts_live_inv t r :
  newClient b IAMService p = None ->
  targets <> [] ->
  dryRun cfg = false ->
  In (t, r) (deleteServiceAccounts cfg b p) ->
  exists t1 m t2,
    t = t1 ++ m ++ t2 /\ calls_of t1 = [] /\ calls_of t2 = [] /\
    In (m, tt) (par (map (deleteAccountTask b) targets)).
Proof.
  intros Hc Hl Hd H. rewrite (deleteServiceAccounts_live Hc Hl Hd) in H.
  apply in_map_iff in H as ([m []] & E & H). injection E as <- _.
  exists (pre ++ [ELog "[%s] Deleting %d service accounts in parallel..."
                    [AStr p; AInt (Z.of_nat (List.length targets))]]),
    m, [ELog "[%s] All service account deletions complete" [AStr p]].
  split; [now rewrite <- app_assoc|]. split; [|split; [reflexivity|exact H]].
  assert (Hfound : forall l, calls_of (map found l) = [])
    by (induction l; simpl; auto).
  unfold pre. rewrite !calls_of_app, Hfound. reflexivity.
Qed.

(** All other runs of the service-account cleaner: no deletion is
    started. *)
Lemma deleteServiceAccounts_idle t r :
  In (t, r) (deleteServiceAccounts cfg b p) ->
  newClient b IAMService p <> None \/ targets = [] \/ dryRun cfg = true ->
  calls_of t = [].
Proof.
  unfold deleteServiceAccounts, targets, listed_accounts. intros H Hcase.
  destruct (newClient b IAMService p) as [err|] eqn:Hc.
  { revert H. run_simpl. intros [E|[]]. injection E as <- _. reflexivity. }
  destruct (serviceAccounts b (String.append "projects/" p)) as [accounts|err].
  2: { revert H. run_simpl. intros [E|[]]. injection E as <- _. reflexivity. }
  rewrite filterAccounts_run, bind_single in H. cbv beta in H. cbn [app snd] in H.
  assert (Hfound : forall l, calls_of (map found l) = [])
    by (induction l; simpl; auto).
  destruct (filter isCandidate accounts) as [|s0 l0] eqn:E.
  { revert H. run_simpl. intros [E'|[]]. injection E' as <- _. reflexivity. }
  rewrite <- E in *.
  replace (List.length (filter isCandidate accounts) =? 0)%nat with false in H
    by (rewrite E; reflexivity).
  destruct (dryRun cfg) eqn:Hd.
  { revert H. run_simpl. intros [E'|[]]. injection E' as <- _.
    cbn [calls_of]. now rewrite calls_of_app, Hfound. }
  exfalso. destruct Hcase as [H'|[H'|H']]; congruence.
Qed.

End AccountRuns.

(** * The delete calls of the parallel cleaners *)

Lemma calls_of_deletes_nil t : calls_of t = [] -> deletes_of t = [].
Proof. intros H. now rewrite <- deletes_of_calls, H. Qed.

Section ParallelDeletes.
Variable cfg : config.
Variable b : backend.
Variable p : string.

Lemma deleteVMInstances_deletes t r :
  newClient b InstancesRESTClient p = None ->
  final (instances b p) = None ->
  dryRun cfg = false ->
  In (t, r) (deleteVMInstances cfg b p) ->
  Permutation (map (instanceRequest p) (listed_instances b p)) (deletes_of t).
Proof.
  intros Hc Hf Hd H. destruct (listed_instances b p) as [|i0 l0] eqn:E.
  - rewrite (calls_of_deletes_nil _ (deleteVMInstances_idle cfg b p t r H
              (or_intror (or_intror (or_introl E))))). constructor.
  - rewrite <- E in *. assert (Hl : listed_instances b p <> []) by (rewrite E; discriminate).
    destruct (deleteVMInstances_live_inv cfg b p t r Hc Hf Hl Hd H)
      as (t1 & m & t2 & -> & H1 & H2 & Hm).
    rewrite <- deletes_of_calls, !calls_of_app, H1, H2, app_nil_r. cbn [app].
    rewrite deletes_of_calls.
    apply (par_map_Permutation _ _ _ (deleteInstanceTask_run b p)) in Hm.
    apply deletes_of_Permutation in Hm. rewrite <- Hm.
    rewrite flat_map_concat_map, map_map, <- flat_map_concat_map.
    rewrite <- deletes_of_calls, calls_of_flat_map.
    erewrite flat_map_ext; [|intros i; apply deleteInstanceTask_calls].
    now rewrite deletes_of_call_and_wait.
Qed.

Lemma deleteServiceAccounts_deletes t r :
  In (t, r) (deleteServiceAccounts cfg b p) ->
  Permutation
    (match newClient b IAMService p with
     | Some _ => []
     | None =>
         if dryRun cfg then []
         else map accountRequest (filter isCandidate (listed_accounts b p))
     end)
    (deletes_of t).
Proof.
  intros H.
  destruct (newClient b IAMService p) as [err|] eqn:Hc.
  { assert (Hn : newClient b IAMService p <> None) by congruence.
    rewrite (calls_of_deletes_nil _ (deleteServiceAccounts_idle cfg b p t r H
              (or_introl Hn))). constructor. }
  destruct (dryRun cfg) eqn:Hd.
  { rewrite (calls_of_deletes_nil _ (deleteServiceAccounts_idle cfg b p t r H
              (or_intror (or_intror Hd)))). constructor. }
  destruct (filter isCandidate (listed_accounts b p)) as [|s0 l0] eqn:E.
  { rewrite (calls_of_deletes_nil _ (deleteServiceAccounts_idle cfg b p t r H
              (or_intror (or_introl E)))). constructor. }
  rewrite <- E in *.
  assert (Hl : filter isCandidate (listed_accounts b p) <> []) by (rewrite E; discriminate).
  destruct (deleteServiceAccounts_live_inv cfg b p t r Hc Hl Hd H)
    as (t1 & m & t2 & -> & H1 & H2 & Hm).
  rewrite <- deletes_of_calls, !calls_of_app, H1, H2, app_nil_r. cbn [app].
  rewrite deletes_of_calls.
  apply (par_map_Permutation _ _ _ (deleteAccountTask_run b)) in Hm.
  apply deletes_of_Permutation in Hm. rewrite <- Hm.
  rewrite <- deletes_of_calls, calls_of_flat_map.
  erewrite flat_map_ext; [|intros sa; apply deleteAccountTask_calls].
  rewrite flat_map_concat_map. clear.
  induction (filter isCandidate (listed_accounts b p)); simpl; auto.
Qed.

End ParallelDeletes.

(** * Service-account filter *)

(** C5: a listed service account is a deletion candidate exactly when the
    part of its email before an ["@"] starts with ["vsa-sa-gcnv"]; the two
    emails of the specification are classified accordingly; every delete call
    of a run of the service-account cleaner names a listed candidate, and in
    live mode the delete calls are exactly the candidates. *)
Theorem candidate_iff_local_part_has_prefix (cfg : config) (b : backend) (p : string) :
  (forall email local rest,
     email = String.append local (String "@" rest) ->
     (isTarget email = Some true <-> strings.HasPrefix local "vsa-sa-gcnv" = true)) /\
  isTarget "vsa-sa-gcnv-123@proj.iam.gserviceaccount.com" = Some true /\
  isTarget "other-sa@proj.iam.gserviceaccount.com" = Some false /\
  (forall t r, In (t, r) (deleteServiceAccounts cfg b p) ->
     (forall q, In q (deletes_of t) ->
        exists sa, In sa (listed_accounts b p) /\
                   isTarget (Email sa) = Some true /\ q = accountRequest sa) /\
     (dryRun cfg = false -> newClient b IAMService p = None ->
      Permutation (map accountRequest (filter isCandidate (listed_accounts b p)))
                  (deletes_of t))) /\
  (forall sa, isCandidate sa = true <-> isTarget (Email sa) = Some true).
Proof.
  assert (Hiff : forall sa, isCandidate sa = true <-> isTarget (Email sa) = Some true).
  { intros sa. unfold isCandidate. destruct (isTarget (Email sa)) as [[|]|];
      split; congruence. }
  split; [|split; [reflexivity|split; [reflexivity|split; [|exact Hiff]]]].
  - intros email local rest ->. rewrite isTarget_eq. unfold strings.HasPrefix, prefixTag.
    rewrite (prefix_app_sep "vsa-sa-gcnv" "@" eq_refl). split; congruence.
  - intros t r H. pose proof (deleteServiceAccounts_deletes cfg b p t r H) as Hp. split.
    + intros q Hq. apply (Permutation_in _ (Permutation_sym Hp)) in Hq.
      destruct (newClient b IAMService p); [destruct Hq|].
      destruct (dryRun cfg); [destruct Hq|].
      apply in_map_iff in Hq as (sa & <- & Hsa). apply filter_In in Hsa as [Hsa Hc].
      exists sa. repeat split; [assumption|now apply Hiff].
    + intros Hd Hc. now rewrite Hc, Hd in Hp.
Qed.

Lemma candidate_iff_local_part_has_prefix_witness :
  (isTarget (Email taggedAccount) = Some true <-> strings.HasPrefix "vsa-sa-gcnv-123" "vsa-sa-gcnv" = true) /\
  In (mixedAccountRun, None) (deleteServiceAccounts liveConfig mixedBackend "p") /\
  Permutation (map accountRequest (filter isCandidate (listed_accounts mixedBackend "p")))
    (deletes_of mixedAccountRun).
Proof.
  destruct (candidate_iff_local_part_has_prefix liveConfig mixedBackend "p")
    as (H1 & _ & _ & H2 & _).
  split.
  - apply (H1 _ "vsa-sa-gcnv-123" "proj.iam.gserviceaccount.com"). reflexivity.
  - assert (Hrun : In (mixedAccountRun, None)
                      (deleteServiceAccounts liveConfig mixedBackend "p"))
      by (vm_compute; left; reflexivity).
    split; [exact Hrun|].
    destruct (H2 mixedAccountRun None Hrun) as (_ & H3).
    apply H3; reflexivity.
Defined.

(** C10: the filter never fails: the split of any email has a first element,
    so the condition always evaluates, also on the empty string.  The filter
    loop is total: on every list of accounts it has exactly one run, which
    logs the candidates and returns them, in order, after those it was
    given, without any panic; and [deleteServiceAccounts] returns on every
    provider.  On an email without ["@"] the split is the whole email, so
    the account is a candidate exactly when the whole email starts with
    ["vsa-sa-gcnv"]. *)
Theorem filter_is_total_and_tests_whole_email (email : string) :
  (exists local, nth_error (strings.Split email "@") 0 = Some local) /\
  (exists c, isTarget email = Some c) /\
  isTarget "" = Some false /\
  (forall l acc,
     filterAccounts l acc =
     [(map foundAccount (filter isCandidate l), Some (acc ++ filter isCandidate l))]) /\
  (forall l acc t r, In (t, r) (filterAccounts l acc) ->
     r = Some (acc ++ filter isCandidate l) /\ ~ In EPanic t) /\
  (forall cfg b p, returns (deleteServiceAccounts cfg b p)) /\
  (contains_byte "@" email = false ->
   strings.Split email "@" = [email] /\
   isTarget email = Some (strings.HasPrefix email "vsa-sa-gcnv")).
Proof.
  split; [|split; [|split; [reflexivity|split; [|split; [|split]]]]].
  - pose proof (Split_not_nil email "@"). destruct (strings.Split email "@") as [|q qs];
      [congruence|]. now exists q.
  - rewrite isTarget_eq. eauto.
  - intros l acc. exact (filterAccounts_run l acc).
  - intros l acc t r H. rewrite filterAccounts_run in H. destruct H as [E|[]].
    injection E as <- <-. split; [reflexivity|].
    intros Hin. apply in_map_iff in Hin as (sa & E & _). discriminate.
  - intros cfg b p. apply deleteServiceAccounts_returns.
  - intros H. split; [now apply Split_no_sep|apply isTarget_eq].
Qed.

Lemma filter_is_total_and_tests_whole_email_witness :
  (contains_byte "@" "vsa-sa-gcnv-local" = false /\
   strings.Split "vsa-sa-gcnv-local" "@" = ["vsa-sa-gcnv-local"] /\
   isTarget "vsa-sa-gcnv-local" =
   Some (strings.HasPrefix "vsa-sa-gcnv-local" "vsa-sa-gcnv")) /\
  filterAccounts [otherAccount; localAccount; taggedAccount] [] =
  [([foundAccount localAccount; foundAccount taggedAccount],
    Some [localAccount; taggedAccount])].
Proof.
  destruct (filter_is_total_and_tests_whole_email "vsa-sa-gcnv-local")
    as (_ & _ & _ & Hrun & _ & _ & H).
  split.
  - split; [reflexivity|]. apply H. reflexivity.
  - exact (Hrun [otherAccount; localAccount; taggedAccount] []).
Defined.

(** * Failures *)

Section Failures.
Variable cfg : config.
Variable b : backend.

(** The driver visits the projects in order and ends with the banner. *)
Lemma projectsLoop_inv l t :
  In (t, tt) (projectsLoop cfg b l) ->
  exists ts, Forall2 (fun p tp => In (tp, tt) (cleanupProject cfg b p)) l ts /\
             t = sections l ts.
Proof.
  revert t. induction l as [|p l IH]; intros t H; simpl in H.
  - apply in_ret in H as [-> _]. exists []. split; [constructor|reflexivity].
  - unfold log_Printf in H. apply in_emit_bind in H as (t1 & -> & H).
    apply in_bind in H as (tp & [] & t2 & Hp & H & ->).
    destruct (IH t2 H) as (ts & Hts & ->).
    exists (tp :: ts). split; [now constructor|].
    unfold sections. simpl. reflexivity.
Qed.

Lemma main_inv t :
  In (t, tt) (main cfg b) ->
  exists ts,
    Forall2 (fun p tp => In (tp, tt) (cleanupProject cfg b p)) (projectIDs cfg) ts /\
    t = [ELog "Starting GCP cleanup script (Dry Run: %v)" [ABool (dryRun cfg)];
         ELog "Projects to clean: %v" [AStrs (projectIDs cfg)]]
        ++ sections (projectIDs cfg) ts
        ++ [ELog completeBanner []].
Proof.
  unfold main, log_Printf, log_Println. intros H.
  apply in_emit_bind in H as (t1 & -> & H). apply in_emit_bind in H as (t2 & -> & H).
  apply in_bind in H as (t3 & [] & t4 & H3 & H & ->). apply in_emit in H as ->.
  destruct (projectsLoop_inv _ _ H3) as (ts & Hts & ->). now exists ts.
Qed.

Variable p : string.
Hypothesis live : dryRun cfg = false.






End Failures.

(** * The orchestrator *)

Section Orchestrator.
Variable cfg : config.
Variable b : backend.
Variable p : string.

Lemma logged_inv format (f : M (option error)) t :
  In (t, tt) (logged format p f) <->
  exists t0 r, In (t0, r) f /\ t = t0 ++ errLog format p r.
Proof.
  unfold logged. rewrite in_bind. split.
  - intros (t0 & r & t1 & H0 & H1 & ->). exists t0, r. split; [assumption|].
    destruct r as [err|]; simpl.
    + unfold log_Printf in H1. now apply in_emit in H1 as ->.
    + now apply in_ret in H1 as [-> _].
  - intros (t0 & r & H0 & ->). exists t0, r, (errLog format p r).
    repeat split; [assumption|]. destruct r as [err|]; simpl.
    + unfold log_Printf. now apply in_emit.
    + now apply in_ret.
Qed.

(** A run of [cleanupProject]: a run of the instance cleaner, then an
    interleaving of runs of the three other cleaners, then the note. *)
Lemma cleanupProject_inv t :
  In (t, tt) (cleanupProject cfg b p) <->
  exists tv rv tp,
    In (tv, rv) (deleteVMInstances cfg b p) /\
    In (tp, tt)
      (par [logged "Error deleting disks in %s: %v" p (deleteDisks cfg b p);
            logged "Error releasing static IPs in %s: %v" p (releaseStaticIPs cfg b p);
            logged "Error deleting service accounts in %s: %v" p
              (deleteServiceAccounts cfg b p)]) /\
    t = tv ++ errLog "Error deleting VM instances in %s: %v" p rv
        ++ tp ++ [EPrintf bucketsNote [AStr p]].
Proof.
  unfold cleanupProject. rewrite in_bind. split.
  - intros (t1 & [] & t2 & H1 & H2 & ->). apply logged_inv in H1 as (tv & rv & Hv & ->).
    apply in_bind in H2 as (tp & [] & t3 & Hp & H3 & ->).
    unfold fmt_Printf in H3. apply in_emit in H3 as ->.
    exists tv, rv, tp. repeat split; try assumption. now rewrite <- app_assoc.
  - intros (tv & rv & tp & Hv & Hp & ->).
    exists (tv ++ errLog "Error deleting VM instances in %s: %v" p rv), tt,
      (tp ++ [EPrintf bucketsNote [AStr p]]).
    split; [apply logged_inv; eauto|]. split; [|now rewrite <- app_assoc].
    apply in_bind. exists tp, tt, [EPrintf bucketsNote [AStr p]].
    repeat split; [assumption|]. unfold fmt_Printf. now apply in_emit.
Qed.

(** The three goroutines may run one after the other. *)
Lemma cleanupProject_sequential tv rv td rd ta ra ts rs :
  In (tv, rv) (deleteVMInstances cfg b p) ->
  In (td, rd) (deleteDisks cfg b p) ->
  In (ta, ra) (releaseStaticIPs cfg b p) ->
  In (ts, rs) (deleteServiceAccounts cfg b p) ->
  In (tv ++ errLog "Error deleting VM instances in %s: %v" p rv
      ++ ((td ++ errLog "Error deleting disks in %s: %v" p rd)
          ++ (ta ++ errLog "Error releasing static IPs in %s: %v" p ra)
          ++ (ts ++ errLog "Error deleting service accounts in %s: %v" p rs))
      ++ [EPrintf bucketsNote [AStr p]], tt)
     (cleanupProject cfg b p).
Proof.
  intros Hv Hd Ha Hs. apply cleanupProject_inv.
  exists tv, rv, ((td ++ errLog "Error deleting disks in %s: %v" p rd)
                  ++ (ta ++ errLog "Error releasing static IPs in %s: %v" p ra)
                  ++ (ts ++ errLog "Error deleting service accounts in %s: %v" p rs)).
  split; [assumption|]. split; [|reflexivity].
  pose proof (in_par_concat
    [logged "Error deleting disks in %s: %v" p (deleteDisks cfg b p);
     logged "Error releasing static IPs in %s: %v" p (releaseStaticIPs cfg b p);
     logged "Error deleting service accounts in %s: %v" p (deleteServiceAccounts cfg b p)]
    [td ++ errLog "Error deleting disks in %s: %v" p rd;
     ta ++ errLog "Error releasing static IPs in %s: %v" p ra;
     ts ++ errLog "Error deleting service accounts in %s: %v" p rs]) as H.
  simpl List.concat in H. rewrite app_nil_r in H. apply H.
  repeat constructor; apply logged_inv; eauto.
Qed.

Lemma emits_belongs k e : emits cfg p k e -> forall k', belongs_to k' e -> k' = k.
Proof.
  destruct e; simpl; try tauto; try congruence.
  - intros (_ & <- & _) k' <-. reflexivity.
  - intros (_ & <- & _) k' <-. reflexivity.
Qed.

Lemma cleanupProject_others :
  always (Forall (fun e => ~ belongs_to CInstances e))
    (par [logged "Error deleting disks in %s: %v" p (deleteDisks cfg b p);
          logged "Error releasing static IPs in %s: %v" p (releaseStaticIPs cfg b p);
          logged "Error deleting service accounts in %s: %v" p
            (deleteServiceAccounts cfg b p)]).
Proof.
  assert (Hk : forall k (m : M unit), k <> CInstances ->
             always (Forall (emits cfg p k)) m ->
             always (Forall (fun e => ~ belongs_to CInstances e)) m).
  { intros k m Hk. apply all_impl. intros e He Hb.
    apply Hk. symmetry. exact (emits_belongs k e He CInstances Hb). }
  apply all_par. repeat constructor.
  - apply (Hk CDisks); [discriminate|]. apply logged_emits, deleteDisks_emits.
  - apply (Hk CAddresses); [discriminate|]. apply logged_emits, releaseStaticIPs_emits.
  - apply (Hk CServiceAccounts); [discriminate|].
    apply logged_emits, deleteServiceAccounts_emits.
Qed.

End Orchestrator.

Lemma scenarioProjectRun_in :
  In (scenarioProjectRun, tt) (cleanupProject liveConfig scenarioBackend "p").
Proof.
  apply (cleanupProject_sequential liveConfig scenarioBackend "p"
           scenarioVMRun None scenarioDiskRun None scenarioAddressRun None
           scenarioAccountRun None);
    vm_compute; left; reflexivity.
Qed.

Lemma orchestrator_never_deletes_buckets_witness :
  In (scenarioProjectRun, tt) (cleanupProject liveConfig scenarioBackend "p") /\
  Forall (fun e => is_storage e = false) scenarioProjectRun.
Proof.
  split; [exact scenarioProjectRun_in|].
  apply (orchestrator_never_deletes_buckets liveConfig scenarioBackend "p"
           scenarioProjectRun scenarioProjectRun_in).
Defined.

(** C6: every run of [cleanupProject] starts with a complete run of the
    instance cleaner (followed by the error line if it failed); all provider
    calls of the instance cleaner lie in that part, and every provider call
    of the disk, address and service-account cleaners lies after it.  Hence
    any call of the instance cleaner precedes any call of the others. *)
Theorem vm_cleaner_returns_before_the_others_start (cfg : config) (b : backend)
    (p : string) (t : trace) :
  In (t, tt) (cleanupProject cfg b p) ->
  (exists t_vm r t_rest,
     In (t_vm, r) (deleteVMInstances cfg b p) /\
     t = t_vm ++ t_rest /\
     Forall (fun e => forall k, belongs_to k e -> k = CInstances) t_vm /\
     Forall (fun e => ~ belongs_to CInstances e) t_rest) /\
  (forall i j e1 e2 k,
     nth_error t i = Some e1 -> nth_error t j = Some e2 ->
     belongs_to CInstances e1 -> belongs_to k e2 -> k <> CInstances ->
     i < j).
Proof.
  intros H. apply cleanupProject_inv in H as (tv & rv & tp & Hv & Hp & ->).
  assert (H1 : Forall (fun e => forall k, belongs_to k e -> k = CInstances) tv).
  { eapply Forall_impl; [|exact (deleteVMInstances_emits cfg b p tv rv Hv)].
    intros e He k Hk. exact (emits_belongs cfg p CInstances e He k Hk). }
  assert (H2 : Forall (fun e => ~ belongs_to CInstances e)
                 (errLog "Error deleting VM instances in %s: %v" p rv
                  ++ tp ++ [EPrintf bucketsNote [AStr p]])).
  { apply Forall_app. split; [destruct rv; repeat constructor; simpl; tauto|].
    apply Forall_app. split; [exact (cleanupProject_others cfg b p tp tt Hp)|].
    repeat constructor. simpl. tauto. }
  split; [eexists tv, rv, _; repeat split; [exact Hv|exact H1|exact H2]|].
  intros i j e1 e2 k Hi Hj He1 He2 Hk.
  destruct (Nat.lt_ge_cases i (List.length tv)) as [Hlt|Hge].
  - destruct (Nat.lt_ge_cases j (List.length tv)) as [Hlt'|Hge']; [|lia].
    rewrite nth_error_app1 in Hj by assumption. apply nth_error_In in Hj.
    rewrite Forall_forall in H1. specialize (H1 e2 Hj k He2). contradiction.
  - rewrite nth_error_app2 in Hi by assumption. apply nth_error_In in Hi.
    rewrite Forall_forall in H2. now specialize (H2 e1 Hi He1).
Qed.

Lemma vm_cleaner_returns_before_the_others_start_witness :
  In (scenarioProjectRun, tt) (cleanupProject liveConfig scenarioBackend "p") /\
  nth_error scenarioProjectRun 6 =
    Some (EDelete (DeleteInstanceRequest "p" "us-central1-a" "vm-a")) /\
  nth_error scenarioProjectRun 18 =
    Some (EDelete (DeleteDiskRequest "p" "us-central1-a" "disk-1")) /\
  6 < 18.
Proof.
  split; [exact scenarioProjectRun_in|]. split; [reflexivity|]. split; [reflexivity|].
  destruct (vm_cleaner_returns_before_the_others_start liveConfig scenarioBackend "p"
              scenarioProjectRun scenarioProjectRun_in) as (_ & H).
  apply (H 6 18 (EDelete (DeleteInstanceRequest "p" "us-central1-a" "vm-a"))
           (EDelete (DeleteDiskRequest "p" "us-central1-a" "disk-1")) CDisks);
    try reflexivity; discriminate.
Defined.

(** * Success reports *)

Section Justified.
Variable cfg : config.
Variable b : backend.
Variable p : string.

Let Q : trace -> Prop := success_justified b p.

Lemma justified_subseq pre pre' e : justified b p pre e -> subseq pre pre' -> justified b p pre' e.
Proof.
  intros [(r & H1 & H2 & H3 & H4 & H5 & H6)|(sa & H1 & H2 & H3 & H4)] Hs.
  - left. exists r. repeat split; try assumption. eapply subseq_trans; eassumption.
  - right. exists sa. repeat split; try assumption. eapply subseq_In; eassumption.
Qed.

Lemma Q_nil : Q [].
Proof. intros pre e post E. destruct pre; discriminate. Qed.

Lemma Q_app t1 t2 : Q t1 -> Q t2 -> Q (t1 ++ t2).
Proof.
  intros H1 H2 pre e post E Hs. apply app_eq_app in E as (l & [[E1 E2]|[E1 E2]]).
  - destruct l as [|x l].
    + simpl in E2. eapply justified_subseq.
      * apply (H2 [] e post); [now rewrite <- E2|assumption].
      * apply subseq_nil_l.
    + injection E2 as <- ->. apply (H1 pre e l); assumption.
  - subst pre. eapply justified_subseq; [apply (H2 l e post); assumption|].
    apply subseq_app_r, subseq_refl.
Qed.

Lemma Q_merge t1 t2 t : Q t1 -> Q t2 -> interleave t1 t2 t -> Q t.
Proof.
  intros H1 H2 Hi pre e post E Hs.
  destruct (interleave_split _ t1 t2 t Hi pre e post E)
    as [(xp & xq & -> & S)|(yp & yq & -> & S)].
  - eapply justified_subseq; [eapply (H1 xp e xq); [reflexivity|assumption]|exact S].
  - eapply justified_subseq; [eapply (H2 yp e yq); [reflexivity|assumption]|exact S].
Qed.


















End Justified.

(** * Sequential and concurrent deletion *)

Lemma one_at_a_time_quiet t : deletes_of t = [] -> one_at_a_time t.
Proof.
  intros H a q c ->. rewrite deletes_of_app in H. simpl in H.
  destruct (deletes_of a); discriminate.
Qed.

Lemma one_at_a_time_app t1 t2 : one_at_a_time t1 -> one_at_a_time t2 -> one_at_a_time (t1 ++ t2).
Proof.
  intros H1 H2 a q c E. apply app_eq_app in E as (l & [[E1 E2]|[E1 E2]]).
  - destruct l as [|x l].
    + simpl in E2. apply (H2 [] q c). now rewrite <- E2.
    + injection E2 as <- ->.
      destruct (H1 a q l E1) as (e & c' & -> & He). exists e, (c' ++ t2). now split.
  - apply (H2 l q c E2).
Qed.

Lemma one_at_a_time_flat_map {A} (f : A -> trace) l :
  (forall x, one_at_a_time (f x)) -> one_at_a_time (flat_map f l).
Proof.
  intros H. induction l as [|x l IH]; simpl.
  - now apply one_at_a_time_quiet.
  - now apply one_at_a_time_app.
Qed.

(** After the delete call, the loop body of the disk cleaner always does
    something else (a wait or an error line) before it ends. *)
Lemma disk_item_one_at_a_time cfg b p d : one_at_a_time (first_run (diskBody cfg b p d 0)).
Proof.
  unfold diskBody, log_Printf.
  destruct (0 <? List.length (DiskUsers d))%nat; [now apply one_at_a_time_quiet|].
  destruct (negb (dryRun cfg)); [|now apply one_at_a_time_quiet].
  assert (H : forall f l e l', is_mutating e = false -> deletes_of l' = [] ->
              one_at_a_time (ELog f l :: EDelete (DeleteDiskRequest p
                (extractZoneFromURL (DiskZone d)) (DiskName d)) :: e :: l')).
  { intros f l e l' He Hl a q c E.
    destruct a as [|x a]; [discriminate|]. injection E as _ E.
    destruct a as [|y a].
    - injection E as _ <-. now exists e, l'.
    - injection E as _ E. destruct a as [|z a].
      + injection E as E1 _. rewrite E1 in He. discriminate.
      + injection E as _ E. assert (Hq : deletes_of l' = deletes_of (a ++ EDelete q :: c))
          by now rewrite E.
        rewrite deletes_of_app, Hl in Hq. simpl in Hq. destruct (deletes_of a); discriminate. }
  destruct (deleteResult b _); [now apply H|].
  destruct (waitResult b _); now apply H.
Qed.

Section Concurrency.
Variable cfg : config.
Variable b : backend.
Variable p : string.
Hypothesis live : dryRun cfg = false.

Lemma deleteDisks_one_at_a_time t r :
  In (t, r) (deleteDisks cfg b p) -> one_at_a_time t.
Proof.
  intros H. destruct (newClient b DisksRESTClient p) as [err|] eqn:Hc.
  - rewrite (deleteDisks_no_client cfg b p err Hc) in H. destruct H as [E|[]].
    injection E as <- _. now apply one_at_a_time_quiet.
  - rewrite (deleteDisks_run cfg b p Hc) in H. destruct H as [E|[]]. injection E as <- _.
    apply (one_at_a_time_app [_; _; _]); [now apply one_at_a_time_quiet|].
    apply one_at_a_time_app;
      [apply one_at_a_time_flat_map; intros d; apply disk_item_one_at_a_time|].
    apply one_at_a_time_quiet.
    destruct (final (disks b p)); [reflexivity|].
    destruct (_ =? 0)%nat; [reflexivity|]. destruct (dryRun cfg); reflexivity.
Qed.

(** With two instances listed, some run issues the second delete call right
    after the first one. *)
Lemma deleteVMInstances_overlap i1 i2 rest :
  newClient b InstancesRESTClient p = None ->
  final (instances b p) = None ->
  listed_instances b p = i1 :: i2 :: rest ->
  exists t, In (t, None) (deleteVMInstances cfg b p) /\
            overlapping t (instanceRequest p i1) (instanceRequest p i2).
Proof.
  intros Hc Hf Hl.
  assert (Hn : listed_instances b p <> []) by (rewrite Hl; discriminate).
  rewrite (deleteVMInstances_live cfg b p Hc Hf Hn live), Hl.
  assert (Hhead : forall i, exists tl,
             first_run (deleteInstanceTask b p (infoOf i)) =
             EDelete (instanceRequest p i) :: tl).
  { intros i. unfold deleteInstanceTask, log_Printf, instanceRequest. simpl.
    destruct (deleteResult b _); [eexists; reflexivity|].
    destruct (waitResult b _); eexists; reflexivity. }
  destruct (Hhead i1) as (tl1 & H1). destruct (Hhead i2) as (tl2 & H2).
  pose proof (par_map_overlap _ _ _ (deleteInstanceTask_run b p)
                (infoOf i1) (infoOf i2) (map infoOf rest) _ _ _ _ H1 H2) as Hin.
  eexists. split.
  - apply in_map_iff. eexists (_, tt). split; [reflexivity|exact Hin].
  - cbn [fst]. eexists _, _. rewrite !app_assoc. rewrite <- app_assoc. reflexivity.
Qed.

(** With two candidate accounts, some run issues the second delete call
    before the outcome of the first is reported. *)
Lemma deleteServiceAccounts_overlap s1 s2 rest :
  newClient b IAMService p = None ->
  filter isCandidate (listed_accounts b p) = s1 :: s2 :: rest ->
  exists t, In (t, None) (deleteServiceAccounts cfg b p) /\
            overlapping t (accountRequest s1) (accountRequest s2).
Proof.
  intros Hc Hl.
  assert (Hn : filter isCandidate (listed_accounts b p) <> []) by (rewrite Hl; discriminate).
  rewrite (deleteServiceAccounts_live cfg b p Hc Hn live), Hl.
  assert (Hhead : forall sa, exists tl,
             first_run (deleteAccountTask b sa) = EDelete (accountRequest sa) :: tl).
  { intros sa. unfold deleteAccountTask, log_Printf, accountRequest. simpl.
    destruct (deleteResult b _); eexists; reflexivity. }
  destruct (Hhead s1) as (tl1 & H1). destruct (Hhead s2) as (tl2 & H2).
  pose proof (par_map_overlap _ _ _ (deleteAccountTask_run b)
                s1 s2 rest _ _ _ _ H1 H2) as Hin.
  eexists. split.
  - apply in_map_iff. eexists (_, tt). split; [reflexivity|exact Hin].
  - cbn [fst]. eexists _, _. rewrite !app_assoc. rewrite <- app_assoc. reflexivity.
Qed.

End Concurrency.

(** C9: in live mode a run of the disk cleaner issues its delete calls one
    at a time: the cleaner has a single run, every delete call in it is
    directly followed by an event that is not a delete call, and its calls
    are, for the unattached disks in listing order, the delete call and then
    (when the call was accepted) the wait on its operation.  The instance
    cleaner and the service-account cleaner are concurrent: with two items to
    delete, each has a run in which the second delete call directly follows
    the first. *)
Theorem disks_one_at_a_time_instances_and_accounts_concurrently
    (cfg : config) (b : backend) (p : string) :
  dryRun cfg = false ->
  (exists t r, deleteDisks cfg b p = [(t, r)]) /\
  (forall t r, In (t, r) (deleteDisks cfg b p) ->
     one_at_a_time t /\
     (newClient b DisksRESTClient p = None ->
      calls_of t = flat_map (fun d => call_and_wait b (diskRequest p d))
                     (filter unattached (listed_disks b p)))) /\
  (forall i1 i2 rest,
     newClient b InstancesRESTClient p = None ->
     final (instances b p) = None ->
     listed_instances b p = i1 :: i2 :: rest ->
     exists t, In (t, None) (deleteVMInstances cfg b p) /\
               overlapping t (instanceRequest p i1) (instanceRequest p i2)) /\
  (forall s1 s2 rest,
     newClient b IAMService p = None ->
     filter isCandidate (listed_accounts b p) = s1 :: s2 :: rest ->
     exists t, In (t, None) (deleteServiceAccounts cfg b p) /\
               overlapping t (accountRequest s1) (accountRequest s2)).
Proof.
  intros live. split; [|split; [|split]].
  - destruct (newClient b DisksRESTClient p) as [err|] eqn:Hc.
    + rewrite (deleteDisks_no_client cfg b p err Hc). eauto.
    + rewrite (deleteDisks_run cfg b p Hc). eauto.
  - intros t r H. split; [exact (deleteDisks_one_at_a_time cfg b p live t r H)|].
    intros Hc. rewrite (deleteDisks_calls cfg b p t r H), Hc, live. reflexivity.
  - apply (deleteVMInstances_overlap cfg b p live).
  - apply (deleteServiceAccounts_overlap cfg b p live).
Qed.

Lemma disks_one_at_a_time_instances_and_accounts_concurrently_witness :
  dryRun liveConfig = false /\
  In (busyDiskRun, None) (deleteDisks liveConfig busyBackend "p") /\
  calls_of busyDiskRun =
    [EDelete (DeleteDiskRequest "p" "us-central1-a" "disk-1");
     EWait (DeleteDiskRequest "p" "us-central1-a" "disk-1");
     EDelete (DeleteDiskRequest "p" "us-central1-b" "disk-3");
     EWait (DeleteDiskRequest "p" "us-central1-b" "disk-3")] /\
  (exists t, In (t, None) (deleteVMInstances liveConfig busyBackend "p") /\
             overlapping t (DeleteInstanceRequest "p" "us-central1-a" "vm-a")
                           (DeleteInstanceRequest "p" "us-central1-b" "vm-b")) /\
  (exists t, In (t, None) (deleteServiceAccounts liveConfig busyBackend "p") /\
             overlapping t
               (DeleteServiceAccount
                  "projects/p/serviceAccounts/vsa-sa-gcnv-123@proj.iam.gserviceaccount.com")
               (DeleteServiceAccount
                  "projects/p/serviceAccounts/vsa-sa-gcnv-456@proj.iam.gserviceaccount.com")).
Proof.
  destruct (disks_one_at_a_time_instances_and_accounts_concurrently
              liveConfig busyBackend "p" eq_refl) as (_ & Hd & Hv & Hs).
  assert (Hin : In (busyDiskRun, None) (deleteDisks liveConfig busyBackend "p"))
    by (vm_compute; left; reflexivity).
  split; [reflexivity|]. split; [exact Hin|]. split; [|split].
  - destruct (Hd busyDiskRun None Hin) as (_ & Hc). rewrite (Hc eq_refl). reflexivity.
  - exact (Hv _ _ [] eq_refl eq_refl eq_refl).
  - exact (Hs _ _ [] eq_refl eq_refl).
Defined.

(** * The driver *)

Lemma projectsLoop_sequential cfg b l ts :
  Forall2 (fun p tp => In (tp, tt) (cleanupProject cfg b p)) l ts ->
  In (sections l ts, tt) (projectsLoop cfg b l).
Proof.
  induction 1 as [|p tp l ts Hp _ IH]; simpl.
  - now apply in_ret.
  - unfold log_Printf. apply in_emit_bind. exists (tp ++ sections l ts).
    split; [reflexivity|]. apply in_bind. exists tp, tt, (sections l ts). now repeat split.
Qed.

Lemma main_sequential cfg b ts :
  Forall2 (fun p tp => In (tp, tt) (cleanupProject cfg b p)) (projectIDs cfg) ts ->
  In ([ELog "Starting GCP cleanup script (Dry Run: %v)" [ABool (dryRun cfg)];
       ELog "Projects to clean: %v" [AStrs (projectIDs cfg)]]
      ++ sections (projectIDs cfg) ts
      ++ [ELog completeBanner []], tt) (main cfg b).
Proof.
  intros H. unfold main, log_Printf, log_Println.
  apply in_emit_bind. eexists. split; [reflexivity|].
  apply in_emit_bind. eexists. split; [reflexivity|].
  apply in_bind. exists (sections (projectIDs cfg) ts), tt, [ELog completeBanner []].
  repeat split; [now apply projectsLoop_sequential|now apply in_emit].
Qed.

Lemma scenarioMainRun_in : In (scenarioMainRun, tt) (main liveConfig scenarioBackend).
Proof.
  apply (main_sequential liveConfig scenarioBackend [scenarioProjectRun]).
  apply Forall2_cons; [exact scenarioProjectRun_in|apply Forall2_nil].
Qed.



(** * The URL helpers *)

(** Splitting distributes over a separator: the parts of [s ++ sep ++ s']
    are the parts of [s] followed by the parts of [s']. *)
Lemma Split_app s sep s' :
  strings.Split (String.append s (String sep s')) sep =
  strings.Split s sep ++ strings.Split s' sep.
Proof.
  induction s as [|c s IH]; simpl.
  - now rewrite Ascii.eqb_refl.
  - destruct (Ascii.eqb c sep); [now rewrite IH|].
    rewrite IH. pose proof (Split_not_nil s sep).
    destruct (strings.Split s sep); [congruence|reflexivity].
Qed.

Lemma Split_parts_free s sep :
  Forall (fun part => contains_byte sep part = false) (strings.Split s sep).
Proof.
  induction s as [|c s IH]; simpl.
  - repeat constructor.
  - destruct (Ascii.eqb c sep) eqn:Hc; [constructor; [reflexivity|exact IH]|].
    pose proof (Split_not_nil s sep).
    destruct (strings.Split s sep) as [|q qs]; [congruence|].
    inversion IH; subst. constructor; [|assumption]. simpl. now rewrite Hc.
Qed.

(** Joining the parts with the separator gives the string back. *)
Lemma Split_concat s sep :
  String.concat (String sep EmptyString) (strings.Split s sep) = s.
Proof.
  induction s as [|c s IH]; simpl; [reflexivity|].
  destruct (Ascii.eqb c sep) eqn:Hc.
  - apply Ascii.eqb_eq in Hc as ->. pose proof (Split_not_nil s sep).
    destruct (strings.Split s sep) as [|q qs]; [congruence|].
    simpl in *. now rewrite IH.
  - pose proof (Split_not_nil s sep).
    destruct (strings.Split s sep) as [|q qs]; [congruence|].
    destruct qs; simpl in *; now rewrite <- IH.
Qed.

Lemma nth_last_element {A} (l : list A) (x d : A) :
  nth (List.length (l ++ [x]) - 1) (l ++ [x]) d = x.
Proof.
  rewrite length_app. simpl. replace (List.length l + 1 - 1) with (List.length l) by lia.
  rewrite app_nth2 by lia. now rewrite Nat.sub_diag.
Qed.

Lemma extract_eq url :
  extractZoneFromURL url =
  nth (List.length (strings.Split url "/") - 1) (strings.Split url "/") "".
Proof.
  unfold extractZoneFromURL. destruct (String.eqb url "") eqn:E.
  - apply String.eqb_eq in E as ->. reflexivity.
  - pose proof (Split_length url "/") as Hl. apply Nat.ltb_lt in Hl. now rewrite Hl.
Qed.

Lemma extractRegion_eq url : extractRegionFromURL url = extractZoneFromURL url.
Proof. reflexivity. Qed.

Lemma extract_free url : contains_byte "/" (extractZoneFromURL url) = false.
Proof.
  rewrite extract_eq. pose proof (Split_parts_free url "/") as H.
  pose proof (Split_length url "/") as Hl. rewrite Forall_forall in H.
  apply H, nth_In. lia.
Qed.

Lemma extract_whole url : contains_byte "/" url = false -> extractZoneFromURL url = url.
Proof. intros H. rewrite extract_eq, (Split_no_sep url "/" H). reflexivity. Qed.

Lemma extract_last prefix segment :
  contains_byte "/" segment = false ->
  extractZoneFromURL (String.append prefix (String "/" segment)) = segment.
Proof.
  intros H. rewrite extract_eq, Split_app, (Split_no_sep segment "/" H).
  apply nth_last_element.
Qed.

(** X1: for a URL of the form [prefix/segment], where the segment holds no
    slash, [extractZoneFromURL] and [extractRegionFromURL] return the
    segment, whatever the prefix (which may itself hold slashes or be
    empty). *)
Theorem extract_returns_last_segment (prefix segment : string) :
  contains_byte "/" segment = false ->
  extractZoneFromURL (String.append prefix (String "/" segment)) = segment /\
  extractRegionFromURL (String.append prefix (String "/" segment)) = segment.
Proof.
  intros H. split; exact (extract_last prefix segment H).
Qed.

Lemma extract_returns_last_segment_witness :
  contains_byte "/" "us-central1-a" = false /\
  extractZoneFromURL "https://www.googleapis.com/compute/v1/projects/p/zones/us-central1-a"
    = "us-central1-a".
Proof.
  split; [reflexivity|].
  apply (extract_returns_last_segment
           "https://www.googleapis.com/compute/v1/projects/p/zones" "us-central1-a").
  reflexivity.
Defined.

(** X2: the helpers never return a string with a slash; they return a
    string without slash unchanged (the empty string included), so applying
    them twice changes nothing; and a URL ending in a slash gives the empty
    string. *)
Theorem extract_edge_cases (url : string) :
  contains_byte "/" (extractZoneFromURL url) = false /\
  contains_byte "/" (extractRegionFromURL url) = false /\
  (contains_byte "/" url = false ->
   extractZoneFromURL url = url /\ extractRegionFromURL url = url) /\
  extractZoneFromURL (extractZoneFromURL url) = extractZoneFromURL url /\
  extractZoneFromURL (String.append url "/") = "".
Proof.
  split; [apply extract_free|]. split; [exact (extract_free url)|].
  split; [intros H; split; exact (extract_whole url H)|].
  split; [apply extract_whole, extract_free|].
  apply (extract_last url ""). reflexivity.
Qed.

Lemma extract_edge_cases_witness :
  contains_byte "/" "europe-west4" = false /\
  extractZoneFromURL "europe-west4" = "europe-west4" /\
  extractRegionFromURL "europe-west4" = "europe-west4".
Proof.
  split; [reflexivity|].
  destruct (extract_edge_cases "europe-west4") as (_ & _ & H & _). apply H. reflexivity.
Defined.

(** X3: [strings.Split] on a one-byte separator loses nothing: it always
    returns at least one part, no part holds the separator, and joining the
    parts with the separator gives the string back. *)
Theorem Split_round_trip (s : string) (sep : ascii) :
  strings.Split s sep <> [] /\
  Forall (fun part => contains_byte sep part = false) (strings.Split s sep) /\
  String.concat (String sep EmptyString) (strings.Split s sep) = s.
Proof.
  split; [apply Split_not_nil|]. split; [apply Split_parts_free|apply Split_concat].
Qed.

(** * The bucket cleaner *)

Section BucketRuns.
Variable cfg : config.
Variable b : backend.

Let oitem (bucket o : string) : trace := first_run (objectsLoop b bucket [o] 0).

Lemma objectsLoop_run bucket l n :
  objectsLoop b bucket l n =
  [(flat_map (oitem bucket) l, n + List.length (filter (object_deleted b bucket) l))].
Proof.
  revert n. induction l as [|o l IH]; intros n; simpl.
  - now rewrite Nat.add_0_r.
  - unfold oitem, object_deleted. simpl. unfold log_Printf.
    destruct (deleteResult b (DeleteObject bucket o)).
    + rewrite !bind_emit, IH. simpl. reflexivity.
    + rewrite bind_emit, IH. simpl. now rewrite Nat.add_succ_r.
Qed.

Lemma oitem_deletes bucket o : deletes_of (oitem bucket o) = [DeleteObject bucket o].
Proof.
  unfold oitem. simpl. unfold log_Printf.
  destruct (deleteResult b (DeleteObject bucket o)); reflexivity.
Qed.

Let item (attrs : BucketAttrs) : trace := first_run (bucketBody cfg b attrs 0).

(** What the loop body does on a bucket in live mode. *)
Lemma bucketBody_live attrs n :
  dryRun cfg = false ->
  let bucket := BucketName attrs in
  let c := List.length (filter (object_deleted b bucket) (items (objects b bucket))) in
  bucketBody cfg b attrs n =
  [([ELog "  Found Bucket: %s (location: %s, storage class: %s)"
       [AStr bucket; AStr (Location attrs); AStr (StorageClass attrs)];
     ELog "  Deleting objects in bucket %s..." [AStr bucket];
     EList (ListObjects bucket)]
    ++ flat_map (oitem bucket) (items (objects b bucket))
    ++ match final (objects b bucket) with
       | Some err => [ELog "  ERROR listing objects in bucket %s: %v"
                        [AStr bucket; AErr err]]
       | None => []
       end
    ++ (if (0 <? c)%nat then
          [ELog "  Deleted %d objects from bucket %s" [AInt (Z.of_nat c); AStr bucket]]
        else [])
    ++ [EDelete (DeleteBucket bucket);
        match deleteResult b (DeleteBucket bucket) with
        | Some err => ELog "  ERROR deleting bucket %s: %v" [AStr bucket; AErr err]
        | None => ELog "  ✓ Deleted bucket: %s" [AStr bucket]
        end],
    S n)].
Proof.
  intros Hd bucket c. unfold bucketBody. rewrite Hd. simpl negb. cbv iota.
  unfold log_Printf. rewrite objectsLoop_run. repeat run_step.
  simpl (0 + _). fold bucket. fold c.
  destruct (final (objects b bucket));
    destruct (0 <? c)%nat; destruct (deleteResult b (DeleteBucket bucket));
    run_simpl; reflexivity.
Qed.

Lemma bucketBody_dry attrs n :
  dryRun cfg = true ->
  bucketBody cfg b attrs n =
  [([ELog "  Found Bucket: %s (location: %s, storage class: %s)"
       [AStr (BucketName attrs); AStr (Location attrs); AStr (StorageClass attrs)]],
    S n)].
Proof. intros Hd. unfold bucketBody. rewrite Hd. reflexivity. Qed.

Lemma bucketBody_run attrs n : bucketBody cfg b attrs n = [(item attrs, S n)].
Proof.
  unfold item. destruct (dryRun cfg) eqn:Hd.
  - now rewrite !bucketBody_dry.
  - now rewrite !bucketBody_live.
Qed.

Lemma bucketsLoop_run l n :
  bucketsLoop cfg b l n = [(flat_map item l, n + List.length l)].
Proof.
  revert n. induction l as [|a l IH]; intros n; simpl.
  - now rewrite Nat.add_0_r.
  - erewrite bind_run; [|apply bucketBody_run|apply IH].
    simpl. now rewrite Nat.add_succ_r.
Qed.

Lemma bucket_item_deletes attrs :
  deletes_of (item attrs) = if dryRun cfg then [] else bucket_requests b attrs.
Proof.
  unfold item. destruct (dryRun cfg) eqn:Hd.
  - now rewrite bucketBody_dry.
  - rewrite bucketBody_live by assumption. cbn [first_run].
    rewrite !deletes_of_app. cbn [deletes_of app].
    replace (deletes_of (match final (objects b (BucketName attrs)) with
                         | Some _ => _ | None => _ end)) with (@nil delete_req)
      by (destruct (final (objects b (BucketName attrs))); reflexivity).
    replace (deletes_of (if (0 <? _)%nat then _ else _)) with (@nil delete_req)
      by (destruct (0 <? _)%nat; reflexivity).
    unfold bucket_requests. cbn [app]. f_equal.
    + induction (items (objects b (BucketName attrs))) as [|o l IH]; [reflexivity|].
      cbn [flat_map map]. now rewrite deletes_of_app, oitem_deletes, IH.
    + destruct (deleteResult b (DeleteBucket (BucketName attrs))); reflexivity.
Qed.

End BucketRuns.
Section BucketClaims.
Variable cfg : config.
Variable b : backend.
Variable p : string.

Lemma deleteBuckets_no_client err :
  newClient b StorageClient p = Some err ->
  deleteBuckets cfg b p =
  [([ELog "[%s] Checking storage buckets..." [AStr p]; ENewClient StorageClient],
    Some (Errorf "failed to create storage client: %w" err))].
Proof. intros Hc. unfold deleteBuckets. rewrite Hc. reflexivity. Qed.

(** The whole run of the bucket cleaner once its client exists. *)
Lemma deleteBuckets_run :
  newClient b StorageClient p = None ->
  let n := List.length (items (buckets b p)) in
  deleteBuckets cfg b p =
  [([ELog "[%s] Checking storage buckets..." [AStr p]; ENewClient StorageClient;
     EList (ListBuckets p)]
    ++ flat_map (fun attrs => first_run (bucketBody cfg b attrs 0)) (items (buckets b p))
    ++ match final (buckets b p) with
       | Some _ => []
       | None =>
           if (n =? 0)%nat then [ELog "[%s] No buckets found" [AStr p]]
           else if dryRun cfg then
             [ELog "[%s] Would delete %d buckets" [AStr p; AInt (Z.of_nat n)]]
           else []
       end
    ++ [EClose StorageClient],
    match final (buckets b p) with
    | Some err => Some (Errorf "error listing buckets: %w" err)
    | None => None
    end)].
Proof.
  intros Hc. unfold deleteBuckets. rewrite Hc, bucketsLoop_run.
  destruct (final (buckets b p)) as [err|] eqn:Hf; [run_simpl; reflexivity|].
  simpl. destruct (items (buckets b p)) as [|a0 l0] eqn:Hn; [run_simpl; reflexivity|].
  destruct (dryRun cfg) eqn:Hd; run_simpl; reflexivity.
Qed.

Lemma deleteBuckets_deletes_eq t r :
  In (t, r) (deleteBuckets cfg b p) ->
  deletes_of t =
  match newClient b StorageClient p with
  | Some _ => []
  | None => if dryRun cfg then [] else flat_map (bucket_requests b) (items (buckets b p))
  end.
Proof.
  intros H. destruct (newClient b StorageClient p) as [err|] eqn:Hc.
  - rewrite (deleteBuckets_no_client err Hc) in H. destruct H as [E|[]].
    injection E as <- _. reflexivity.
  - rewrite (deleteBuckets_run Hc) in H. destruct H as [E|[]]. injection E as <- _.
    cbn [deletes_of]. rewrite !deletes_of_app.
    replace (deletes_of (match final (buckets b p) with Some _ => [] | None => _ end))
      with (@nil delete_req)
      by (destruct (final (buckets b p)); [|destruct (_ =? _)%nat; [|destruct (dryRun cfg)]];
          reflexivity).
    cbn [deletes_of app]. rewrite app_nil_r.
    induction (items (buckets b p)) as [|a l IH]; [now destruct (dryRun cfg)|].
    cbn [flat_map]. rewrite deletes_of_app, IH, bucket_item_deletes.
    destruct (dryRun cfg); reflexivity.
Qed.

End BucketClaims.

Lemma deleteBuckets_emits cfg b p :
  always (Forall (emits cfg p CBuckets)) (deleteBuckets cfg b p).
Proof.
  assert (Ho : dryRun cfg = false -> forall bucket l n,
             always (Forall (emits cfg p CBuckets)) (objectsLoop b bucket l n)).
  { intros Hd bucket. induction l as [|o l IH]; intros n; simpl;
      all_events ltac:(apply IH); emits_done. }
  assert (Hb : forall attrs n,
             always (Forall (emits cfg p CBuckets)) (bucketBody cfg b attrs n)).
  { intros attrs n. unfold bucketBody. all_events ltac:(apply Ho); emits_done. }
  assert (Hl : forall l n, always (Forall (emits cfg p CBuckets)) (bucketsLoop cfg b l n)).
  { induction l as [|a l IH]; intros n; simpl;
      all_events ltac:(first [apply Hb|apply IH]). }
  unfold deleteBuckets. all_events ltac:(apply Hl); emits_done.
Qed.

Lemma bucket_item_dry_shape cfg b attrs e :
  dryRun cfg = true ->
  In e (first_run (bucketBody cfg b attrs 0)) ->
  e = ELog "  Found Bucket: %s (location: %s, storage class: %s)"
        [AStr (BucketName attrs); AStr (Location attrs); AStr (StorageClass attrs)].
Proof.
  intros Hd. rewrite (bucketBody_dry cfg b attrs 0 Hd). intros [E|[]]. now symmetry.
Qed.

(** X4: with the dry-run flag set, a run of [deleteBuckets] deletes nothing
    and does not even list the objects of a bucket; when it prints the
    would-delete line, the number is the number of buckets listed. *)
Theorem deleteBuckets_dry_run_only_counts (cfg : config) (b : backend) (p : string)
    (t : trace) (r : option error) :
  dryRun cfg = true ->
  In (t, r) (deleteBuckets cfg b p) ->
  deletes_of t = [] /\
  (forall bucket, ~ In (EList (ListObjects bucket)) t) /\
  (forall n, In (ELog "[%s] Would delete %d buckets" [AStr p; AInt n]) t ->
     n = Z.of_nat (List.length (items (buckets b p)))).
Proof.
  intros Hd H. split.
  { rewrite (deleteBuckets_deletes_eq cfg b p t r H), Hd.
    now destruct (newClient b StorageClient p). }
  destruct (newClient b StorageClient p) as [err|] eqn:Hc.
  - rewrite (deleteBuckets_no_client cfg b p err Hc) in H. destruct H as [E|[]].
    injection E as <- _. split; [intros bucket|intros n]; simpl; intuition discriminate.
  - rewrite (deleteBuckets_run cfg b p Hc) in H. destruct H as [E|[]]. injection E as <- _.
    assert (Hitems : forall e,
               In e (flat_map (fun attrs => first_run (bucketBody cfg b attrs 0))
                       (items (buckets b p))) ->
               exists attrs,
                 e = ELog "  Found Bucket: %s (location: %s, storage class: %s)"
                       [AStr (BucketName attrs); AStr (Location attrs);
                        AStr (StorageClass attrs)]).
    { intros e He. apply in_flat_map in He as (attrs & _ & He).
      exists attrs. now apply (bucket_item_dry_shape cfg b attrs e Hd). }
    split.
    + intros bucket Hin. destruct Hin as [E|[E|[E|Hin]]]; try discriminate.
      apply in_app_or in Hin as [Hin|Hin]; [destruct (Hitems _ Hin); discriminate|].
      apply in_app_or in Hin as [Hin|Hin]; [|simpl in Hin; intuition discriminate].
      destruct (final (buckets b p)); [destruct Hin|].
      destruct (_ =? 0)%nat; [simpl in Hin; intuition discriminate|].
      rewrite Hd in Hin. simpl in Hin. intuition discriminate.
    + intros n Hin. destruct Hin as [E|[E|[E|Hin]]]; try discriminate.
      apply in_app_or in Hin as [Hin|Hin]; [destruct (Hitems _ Hin); discriminate|].
      apply in_app_or in Hin as [Hin|Hin]; [|simpl in Hin; intuition discriminate].
      destruct (final (buckets b p)); [destruct Hin|].
      destruct (_ =? 0)%nat; [simpl in Hin; intuition discriminate|].
      rewrite Hd in Hin. destruct Hin as [E|[]]. now injection E.
Qed.

Lemma deleteBuckets_dry_run_only_counts_witness :
  dryRun dryConfig = true /\
  In (scenarioBucketDryRun, None) (deleteBuckets dryConfig scenarioBackend "p") /\
  deletes_of scenarioBucketDryRun = [] /\
  In (ELog "[%s] Would delete %d buckets" [AStr "p"; AInt 1]) scenarioBucketDryRun.
Proof.
  assert (Hin : In (scenarioBucketDryRun, None) (deleteBuckets dryConfig scenarioBackend "p"))
    by (vm_compute; left; reflexivity).
  split; [reflexivity|]. split; [exact Hin|]. split.
  - apply (deleteBuckets_dry_run_only_counts dryConfig scenarioBackend "p"
             scenarioBucketDryRun None eq_refl Hin).
  - vm_compute. tauto.
Defined.

(** X5: in live mode, once the storage client exists, the delete calls of a
    run of [deleteBuckets] are, for each listed bucket in order, one call per
    listed object and then the call for the bucket.  This holds whichever
    calls fail: a refused object does not stop the others, and the bucket
    delete is attempted even if objects remain or their listing failed.  No
    call is followed by an operation wait. *)
Theorem deleteBuckets_empties_then_deletes (cfg : config) (b : backend) (p : string)
    (t : trace) (r : option error) :
  dryRun cfg = false ->
  newClient b StorageClient p = None ->
  In (t, r) (deleteBuckets cfg b p) ->
  deletes_of t = flat_map (bucket_requests b) (items (buckets b p)) /\
  calls_of t = map EDelete (flat_map (bucket_requests b) (items (buckets b p))).
Proof.
  intros Hd Hc H.
  assert (E : deletes_of t = flat_map (bucket_requests b) (items (buckets b p))).
  { rewrite (deleteBuckets_deletes_eq cfg b p t r H), Hc, Hd. reflexivity. }
  split; [exact E|]. rewrite <- E.
  assert (Hw : Forall (fun e => forall q, e <> EWait q) t).
  { eapply Forall_impl; [|exact (deleteBuckets_emits cfg b p t r H)].
    intros e He q ->. simpl in He. destruct He as (_ & Hk & Ho & _).
    destruct q; simpl in *; discriminate. }
  clear - Hw. induction Hw as [|e t He _ IH]; [reflexivity|].
  destruct e; simpl; rewrite ?IH; try reflexivity. now contradiction (He r).
Qed.

Lemma deleteBuckets_empties_then_deletes_witness :
  In (scenarioBucketRun, None) (deleteBuckets liveConfig scenarioBackend "p") /\
  deletes_of scenarioBucketRun = [DeleteObject "bkt" "obj"; DeleteBucket "bkt"].
Proof.
  assert (Hin : In (scenarioBucketRun, None) (deleteBuckets liveConfig scenarioBackend "p"))
    by (vm_compute; left; reflexivity).
  split; [exact Hin|].
  destruct (deleteBuckets_empties_then_deletes liveConfig scenarioBackend "p"
              scenarioBucketRun None eq_refl eq_refl Hin) as (E & _).
  rewrite E. reflexivity.
Defined.

(** X6: in live mode the loop body of [deleteBuckets] reports the number of
    objects it deleted exactly when at least one object delete was accepted,
    and the number is the number of accepted object deletes: refused ones are
    not counted. *)
Theorem deleted_objects_are_counted (cfg : config) (b : backend) (attrs : BucketAttrs)
    (n : nat) (t : trace) (k : nat) :
  dryRun cfg = false ->
  In (t, k) (bucketBody cfg b attrs n) ->
  let bucket := BucketName attrs in
  let c := List.length (filter (object_deleted b bucket) (items (objects b bucket))) in
  k = S n /\
  (0 < c -> In (ELog "  Deleted %d objects from bucket %s" [AInt (Z.of_nat c); AStr bucket]) t) /\
  (forall m, In (ELog "  Deleted %d objects from bucket %s" [AInt m; AStr bucket]) t ->
     m = Z.of_nat c /\ 0 < c).
Proof.
  intros Hd H bucket c. rewrite (bucketBody_live cfg b attrs n Hd) in H.
  destruct H as [E|[]]. injection E as <- <-. fold bucket. fold c.
  split; [reflexivity|]. split.
  - intros Hc. apply Nat.ltb_lt in Hc. rewrite Hc.
    cbn [In app]. rewrite !in_app_iff. cbn [In]. tauto.
  - intros m Hin. destruct Hin as [E|[E|[E|Hin]]]; try discriminate.
    apply in_app_or in Hin as [Hin|Hin].
    { apply in_flat_map in Hin as (o & _ & Ho). simpl in Ho. unfold log_Printf in Ho.
      destruct (deleteResult b (DeleteObject bucket o)); simpl in Ho; intuition discriminate. }
    apply in_app_or in Hin as [Hin|Hin].
    { destruct (final (objects b bucket)); simpl in Hin; intuition discriminate. }
    apply in_app_or in Hin as [Hin|Hin].
    + destruct (0 <? c)%nat eqn:Hc; [|destruct Hin].
      destruct Hin as [E|[]]. injection E as <-. split; [reflexivity|now apply Nat.ltb_lt].
    + destruct (deleteResult b (DeleteBucket bucket)); simpl in Hin; intuition discriminate.
Qed.

Lemma deleted_objects_are_counted_witness :
  dryRun liveConfig = false /\
  In (scenarioBucketBodyRun, 1) (bucketBody liveConfig scenarioBackend scenarioBucket 0) /\
  In (ELog "  Deleted %d objects from bucket %s" [AInt 1; AStr "bkt"]) scenarioBucketBodyRun.
Proof.
  assert (Hin : In (scenarioBucketBodyRun, 1)
                   (bucketBody liveConfig scenarioBackend scenarioBucket 0))
    by (vm_compute; left; reflexivity).
  split; [reflexivity|]. split; [exact Hin|].
  destruct (deleted_objects_are_counted liveConfig scenarioBackend scenarioBucket 0
              scenarioBucketBodyRun 1 eq_refl Hin) as (_ & H & _).
  apply H. vm_compute. lia.
Defined.

(** * Results of the cleaners *)

Lemma bind_result {A B} (m : M A) (f : A -> M B) t r :
  In (t, r) (bind m f) -> exists a t2, In (t2, r) (f a).
Proof. intros H. apply in_bind in H as (t1 & a & t2 & _ & H & _). eauto. Qed.

Lemma emit_result {B} e (f : unit -> M B) t r :
  In (t, r) (bind (emit e) f) -> exists t2, In (t2, r) (f tt).
Proof. intros H. apply in_emit_bind in H as (t2 & _ & H). eauto. Qed.

Section Results.
Variable cfg : config.
Variable b : backend.
Variable p : string.

Lemma deleteVMInstances_result t r :
  In (t, r) (deleteVMInstances cfg b p) -> r = vmResult b p.
Proof.
  unfold deleteVMInstances, vmResult, log_Printf. intros H.
  apply emit_result in H as (t1 & H). apply emit_result in H as (t2 & H).
  destruct (newClient b InstancesRESTClient p); [now apply in_ret in H|].
  rewrite bind_then_emit in H. apply in_map_iff in H as ([t0 r0] & E & H).
  injection E as _ <-. apply emit_result in H as (t3 & H).
  apply bind_result in H as (found & t4 & H).
  destruct (final (instances b p)); [now apply in_ret in H|].
  destruct (_ =? 0)%nat.
  { apply emit_result in H as (t5 & H). now apply in_ret in H. }
  destruct (dryRun cfg).
  { apply emit_result in H as (t5 & H). now apply in_ret in H. }
  apply emit_result in H as (t5 & H). apply bind_result in H as (u & t6 & H).
  apply emit_result in H as (t7 & H). now apply in_ret in H.
Qed.

Lemma deleteDisks_result t r :
  In (t, r) (deleteDisks cfg b p) -> r = disksResult b p.
Proof.
  unfold disksResult. intros H. destruct (newClient b DisksRESTClient p) as [err|] eqn:Hc.
  - rewrite (deleteDisks_no_client cfg b p err Hc) in H. destruct H as [E|[]].
    now injection E as _ <-.
  - rewrite (deleteDisks_run cfg b p Hc) in H. destruct H as [E|[]]. now injection E as _ <-.
Qed.

Lemma releaseStaticIPs_result t r :
  In (t, r) (releaseStaticIPs cfg b p) -> r = addressesResult b p.
Proof.
  unfold addressesResult. intros H.
  destruct (newClient b AddressesRESTClient p) as [err|] eqn:Hc.
  - rewrite (releaseStaticIPs_no_client cfg b p err Hc) in H. destruct H as [E|[]].
    now injection E as _ <-.
  - rewrite (releaseStaticIPs_run cfg b p Hc) in H. destruct H as [E|[]].
    now injection E as _ <-.
Qed.

Lemma deleteServiceAccounts_result t r :
  In (t, r) (deleteServiceAccounts cfg b p) -> r = accountsResult b p.
Proof.
  unfold deleteServiceAccounts, accountsResult, log_Printf. intros H.
  apply emit_result in H as (t1 & H). apply emit_result in H as (t2 & H).
  destruct (newClient b IAMService p); [now apply in_ret in H|].
  apply emit_result in H as (t3 & H).
  destruct (serviceAccounts b (String.append "projects/" p)) as [accounts|err];
    [|now apply in_ret in H].
  rewrite filterAccounts_run, bind_single in H. apply in_map_iff in H as ([t0 r0] & E & H).
  injection E as _ <-. cbn [snd] in H.
  destruct (_ =? 0)%nat.
  { apply emit_result in H as (t5 & H). now apply in_ret in H. }
  destruct (dryRun cfg).
  { apply emit_result in H as (t5 & H). now apply in_ret in H. }
  apply emit_result in H as (t5 & H). apply bind_result in H as (u & t6 & H).
  apply emit_result in H as (t7 & H). now apply in_ret in H.
Qed.

Lemma deleteBuckets_result t r :
  In (t, r) (deleteBuckets cfg b p) -> r = bucketsResult b p.
Proof.
  unfold bucketsResult. intros H. destruct (newClient b StorageClient p) as [err|] eqn:Hc.
  - rewrite (deleteBuckets_no_client cfg b p err Hc) in H. destruct H as [E|[]].
    now injection E as _ <-.
  - rewrite (deleteBuckets_run cfg b p Hc) in H. destruct H as [E|[]]. now injection E as _ <-.
Qed.

End Results.

(** X7: a cleaner returns an error exactly when the construction of its
    client or its listing failed, and then that failure wrapped; whether
    deletes or waits fail, and the dry-run flag, make no difference.  In
    [releaseStaticIPs] a failure of the global listing is not returned
    either. *)
Theorem cleaner_returns_only_setup_errors (cfg : config) (b : backend) (p : string)
    (t : trace) (r : option error) :
  (In (t, r) (deleteVMInstances cfg b p) -> r = vmResult b p) /\
  (In (t, r) (deleteDisks cfg b p) -> r = disksResult b p) /\
  (In (t, r) (releaseStaticIPs cfg b p) -> r = addressesResult b p) /\
  (In (t, r) (deleteServiceAccounts cfg b p) -> r = accountsResult b p) /\
  (In (t, r) (deleteBuckets cfg b p) -> r = bucketsResult b p).
Proof.
  repeat split.
  - apply deleteVMInstances_result.
  - apply deleteDisks_result.
  - apply releaseStaticIPs_result.
  - apply deleteServiceAccounts_result.
  - apply deleteBuckets_result.
Qed.

Lemma cleaner_returns_only_setup_errors_witness :
  (In (mixedDiskRun, None) (deleteDisks liveConfig mixedBackend "p") /\
   deleteResult mixedBackend (diskRequest "p" freeDisk) <> None /\
   disksResult mixedBackend "p" = None) /\
  vmResult scenarioBackend "p" = None /\
  addressesResult scenarioBackend "p" = None /\
  accountsResult scenarioBackend "p" = None /\
  bucketsResult scenarioBackend "p" = None.
Proof.
  assert (Hd : In (mixedDiskRun, None) (deleteDisks liveConfig mixedBackend "p"))
    by (vm_compute; left; reflexivity).
  assert (Hv : In (scenarioVMRun, None) (deleteVMInstances liveConfig scenarioBackend "p"))
    by (vm_compute; left; reflexivity).
  assert (Ha : In (scenarioAddressRun, None)
                 (releaseStaticIPs liveConfig scenarioBackend "p"))
    by (vm_compute; left; reflexivity).
  assert (Hs : In (scenarioAccountRun, None)
                 (deleteServiceAccounts liveConfig scenarioBackend "p"))
    by (vm_compute; left; reflexivity).
  assert (Hb : In (scenarioBucketRun, None) (deleteBuckets liveConfig scenarioBackend "p"))
    by (vm_compute; left; reflexivity).
  split; [|split; [|split; [|split]]].
  - split; [exact Hd|]. split; [discriminate|].
    destruct (cleaner_returns_only_setup_errors liveConfig mixedBackend "p" mixedDiskRun
                None) as (_ & H & _).
    symmetry. exact (H Hd).
  - destruct (cleaner_returns_only_setup_errors liveConfig scenarioBackend "p"
                scenarioVMRun None) as (H & _).
    symmetry. exact (H Hv).
  - destruct (cleaner_returns_only_setup_errors liveConfig scenarioBackend "p"
                scenarioAddressRun None) as (_ & _ & H & _).
    symmetry. exact (H Ha).
  - destruct (cleaner_returns_only_setup_errors liveConfig scenarioBackend "p"
                scenarioAccountRun None) as (_ & _ & _ & H & _).
    symmetry. exact (H Hs).
  - destruct (cleaner_returns_only_setup_errors liveConfig scenarioBackend "p"
                scenarioBucketRun None) as (_ & _ & _ & _ & H).
    symmetry. exact (H Hb).
Defined.

(** * Listings that fail *)

Section ListingFailures.
Variable cfg : config.
Variable b : backend.
Variable p : string.

(** The run of the instance cleaner whose listing fails: the instances
    yielded before the failure are logged and nothing else is done. *)
Lemma deleteVMInstances_listing_failed err :
  newClient b InstancesRESTClient p = None ->
  final (instances b p) = Some err ->
  deleteVMInstances cfg b p =
  [([ELog "[%s] Checking VM instances..." [AStr p]; ENewClient InstancesRESTClient;
     EList (AggregatedListInstancesRequest p)]
    ++ map foundInstance (listed_instances b p)
    ++ [EClose InstancesRESTClient],
    Some (Errorf "error listing instances: %w" err))].
Proof.
  intros Hc Hf. unfold deleteVMInstances, listed_instances, foundInstance.
  rewrite Hc, Hf, bind_then_emit, collectInstances_run, bind_single.
  run_simpl. reflexivity.
Qed.

Lemma no_global_event_in_items t :
  (forall e, In e t -> exists a, In e (first_run (addressBody cfg b p a 0))) ->
  ~ In (ENewClient GlobalAddressesRESTClient) t /\
  ~ In (EList (ListGlobalAddressesRequest p)) t /\
  (forall a, ~ In (EDelete (globalRequest p a)) t).
Proof.
  intros H.
  assert (Hb : forall a e, In e (first_run (addressBody cfg b p a 0)) ->
                 match e with
                 | ENewClient _ | EList _ | EDelete (DeleteGlobalAddressRequest _ _) => False
                 | _ => True
                 end).
  { intros a e. unfold addressBody, log_Printf.
    destruct (String.eqb (AddressStatus a) "IN_USE");
      [|destruct (negb (dryRun cfg));
        [destruct (deleteResult b _); [|destruct (waitResult b _)]|]];
      simpl; intros Hin; repeat destruct Hin as [<-|Hin]; try exact I; destruct Hin. }
  repeat split; [intros Hin|intros Hin|intros a Hin];
    destruct (H _ Hin) as (a' & Ha); exact (Hb a' _ Ha).
Qed.

End ListingFailures.

(** X8: when the listing of instances fails, the instances it had yielded
    are logged but none is deleted, in either mode: the run is the listing,
    the found lines and the close.  The disk and address cleaners delete
    while they iterate: in live mode the candidates yielded before the
    failure have had their delete call, no summary line is printed, and the
    address cleaner never reaches the global addresses. *)
Theorem listing_failure_spares_instances_only (cfg : config) (b : backend) (p : string)
    (err : error) (t : trace) (r : option error) :
  (newClient b InstancesRESTClient p = None -> final (instances b p) = Some err ->
   In (t, r) (deleteVMInstances cfg b p) ->
   t = [ELog "[%s] Checking VM instances..." [AStr p]; ENewClient InstancesRESTClient;
        EList (AggregatedListInstancesRequest p)]
       ++ map foundInstance (listed_instances b p)
       ++ [EClose InstancesRESTClient] /\
   deletes_of t = []) /\
  (newClient b DisksRESTClient p = None -> final (disks b p) = Some err ->
   dryRun cfg = false -> In (t, r) (deleteDisks cfg b p) ->
   deletes_of t = map (diskRequest p) (filter unattached (listed_disks b p)) /\
   ~ In (ELog "[%s] No unattached disks found" [AStr p]) t) /\
  (newClient b AddressesRESTClient p = None -> final (addresses b p) = Some err ->
   dryRun cfg = false -> In (t, r) (releaseStaticIPs cfg b p) ->
   deletes_of t = map (addressRequest p) (filter releasable (listed_addresses b p)) /\
   ~ In (ENewClient GlobalAddressesRESTClient) t /\
   ~ In (EList (ListGlobalAddressesRequest p)) t /\
   forall a, ~ In (EDelete (globalRequest p a)) t).
Proof.
  split; [|split].
  - intros Hc Hf H. rewrite (deleteVMInstances_listing_failed cfg b p err Hc Hf) in H.
    destruct H as [E|[]]. injection E as <- _. split; [reflexivity|].
    cbn [app deletes_of]. rewrite deletes_of_app.
    replace (deletes_of (map foundInstance (listed_instances b p))) with (@nil delete_req)
      by (induction (listed_instances b p); simpl; auto).
    reflexivity.
  - intros Hc Hf Hd H. split.
    + rewrite (deleteDisks_deletes cfg b p t r H), Hc, Hd. reflexivity.
    + rewrite (deleteDisks_run cfg b p Hc), Hf in H. destruct H as [E|[]].
      injection E as <- _. cbn [app In]. rewrite in_app_iff.
      intros [E|[E|[E|[Hin|[E|[]]]]]]; try discriminate.
      apply in_flat_map in Hin as (d & _ & Hin). revert Hin.
      unfold diskBody, log_Printf.
      destruct (0 <? List.length (DiskUsers d))%nat;
        [|destruct (negb (dryRun cfg));
          [destruct (deleteResult b _); [|destruct (waitResult b _)]|]];
        simpl; intuition discriminate.
  - intros Hc Hf Hd H. rewrite (releaseStaticIPs_run cfg b p Hc), Hf in H.
    destruct H as [E|[]]. injection E as <- _. split.
    + cbn [app deletes_of]. rewrite !deletes_of_app. cbn [deletes_of]. rewrite app_nil_r.
      rewrite <- deletes_of_calls, calls_of_flat_map.
      rewrite (flat_map_filter releasable _
                 (fun a => call_and_wait b (addressRequest p a))).
      * rewrite deletes_of_call_and_wait. reflexivity.
      * intros a. unfold addressBody, releasable, in_use, call_and_wait, addressRequest,
          log_Printf.
        destruct (String.eqb (AddressStatus a) "IN_USE"); [reflexivity|].
        rewrite Hd. simpl. destruct (deleteResult b _); [reflexivity|].
        destruct (waitResult b _); reflexivity.
    + cbn [app]. 
      assert (Hitems := no_global_event_in_items cfg b p
                (flat_map (fun a => first_run (addressBody cfg b p a 0))
                   (listed_addresses b p))).
      destruct Hitems as (H1 & H2 & H3).
      { intros e Hin. apply in_flat_map in Hin as (a & _ & Hin). eauto. }
      repeat split; [intros Hin|intros Hin|intros a Hin];
        cbn [In] in Hin; rewrite in_app_iff in Hin;
        destruct Hin as [E|[E|[E|[Hin|[E|[]]]]]]; try discriminate;
        [exact (H1 Hin)|exact (H2 Hin)|exact (H3 a Hin)].
Qed.

Lemma listing_failure_spares_instances_only_witness :
  (listed_instances faultyBackend "p" <> [] /\
   In (faultyVMRun, Some (Errorf "error listing instances: %w" quotaError))
     (deleteVMInstances liveConfig faultyBackend "p") /\
   deletes_of faultyVMRun = []) /\
  (In (faultyDiskRun, Some (Errorf "error listing disks: %w" quotaError))
     (deleteDisks liveConfig faultyBackend "p") /\
   deletes_of faultyDiskRun = [diskRequest "p" freeDisk]) /\
  (In (faultyAddressRun, Some (Errorf "error listing addresses: %w" quotaError))
     (releaseStaticIPs liveConfig faultyBackend "p") /\
   deletes_of faultyAddressRun = [addressRequest "p" reservedAddress] /\
   ~ In (EList (ListGlobalAddressesRequest "p")) faultyAddressRun).
Proof.
  assert (Hv : In (faultyVMRun, Some (Errorf "error listing instances: %w" quotaError))
                 (deleteVMInstances liveConfig faultyBackend "p"))
    by (vm_compute; left; reflexivity).
  assert (Hd : In (faultyDiskRun, Some (Errorf "error listing disks: %w" quotaError))
                 (deleteDisks liveConfig faultyBackend "p"))
    by (vm_compute; left; reflexivity).
  assert (Ha : In (faultyAddressRun, Some (Errorf "error listing addresses: %w" quotaError))
                 (releaseStaticIPs liveConfig faultyBackend "p"))
    by (vm_compute; left; reflexivity).
  split; [|split].
  - split; [discriminate|]. split; [exact Hv|].
    destruct (listing_failure_spares_instances_only liveConfig faultyBackend "p" quotaError
                faultyVMRun (Some (Errorf "error listing instances: %w" quotaError)))
      as (H & _).
    exact (proj2 (H eq_refl eq_refl Hv)).
  - split; [exact Hd|].
    destruct (listing_failure_spares_instances_only liveConfig faultyBackend "p" quotaError
                faultyDiskRun (Some (Errorf "error listing disks: %w" quotaError)))
      as (_ & H & _).
    exact (proj1 (H eq_refl eq_refl eq_refl Hd)).
  - split; [exact Ha|].
    destruct (listing_failure_spares_instances_only liveConfig faultyBackend "p" quotaError
                faultyAddressRun (Some (Errorf "error listing addresses: %w" quotaError)))
      as (_ & _ & H).
    destruct (H eq_refl eq_refl eq_refl Ha) as (H1 & _ & H2 & _).
    split; [exact H1|exact H2].
Defined.

(** * Clients are closed on every path *)

Lemma no_client_nil t : Forall no_client t -> clients_of t = [] /\ closes_of t = [].
Proof.
  induction 1 as [|e t He _ [IH1 IH2]]; [now split|].
  destruct e; simpl in *; try contradiction; now split.
Qed.

Lemma clients_of_app t1 t2 : clients_of (t1 ++ t2) = clients_of t1 ++ clients_of t2.
Proof.
  induction t1 as [|e t1 IH]; [reflexivity|].
  destruct e; simpl; rewrite ?IH; reflexivity.
Qed.

Lemma closes_of_app t1 t2 : closes_of (t1 ++ t2) = closes_of t1 ++ closes_of t2.
Proof.
  induction t1 as [|e t1 IH]; [reflexivity|].
  destruct e; simpl; rewrite ?IH; reflexivity.
Qed.

Ltac no_client_done := simpl; auto.

Section Clients.
Variable cfg : config.
Variable b : backend.
Variable p : string.

Lemma collectInstances_no_client pairs l :
  always (Forall no_client) (collectInstances pairs l).
Proof.
  rewrite collectInstances_run. intros t a [E|[]]. injection E as <- _.
  apply Forall_forall. intros e He. apply in_map_iff in He as (i & <- & _). exact I.
Qed.

Lemma disksLoop_no_client pairs n : always (Forall no_client) (disksLoop cfg b p pairs n).
Proof.
  assert (Hb : forall d k, always (Forall no_client) (diskBody cfg b p d k)).
  { intros d k. unfold diskBody. all_events fail; no_client_done. }
  assert (Hp : forall l k, always (Forall no_client) (disksPair cfg b p l k)).
  { induction l as [|d l IH]; intros k; simpl; all_events ltac:(first [apply Hb|apply IH]). }
  revert n. induction pairs as [|l pairs IH]; intros n; simpl;
    all_events ltac:(first [apply Hp|apply IH]).
Qed.

Lemma addressesLoop_no_client pairs n :
  always (Forall no_client) (addressesLoop cfg b p pairs n).
Proof.
  assert (Hb : forall d k, always (Forall no_client) (addressBody cfg b p d k)).
  { intros d k. unfold addressBody. all_events fail; no_client_done. }
  assert (Hp : forall l k, always (Forall no_client) (addressesPair cfg b p l k)).
  { induction l as [|d l IH]; intros k; simpl; all_events ltac:(first [apply Hb|apply IH]). }
  revert n. induction pairs as [|l pairs IH]; intros n; simpl;
    all_events ltac:(first [apply Hp|apply IH]).
Qed.

Lemma globalLoop_no_client l n : always (Forall no_client) (globalLoop cfg b p l n).
Proof.
  assert (Hb : forall d k, always (Forall no_client) (globalBody cfg b p d k)).
  { intros d k. unfold globalBody. all_events fail; no_client_done. }
  revert n. induction l as [|d l IH]; intros n; simpl;
    all_events ltac:(first [apply Hb|apply IH]).
Qed.

Lemma bucketsLoop_no_client l n : always (Forall no_client) (bucketsLoop cfg b l n).
Proof.
  assert (Ho : forall bucket objs k, always (Forall no_client) (objectsLoop b bucket objs k)).
  { intros bucket. induction objs as [|o objs IH]; intros k; simpl;
      all_events ltac:(apply IH); no_client_done. }
  assert (Hb : forall attrs k, always (Forall no_client) (bucketBody cfg b attrs k)).
  { intros attrs k. unfold bucketBody. all_events ltac:(apply Ho); no_client_done. }
  revert n. induction l as [|attrs l IH]; intros n; simpl;
    all_events ltac:(first [apply Hb|apply IH]).
Qed.

Lemma filterAccounts_no_client l acc : always (Forall no_client) (filterAccounts l acc).
Proof.
  rewrite filterAccounts_run. intros t a [E|[]]. injection E as <- _.
  apply Forall_forall. intros e He. apply in_map_iff in He as (i & <- & _). exact I.
Qed.

(** A cleaner with one client: the attempt to create it, then, if that
    succeeded, events that touch no client and the close. *)
Ltac one_client Hc loops :=
  let H := fresh "H" in
  intros H; unfold log_Printf in H;
  apply in_emit_bind in H as (? & -> & H); apply in_emit_bind in H as (? & -> & H);
  rewrite Hc in H; rewrite bind_then_emit in H;
  apply in_map_iff in H as ([? ?] & E & H); injection E as <- _; cbn [fst];
  eexists; split; [|reflexivity];
  revert H;
  match goal with
  | |- In (?t0, ?r0) ?X -> _ =>
      let HX := fresh "HX" in
      assert (HX : always (Forall no_client) X)
        by (all_events loops; no_client_done);
      intros H; exact (HX _ _ H)
  end.

Lemma deleteVMInstances_clients t r :
  newClient b InstancesRESTClient p = None ->
  In (t, r) (deleteVMInstances cfg b p) ->
  exists t0, Forall no_client t0 /\
    t = ELog "[%s] Checking VM instances..." [AStr p] :: ENewClient InstancesRESTClient
        :: t0 ++ [EClose InstancesRESTClient].
Proof.
  intros Hc. unfold deleteVMInstances, deleteInstanceTask.
  one_client Hc ltac:(apply collectInstances_no_client).
Qed.

Lemma deleteDisks_clients t r :
  newClient b DisksRESTClient p = None ->
  In (t, r) (deleteDisks cfg b p) ->
  exists t0, Forall no_client t0 /\
    t = ELog "[%s] Checking disks..." [AStr p] :: ENewClient DisksRESTClient
        :: t0 ++ [EClose DisksRESTClient].
Proof.
  intros Hc. unfold deleteDisks. one_client Hc ltac:(apply disksLoop_no_client).
Qed.

Lemma deleteBuckets_clients t r :
  newClient b StorageClient p = None ->
  In (t, r) (deleteBuckets cfg b p) ->
  exists t0, Forall no_client t0 /\
    t = ELog "[%s] Checking storage buckets..." [AStr p] :: ENewClient StorageClient
        :: t0 ++ [EClose StorageClient].
Proof.
  intros Hc. unfold deleteBuckets. one_client Hc ltac:(apply bucketsLoop_no_client).
Qed.

Lemma deleteServiceAccounts_clients t r :
  In (t, r) (deleteServiceAccounts cfg b p) ->
  exists t0, Forall no_client t0 /\
    t = ELog "[%s] Checking service accounts..." [AStr p] :: ENewClient IAMService :: t0.
Proof.
  unfold deleteServiceAccounts, deleteAccountTask, log_Printf. intros H.
  apply in_emit_bind in H as (? & -> & H). apply in_emit_bind in H as (? & -> & H).
  eexists. split; [|reflexivity]. revert H.
  match goal with
  | |- In (?t0, ?r0) ?X -> _ =>
      assert (HX : always (Forall no_client) X)
        by (all_events ltac:(apply filterAccounts_no_client); no_client_done);
      intros H; exact (HX _ _ H)
  end.
Qed.

(** The address cleaner has two clients; the second is created after the
    regional loop and closed first. *)
Lemma releaseStaticIPs_clients t r :
  newClient b AddressesRESTClient p = None ->
  In (t, r) (releaseStaticIPs cfg b p) ->
  exists t1 t2, Forall no_client t1 /\ Forall no_client t2 /\
    t = ELog "[%s] Checking static IP addresses..." [AStr p]
        :: ENewClient AddressesRESTClient
        :: t1
        ++ match final (addresses b p) with
           | Some _ => []
           | None =>
               ENewClient GlobalAddressesRESTClient
               :: match newClient b GlobalAddressesRESTClient p with
                  | Some _ => []
                  | None => t2 ++ [EClose GlobalAddressesRESTClient]
                  end
           end
        ++ [EClose AddressesRESTClient].
Proof.
  intros Hc H. unfold releaseStaticIPs, log_Printf in H.
  apply in_emit_bind in H as (? & -> & H). apply in_emit_bind in H as (? & -> & H).
  rewrite Hc, bind_then_emit in H.
  apply in_map_iff in H as ([t0 r0] & E & H). injection E as <- _. cbn [fst].
  apply in_emit_bind in H as (? & -> & H).
  apply in_bind in H as (tl & n & t3 & Hl & H & ->).
  apply addressesLoop_no_client in Hl.
  destruct (final (addresses b p)).
  { apply in_ret in H as [-> _]. exists (EList (AggregatedListAddressesRequest p) :: tl), [].
    split; [constructor; [exact I|exact Hl]|]. split; [constructor|].
    now rewrite !app_nil_r. }
  apply in_emit_bind in H as (? & -> & H).
  destruct (newClient b GlobalAddressesRESTClient p).
  { apply in_ret in H as [-> _]. exists (EList (AggregatedListAddressesRequest p) :: tl), [].
    split; [constructor; [exact I|exact Hl]|]. split; [constructor|].
    repeat progress (cbn [app]; rewrite <- ?app_assoc). reflexivity. }
  rewrite bind_then_emit in H.
  apply in_map_iff in H as ([t4 r4] & E & H). injection E as <- _. cbn [fst].
  exists (EList (AggregatedListAddressesRequest p) :: tl), t4.
  split; [constructor; [exact I|exact Hl]|].
  split; [|repeat progress (cbn [app]; rewrite <- ?app_assoc); reflexivity].
  revert H.
  match goal with
  | |- In (?t0, ?r0) ?X -> _ =>
      assert (HX : always (Forall no_client) X)
        by (all_events ltac:(apply globalLoop_no_client); no_client_done);
      intros H; exact (HX _ _ H)
  end.
Qed.

End Clients.

(** X9: every run of a cleaner ends by closing the clients it created, in
    the reverse order of their creation, and closes nothing before: the
    trace is a part without any close followed by the closes of the clients
    whose construction succeeded, last created first.  The IAM service,
    which [main.go] never closes, is excepted. *)
Theorem clients_closed_in_reverse_order (cfg : config) (b : backend) (p : string)
    (k : cleaner) (t : trace) (r : option error) :
  In (t, r) (run_cleaner cfg b p k) ->
  exists t0,
    closes_of t0 = [] /\
    clients_of t0 = clients_of t /\
    t = t0 ++ map EClose
                (rev (filter (fun c => deferred_close c && created b p c) (clients_of t))).
Proof.
  assert (Hno : forall err,
             In (t, r) (run_cleaner cfg b p k) ->
             newClient b match k with
                         | CInstances => InstancesRESTClient
                         | CDisks => DisksRESTClient
                         | CAddresses => AddressesRESTClient
                         | CServiceAccounts => IAMService
                         | CBuckets => StorageClient
                         end p = Some err ->
             exists c l, t = [ELog l [AStr p]; ENewClient c] /\ created b p c = false).
  { intros err H Hc. unfold created.
    destruct k; cbn [run_cleaner] in H;
      [unfold deleteVMInstances in H|unfold deleteDisks in H|unfold releaseStaticIPs in H
      |unfold deleteServiceAccounts in H|unfold deleteBuckets in H];
      unfold log_Printf in H;
      apply in_emit_bind in H as (? & -> & H); apply in_emit_bind in H as (? & -> & H);
      rewrite Hc in H; apply in_ret in H as [-> _];
      do 2 eexists; (split; [reflexivity|]); rewrite Hc; reflexivity. }
  assert (Hfail : forall c l, t = [ELog l [AStr p]; ENewClient c] -> created b p c = false ->
             exists t0, closes_of t0 = [] /\ clients_of t0 = clients_of t /\
               t = t0 ++ map EClose
                     (rev (filter (fun c => deferred_close c && created b p c)
                             (clients_of t)))).
  { intros c l -> Hc. exists [ELog l [AStr p]; ENewClient c].
    cbn [clients_of filter]. rewrite Hc, andb_false_r. now repeat split. }
  intros H.
  destruct k; cbn [run_cleaner] in H.
  - destruct (newClient b InstancesRESTClient p) as [err|] eqn:Hc.
    { destruct (Hno err H eq_refl) as (c & l & E & Hf). exact (Hfail c l E Hf). }
    destruct (deleteVMInstances_clients cfg b p t r Hc H) as (t0 & H0 & ->).
    apply no_client_nil in H0 as [H1 H2].
    exists (ELog "[%s] Checking VM instances..." [AStr p]
            :: ENewClient InstancesRESTClient :: t0).
    cbn [clients_of closes_of]. rewrite clients_of_app, H1. cbn [clients_of app filter].
    unfold created. rewrite Hc. now repeat split.
  - destruct (newClient b DisksRESTClient p) as [err|] eqn:Hc.
    { destruct (Hno err H eq_refl) as (c & l & E & Hf). exact (Hfail c l E Hf). }
    destruct (deleteDisks_clients cfg b p t r Hc H) as (t0 & H0 & ->).
    apply no_client_nil in H0 as [H1 H2].
    exists (ELog "[%s] Checking disks..." [AStr p] :: ENewClient DisksRESTClient :: t0).
    cbn [clients_of closes_of]. rewrite clients_of_app, H1. cbn [clients_of app filter].
    unfold created. rewrite Hc. now repeat split.
  - destruct (newClient b AddressesRESTClient p) as [err|] eqn:Hc.
    { destruct (Hno err H eq_refl) as (c & l & E & Hf). exact (Hfail c l E Hf). }
    destruct (releaseStaticIPs_clients cfg b p t r Hc H) as (t1 & t2 & H1 & H2 & ->).
    apply no_client_nil in H1 as [H1 H1'], H2 as [H2 H2'].
    destruct (final (addresses b p)) as [e1|].
    { exists (ELog "[%s] Checking static IP addresses..." [AStr p]
              :: ENewClient AddressesRESTClient :: t1).
      cbn [clients_of closes_of app]. rewrite clients_of_app, H1. cbn [clients_of app filter].
      unfold created. rewrite Hc. now repeat split. }
    destruct (newClient b GlobalAddressesRESTClient p) as [e2|] eqn:Hg.
    { exists (ELog "[%s] Checking static IP addresses..." [AStr p]
              :: ENewClient AddressesRESTClient :: t1 ++ [ENewClient GlobalAddressesRESTClient]).
      cbn [clients_of closes_of app]. rewrite !clients_of_app, closes_of_app, H1, H1'.
      cbn [clients_of closes_of app filter]. unfold created. rewrite Hc, Hg.
      cbn [andb deferred_close filter rev map app]. rewrite <- app_assoc. now repeat split. }
    exists (ELog "[%s] Checking static IP addresses..." [AStr p]
            :: ENewClient AddressesRESTClient
            :: t1 ++ ENewClient GlobalAddressesRESTClient :: t2).
    cbn [clients_of closes_of app].
    rewrite !clients_of_app, closes_of_app, H1, H1'. cbn [clients_of closes_of app].
    rewrite !clients_of_app, H2, H2'. cbn [clients_of app filter].
    unfold created. rewrite Hc, Hg. cbn [andb deferred_close filter rev map app].
    repeat split. now rewrite <- !app_assoc.
  - destruct (deleteServiceAccounts_clients cfg b p t r H) as (t0 & H0 & ->).
    apply no_client_nil in H0 as [H1 H2].
    exists (ELog "[%s] Checking service accounts..." [AStr p] :: ENewClient IAMService :: t0).
    cbn [clients_of closes_of]. rewrite H1. cbn [filter deferred_close andb rev map].
    rewrite app_nil_r. now repeat split.
  - destruct (newClient b StorageClient p) as [err|] eqn:Hc.
    { destruct (Hno err H eq_refl) as (c & l & E & Hf). exact (Hfail c l E Hf). }
    destruct (deleteBuckets_clients cfg b p t r Hc H) as (t0 & H0 & ->).
    apply no_client_nil in H0 as [H1 H2].
    exists (ELog "[%s] Checking storage buckets..." [AStr p]
            :: ENewClient StorageClient :: t0).
    cbn [clients_of closes_of]. rewrite clients_of_app, H1. cbn [clients_of app filter].
    unfold created. rewrite Hc. now repeat split.
Qed.

Lemma clients_closed_in_reverse_order_witness :
  In (scenarioAddressRun, None) (run_cleaner liveConfig scenarioBackend "p" CAddresses) /\
  exists t0,
    closes_of t0 = [] /\
    scenarioAddressRun =
    t0 ++ [EClose GlobalAddressesRESTClient; EClose AddressesRESTClient].
Proof.
  assert (Hin : In (scenarioAddressRun, None)
                  (run_cleaner liveConfig scenarioBackend "p" CAddresses))
    by (vm_compute; left; reflexivity).
  split; [exact Hin|].
  destruct (clients_closed_in_reverse_order liveConfig scenarioBackend "p" CAddresses
              scenarioAddressRun None Hin) as (t0 & H0 & _ & H).
  exists t0. split; [exact H0|exact H].
Defined.

(** * The error lines of [cleanupProject] *)

Ltac no_error_done := simpl; auto.

Section ProjectErrors.
Variable cfg : config.
Variable b : backend.
Variable p : string.

Lemma deleteVMInstances_no_project_error :
  always (Forall no_project_error) (deleteVMInstances cfg b p).
Proof.
  assert (Hl : forall pairs l, always (Forall no_project_error) (collectInstances pairs l)).
  { intros pairs l. rewrite collectInstances_run. intros t a [E|[]]. injection E as <- _.
    apply Forall_forall. intros e He. apply in_map_iff in He as (i & <- & _). reflexivity. }
  unfold deleteVMInstances, deleteInstanceTask. all_events ltac:(apply Hl); no_error_done.
Qed.

Lemma deleteDisks_no_project_error :
  always (Forall no_project_error) (deleteDisks cfg b p).
Proof.
  assert (Hb : forall d k, always (Forall no_project_error) (diskBody cfg b p d k)).
  { intros d k. unfold diskBody. all_events fail; no_error_done. }
  assert (Hp : forall l k, always (Forall no_project_error) (disksPair cfg b p l k)).
  { induction l as [|d l IH]; intros k; simpl; all_events ltac:(first [apply Hb|apply IH]). }
  assert (Hl : forall pairs n, always (Forall no_project_error) (disksLoop cfg b p pairs n)).
  { induction pairs as [|l pairs IH]; intros n; simpl;
      all_events ltac:(first [apply Hp|apply IH]). }
  unfold deleteDisks. all_events ltac:(apply Hl); no_error_done.
Qed.

Lemma releaseStaticIPs_no_project_error :
  always (Forall no_project_error) (releaseStaticIPs cfg b p).
Proof.
  assert (Hb : forall d k, always (Forall no_project_error) (addressBody cfg b p d k)).
  { intros d k. unfold addressBody. all_events fail; no_error_done. }
  assert (Hp : forall l k, always (Forall no_project_error) (addressesPair cfg b p l k)).
  { induction l as [|d l IH]; intros k; simpl; all_events ltac:(first [apply Hb|apply IH]). }
  assert (Hl : forall pairs n,
             always (Forall no_project_error) (addressesLoop cfg b p pairs n)).
  { induction pairs as [|l pairs IH]; intros n; simpl;
      all_events ltac:(first [apply Hp|apply IH]). }
  assert (Hg : forall d k, always (Forall no_project_error) (globalBody cfg b p d k)).
  { intros d k. unfold globalBody. all_events fail; no_error_done. }
  assert (Hgl : forall l n, always (Forall no_project_error) (globalLoop cfg b p l n)).
  { induction l as [|d l IH]; intros n; simpl;
      all_events ltac:(first [apply Hg|apply IH]). }
  unfold releaseStaticIPs. all_events ltac:(first [apply Hl|apply Hgl]); no_error_done.
Qed.

Lemma deleteServiceAccounts_no_project_error :
  always (Forall no_project_error) (deleteServiceAccounts cfg b p).
Proof.
  assert (Hl : forall l acc, always (Forall no_project_error) (filterAccounts l acc)).
  { intros l acc. rewrite filterAccounts_run. intros t a [E|[]]. injection E as <- _.
    apply Forall_forall. intros e He. apply in_map_iff in He as (i & <- & _). reflexivity. }
  unfold deleteServiceAccounts, deleteAccountTask. all_events ltac:(apply Hl); no_error_done.
Qed.

(** A run of [cleanupProject] rearranges one run of each of the four
    cleaners, each followed by its error line if it returned an error, and
    the note on buckets. *)
Lemma cleanupProject_parts t :
  In (t, tt) (cleanupProject cfg b p) ->
  exists tv td ta ts,
    In (tv, vmResult b p) (deleteVMInstances cfg b p) /\
    In (td, disksResult b p) (deleteDisks cfg b p) /\
    In (ta, addressesResult b p) (releaseStaticIPs cfg b p) /\
    In (ts, accountsResult b p) (deleteServiceAccounts cfg b p) /\
    Permutation
      ((tv ++ errLog "Error deleting VM instances in %s: %v" p (vmResult b p))
       ++ (td ++ errLog "Error deleting disks in %s: %v" p (disksResult b p))
       ++ (ta ++ errLog "Error releasing static IPs in %s: %v" p (addressesResult b p))
       ++ (ts ++ errLog "Error deleting service accounts in %s: %v" p (accountsResult b p))
       ++ [EPrintf bucketsNote [AStr p]])
      t.
Proof.
  intros H. apply cleanupProject_inv in H as (tv & rv & tp & Hv & Hp & ->).
  apply in_par_cons in Hp as (t1 & tp1 & H1 & Hp & I1).
  apply in_par_cons in Hp as (t2 & tp2 & H2 & Hp & I2).
  apply in_par_cons in Hp as (t3 & tp3 & H3 & Hp & I3).
  apply in_par_nil in Hp as ->.
  apply logged_inv in H1 as (td & rd & Hd & ->).
  apply logged_inv in H2 as (ta & ra & Ha & ->).
  apply logged_inv in H3 as (ts & rs & Hs & ->).
  pose proof (deleteVMInstances_result cfg b p tv rv Hv) as ->.
  pose proof (deleteDisks_result cfg b p td rd Hd) as ->.
  pose proof (releaseStaticIPs_result cfg b p ta ra Ha) as ->.
  pose proof (deleteServiceAccounts_result cfg b p ts rs Hs) as ->.
  exists tv, td, ta, ts. repeat (split; [assumption|]).
  apply interleave_Permutation in I1, I2, I3. rewrite app_nil_r in I3.
  rewrite <- app_assoc. apply Permutation_app_head, Permutation_app_head.
  rewrite !app_assoc. apply Permutation_app_tail.
  rewrite <- I1, <- I2, <- I3, <- !app_assoc. reflexivity.
Qed.

Lemma errLog_line format format' r err :
  In (ELog format [AStr p; AErr err]) (errLog format' p r) <->
  format = format' /\ r = Some err.
Proof.
  destruct r as [e|]; simpl; split.
  - intros [E|[]]. injection E as <- <-. now split.
  - intros [-> E]. injection E as <-. now left.
  - intros [].
  - intros [_ E]. discriminate.
Qed.

End ProjectErrors.

Lemma faultyProjectRun_in :
  In (faultyProjectRun, tt) (cleanupProject liveConfig faultyBackend "p").
Proof.
  apply (cleanupProject_sequential liveConfig faultyBackend "p"
           faultyVMRun (vmResult faultyBackend "p")
           faultyDiskRun (disksResult faultyBackend "p")
           faultyAddressRun (addressesResult faultyBackend "p")
           faultyAccountRun (accountsResult faultyBackend "p"));
    vm_compute; left; reflexivity.
Qed.

(** X10: every run of [cleanupProject] runs the four cleaners, whichever of
    them fail: the first line of each is in the trace.  The error line of a
    cleaner is logged exactly when that cleaner returns an error, which is
    when the construction of its client or its listing failed, and the line
    carries that error. *)
Theorem project_logs_exactly_the_returned_errors (cfg : config) (b : backend)
    (p : string) (t : trace) :
  In (t, tt) (cleanupProject cfg b p) ->
  Forall (fun line => In (ELog line [AStr p]) t) checking_lines /\
  forall k format, In (k, format) error_lines ->
    forall err, In (ELog format [AStr p; AErr err]) t <-> result_of b p k = Some err.
Proof.
  intros H. destruct (cleanupProject_parts cfg b p t H)
    as (tv & td & ta & ts & Hv & Hd & Ha & Hs & Hperm).
  assert (Hin : forall e, In e t <->
             In e tv \/ In e (errLog "Error deleting VM instances in %s: %v" p (vmResult b p))
             \/ In e td \/ In e (errLog "Error deleting disks in %s: %v" p (disksResult b p))
             \/ In e ta
             \/ In e (errLog "Error releasing static IPs in %s: %v" p (addressesResult b p))
             \/ In e ts
             \/ In e (errLog "Error deleting service accounts in %s: %v" p
                        (accountsResult b p))
             \/ e = EPrintf bucketsNote [AStr p]).
  { intros e. split.
    - intros He. apply (Permutation_in _ (Permutation_sym Hperm)) in He.
      rewrite !in_app_iff in He. simpl in He. intuition auto.
    - intros He. apply (Permutation_in _ Hperm). rewrite !in_app_iff. simpl.
      intuition auto. }
  split.
  - assert (Hhead : forall (m : M (option error)) line tm rm,
               In (tm, rm) (bind (log_Printf line [AStr p]) (fun _ => m)) ->
               In (ELog line [AStr p]) tm).
    { intros m line tm rm Hm. unfold log_Printf in Hm.
      apply in_emit_bind in Hm as (t' & -> & _). now left. }
    repeat constructor; apply Hin.
    + left. exact (Hhead _ _ _ _ Hv).
    + right; right; left. exact (Hhead _ _ _ _ Hd).
    + do 4 right; left. exact (Hhead _ _ _ _ Ha).
    + do 6 right; left. exact (Hhead _ _ _ _ Hs).
  - intros k format Hk err. rewrite Hin, !errLog_line.
    assert (Hno : forall (m : M (option error)) tm rm,
               always (Forall no_project_error) m -> In (tm, rm) m ->
               ~ In (ELog format [AStr p; AErr err]) tm).
    { intros m tm rm Hm Hr He. apply Hm in Hr. rewrite Forall_forall in Hr.
      apply Hr in He. simpl in He.
      destruct Hk as [E|[E|[E|[E|[]]]]]; injection E as <- <-; discriminate. }
    pose proof (Hno _ _ _ (deleteVMInstances_no_project_error cfg b p) Hv) as Nv.
    pose proof (Hno _ _ _ (deleteDisks_no_project_error cfg b p) Hd) as Nd.
    pose proof (Hno _ _ _ (releaseStaticIPs_no_project_error cfg b p) Ha) as Na.
    pose proof (Hno _ _ _ (deleteServiceAccounts_no_project_error cfg b p) Hs) as Ns.
    destruct Hk as [E|[E|[E|[E|[]]]]]; injection E as <- <-; cbn [result_of];
      (split;
       [intros [F|[F|[F|[F|[F|[F|[F|[F|F]]]]]]]];
        try contradiction; try discriminate;
        destruct F as [F1 F2]; try discriminate; exact F2
       |intros F; tauto]).
Qed.

Lemma project_logs_exactly_the_returned_errors_witness :
  In (faultyProjectRun, tt) (cleanupProject liveConfig faultyBackend "p") /\
  In (ELog "Error deleting service accounts in %s: %v"
        [AStr "p"; AErr (Errorf "failed to list service accounts: %w" quotaError)])
     faultyProjectRun.
Proof.
  pose proof faultyProjectRun_in as Hin.
  split; [exact Hin|].
  destruct (project_logs_exactly_the_returned_errors liveConfig faultyBackend "p"
              faultyProjectRun Hin) as [_ H].
  apply (H CServiceAccounts "Error deleting service accounts in %s: %v").
  - simpl. tauto.
  - reflexivity.
Defined.

(** * Every call is followed up *)

Section InterleaveAfter.
Variable A : Type.

Lemma subseq_app_both (l1 l2 t1 t2 : list A) :
  subseq l1 t1 -> subseq l2 t2 -> subseq (l1 ++ l2) (t1 ++ t2).
Proof.
  induction 1; intros H2; simpl.
  - assumption.
  - apply subseq_skip; auto.
  - apply subseq_keep; auto.
Qed.

(** An event of an interleaving comes from one of the two goroutines, and
    what that goroutine did after it also follows it in the interleaving. *)
Lemma interleave_split_after (xs ys t : list A) :
  interleave xs ys t ->
  forall pre e post, t = pre ++ e :: post ->
    (exists xp xq, xs = xp ++ e :: xq /\ subseq xq post) \/
    (exists yp yq, ys = yp ++ e :: yq /\ subseq yq post).
Proof.
  induction 1 as [ys|xs|x xs ys t Hi IH|y xs ys t Hi IH]; intros pre e post E.
  - right. exists pre, post. split; [assumption|apply subseq_refl].
  - left. exists pre, post. split; [assumption|apply subseq_refl].
  - destruct pre as [|a pre]; simpl in E; injection E as -> ->.
    + left. exists [], xs. split; [reflexivity|]. apply (interleave_subseq _ _ _ _ Hi).
    + destruct (IH pre e post eq_refl) as [(xp & xq & -> & S)|(yp & yq & -> & S)].
      * left. exists (a :: xp), xq. split; [reflexivity|assumption].
      * right. exists yp, yq. split; [reflexivity|assumption].
  - destruct pre as [|a pre]; simpl in E; injection E as -> ->.
    + right. exists [], ys. split; [reflexivity|]. apply (interleave_subseq _ _ _ _ Hi).
    + destruct (IH pre e post eq_refl) as [(xp & xq & -> & S)|(yp & yq & -> & S)].
      * left. exists xp, xq. split; [reflexivity|assumption].
      * right. exists (a :: yp), yq. split; [reflexivity|assumption].
Qed.

End InterleaveAfter.

Section FollowedUp.
Variable cfg : config.
Variable b : backend.
Variable p : string.

Let Q : trace -> Prop := calls_followed_up b.

Lemma followed_up_subseq e post post' :
  followed_up b e post -> subseq post post' -> followed_up b e post'.
Proof.
  intros H S. destruct e; simpl in *; try exact I.
  - intros Hr. specialize (H Hr). destruct (deleteResult b r).
    + destruct H as (l & Hl & Hin). exists l. split; [assumption|].
      eapply subseq_In; eassumption.
    + eapply subseq_In; eassumption.
  - destruct (waitResult b r); destruct H as (l & Hl & Hin); exists l;
      (split; [assumption|eapply subseq_In; eassumption]).
Qed.

Lemma F_nil : Q [].
Proof. intros pre e post E. destruct pre; discriminate. Qed.

Lemma F_cons e t : followed_up b e t -> Q t -> Q (e :: t).
Proof.
  intros He Ht pre e' post E. destruct pre as [|a pre]; simpl in E; injection E as -> ->.
  - exact He.
  - now apply (Ht pre e' post).
Qed.

Lemma F_app t1 t2 : Q t1 -> Q t2 -> Q (t1 ++ t2).
Proof.
  intros H1 H2 pre e post E. apply app_eq_app in E as (l & [[E1 E2]|[E1 E2]]).
  - destruct l as [|x l].
    + simpl in E2. apply (H2 [] e post). now rewrite <- E2.
    + injection E2 as <- ->. eapply followed_up_subseq; [now apply (H1 pre e l)|].
      rewrite <- (app_nil_r l) at 1. apply subseq_app_both; [apply subseq_refl|].
      apply subseq_nil_l.
  - now apply (H2 l e post).
Qed.

Lemma F_merge t1 t2 t : Q t1 -> Q t2 -> interleave t1 t2 t -> Q t.
Proof.
  intros H1 H2 Hi pre e post E.
  destruct (interleave_split_after _ t1 t2 t Hi pre e post E)
    as [(xp & xq & -> & S)|(yp & yq & -> & S)].
  - eapply followed_up_subseq; [now apply (H1 xp e xq)|exact S].
  - eapply followed_up_subseq; [now apply (H2 yp e yq)|exact S].
Qed.

(** A trace without provider call. *)
Lemma F_quiet t : calls_of t = [] -> Q t.
Proof.
  intros H pre e post ->. destruct e; try exact I; exfalso;
    rewrite calls_of_app in H; apply app_eq_nil in H as [_ H]; discriminate.
Qed.

Lemma always_run {A} (R : trace -> Prop) (m : M A) t a :
  m = [(t, a)] -> R t -> always R m.
Proof. intros -> H t' a' [E|[]]. now injection E as <- _. Qed.

Ltac f_events loops :=
  unfold log_Printf, log_Println, fmt_Printf;
  repeat first
    [ match goal with
      | |- always Q (ret _) => apply (always_ret Q F_nil)
      | |- always Q (emit _) => apply always_emit, F_quiet; reflexivity
      | |- always Q (bind _ _) => apply (always_bind Q F_app); [|intros ?]
      | |- always Q (par _) => apply (always_par Q F_nil F_merge)
      | |- Forall (always Q) (map _ _) => apply Forall_map, Forall_forall; intros ? ?
      | |- Forall (always Q) (_ :: _) => constructor
      | |- Forall (always Q) [] => constructor
      | |- always Q (match ?x with _ => _ end) => destruct x eqn:?
      end
    | loops ].

(** Closes [Q] on an explicit trace, one event at a time. *)
Ltac f_trace :=
  run_simpl;
  repeat (apply F_cons; [simpl; try exact I|]); try apply F_nil.

Lemma deleteInstanceTask_followed inst : always Q (deleteInstanceTask b p inst).
Proof.
  apply (always_run _ _ _ _ (deleteInstanceTask_run b p inst)).
  unfold deleteInstanceTask.
  destruct (deleteResult b _) eqn:Hd; [|destruct (waitResult b _) eqn:Hw]; f_trace;
    try rewrite Hd; try rewrite Hw; intros; simpl; eauto.
Qed.

Lemma diskBody_followed d n : always Q (diskBody cfg b p d n).
Proof.
  apply (always_run _ _ _ _ (diskBody_run cfg b p d n)).
  unfold diskBody.
  destruct (0 <? List.length (DiskUsers d))%nat; [f_trace|].
  destruct (negb (dryRun cfg)); [|f_trace].
  destruct (deleteResult b _) eqn:Hd; [|destruct (waitResult b _) eqn:Hw]; f_trace;
    try rewrite Hd; try rewrite Hw; intros; simpl; eauto.
Qed.

Lemma addressBody_followed a n : always Q (addressBody cfg b p a n).
Proof.
  apply (always_run _ _ _ _ (addressBody_run cfg b p a n)).
  unfold addressBody.
  destruct (String.eqb (AddressStatus a) "IN_USE"); [f_trace|].
  destruct (negb (dryRun cfg)); [|f_trace].
  destruct (deleteResult b _) eqn:Hd; [|destruct (waitResult b _) eqn:Hw]; f_trace;
    try rewrite Hd; try rewrite Hw; intros; simpl; eauto.
Qed.

Lemma globalBody_followed a n : always Q (globalBody cfg b p a n).
Proof.
  apply (always_run _ _ _ _ (globalBody_run cfg b p a n)).
  unfold globalBody.
  destruct (String.eqb (AddressStatus a) "IN_USE"); [f_trace|].
  destruct (negb (dryRun cfg)); [|f_trace].
  destruct (deleteResult b _) eqn:Hd; [|destruct (waitResult b _) eqn:Hw]; f_trace;
    try rewrite Hd; try rewrite Hw; intros; simpl; eauto.
Qed.

Lemma deleteAccountTask_followed sa : always Q (deleteAccountTask b sa).
Proof.
  apply (always_run _ _ _ _ (deleteAccountTask_run b sa)).
  unfold deleteAccountTask.
  destruct (deleteResult b _) eqn:Hd; f_trace; discriminate.
Qed.

Lemma deleteVMInstances_followed : always Q (deleteVMInstances cfg b p).
Proof.
  assert (Hc : forall pairs l, always Q (collectInstances pairs l)).
  { intros pairs l. apply (always_run _ _ _ _ (collectInstances_run pairs l)).
    apply F_quiet. induction (List.concat pairs); simpl; auto. }
  unfold deleteVMInstances.
  f_events ltac:(first [apply deleteInstanceTask_followed|apply Hc]).
Qed.

Lemma deleteDisks_followed : always Q (deleteDisks cfg b p).
Proof.
  assert (Hp : forall l k, always Q (disksPair cfg b p l k)).
  { induction l as [|d l IH]; intros k; simpl;
      f_events ltac:(first [apply diskBody_followed|apply IH]). }
  assert (Hl : forall pairs k, always Q (disksLoop cfg b p pairs k)).
  { induction pairs as [|l pairs IH]; intros k; simpl;
      f_events ltac:(first [apply Hp|apply IH]). }
  unfold deleteDisks. f_events ltac:(apply Hl).
Qed.

Lemma releaseStaticIPs_followed : always Q (releaseStaticIPs cfg b p).
Proof.
  assert (Hp : forall l k, always Q (addressesPair cfg b p l k)).
  { induction l as [|d l IH]; intros k; simpl;
      f_events ltac:(first [apply addressBody_followed|apply IH]). }
  assert (Hl : forall pairs k, always Q (addressesLoop cfg b p pairs k)).
  { induction pairs as [|l pairs IH]; intros k; simpl;
      f_events ltac:(first [apply Hp|apply IH]). }
  assert (Hg : forall l k, always Q (globalLoop cfg b p l k)).
  { induction l as [|d l IH]; intros k; simpl;
      f_events ltac:(first [apply globalBody_followed|apply IH]). }
  unfold releaseStaticIPs. f_events ltac:(first [apply Hl|apply Hg]).
Qed.

Lemma deleteServiceAccounts_followed : always Q (deleteServiceAccounts cfg b p).
Proof.
  assert (Hf : forall l acc, always Q (filterAccounts l acc)).
  { intros l acc. apply (always_run _ _ _ _ (filterAccounts_run l acc)).
    apply F_quiet. induction (filter isCandidate l); simpl; auto. }
  unfold deleteServiceAccounts.
  f_events ltac:(first [apply deleteAccountTask_followed|apply Hf]).
Qed.

Lemma cleanupProject_followed : always Q (cleanupProject cfg b p).
Proof.
  pose proof deleteVMInstances_followed. pose proof deleteDisks_followed.
  pose proof releaseStaticIPs_followed. pose proof deleteServiceAccounts_followed.
  unfold cleanupProject, logged. f_events ltac:(assumption).
Qed.

End FollowedUp.

(** X11: in every run of [cleanupProject], whatever the interleaving of the
    goroutines, each provider call is followed up later in the run as the
    provider's answer dictates: a refused compute delete by its error line,
    an accepted one by the wait on its operation; a failed wait by its error
    line, a completed one by the success line of the item. *)
Theorem every_call_is_followed_up (cfg : config) (b : backend) (p : string) (t : trace) :
  In (t, tt) (cleanupProject cfg b p) -> calls_followed_up b t.
Proof. intros H. exact (cleanupProject_followed cfg b p t tt H). Qed.

Lemma every_call_is_followed_up_witness :
  In (faultyProjectRun, tt) (cleanupProject liveConfig faultyBackend "p") /\
  nth_error faultyProjectRun faultyWaitPosition = Some (EWait (diskRequest "p" freeDisk)) /\
  In (ELog "  ERROR waiting for deletion of %s: %v"
        [AStr "disk-1"; AErr (ProviderError "operation timed out")])
     (skipn (S faultyWaitPosition) faultyProjectRun).
Proof.
  pose proof faultyProjectRun_in as Hin.
  split; [exact Hin|]. split; [reflexivity|].
  pose proof (every_call_is_followed_up liveConfig faultyBackend "p" faultyProjectRun Hin
                (firstn faultyWaitPosition faultyProjectRun)
                (EWait (diskRequest "p" freeDisk))
                (skipn (S faultyWaitPosition) faultyProjectRun) eq_refl) as H.
  destruct H as (l & Hl & Hpost). simpl in Hl. subst l. exact Hpost.
Defined.

(** * Waits and success reports *)

Section After.
Variable fu : event -> trace -> Prop.
Hypothesis fu_subseq :
  forall e post post', fu e post -> subseq post post' -> fu e post'.






End After.

Section AccountsFollowedUp.
Variable cfg : config.
Variable b : backend.
Variable p : string.

Let Q : trace -> Prop := accounts_followed_up b p.














End AccountsFollowedUp.




(** * What a dry run announces *)

Section DryRuns.
Variable cfg : config.
Variable b : backend.
Variable p : string.
Hypothesis dry : dryRun cfg = true.

(** The dry run of the instance cleaner whose listing succeeds. *)
Lemma deleteVMInstances_dry :
  newClient b InstancesRESTClient p = None ->
  final (instances b p) = None ->
  let n := List.length (listed_instances b p) in
  deleteVMInstances cfg b p =
  [([ELog "[%s] Checking VM instances..." [AStr p]; ENewClient InstancesRESTClient;
     EList (AggregatedListInstancesRequest p)]
    ++ map foundInstance (listed_instances b p)
    ++ [if (n =? 0)%nat then ELog "[%s] No VM instances found" [AStr p]
        else ELog "[%s] Would delete %d VM instances" [AStr p; AInt (Z.of_nat n)];
        EClose InstancesRESTClient],
    None)].
Proof.
  intros Hc Hf. unfold deleteVMInstances, listed_instances, foundInstance.
  rewrite Hc, Hf, dry, bind_then_emit, collectInstances_run, bind_single.
  cbv beta. cbn [app snd]. rewrite length_map.
  destruct (_ =? 0)%nat; run_simpl; reflexivity.
Qed.

(** The dry run of the service-account cleaner whose listing succeeds. *)
Lemma deleteServiceAccounts_dry accounts :
  newClient b IAMService p = None ->
  serviceAccounts b (String.append "projects/" p) = inl accounts ->
  let n := List.length (filter isCandidate accounts) in
  deleteServiceAccounts cfg b p =
  [([ELog "[%s] Checking service accounts..." [AStr p]; ENewClient IAMService;
     EList (ListServiceAccounts (String.append "projects/" p))]
    ++ map foundAccount (filter isCandidate accounts)
    ++ [if (n =? 0)%nat
        then ELog "[%s] No service accounts found with prefix 'vsa-sa-gcnv'" [AStr p]
        else ELog "[%s] Would delete %d service accounts" [AStr p; AInt (Z.of_nat n)]],
    None)].
Proof.
  intros Hc Ha. unfold deleteServiceAccounts, foundAccount.
  rewrite Hc, Ha, dry, filterAccounts_run, bind_single.
  cbv beta. cbn [app snd].
  destruct (_ =? 0)%nat; run_simpl; reflexivity.
Qed.

Lemma instances_announced t r n :
  In (t, r) (deleteVMInstances cfg b p) ->
  In (ELog "[%s] Would delete %d VM instances" [AStr p; AInt n]) t <->
  vmResult b p = None /\ candidate_count b p CInstances <> 0%nat /\
  n = Z.of_nat (candidate_count b p CInstances).
Proof.
  unfold vmResult, candidate_count. intros H.
  assert (Hfound : forall l,
             ~ In (ELog "[%s] Would delete %d VM instances" [AStr p; AInt n])
                  (map foundInstance l)).
  { intros l Hin. apply in_map_iff in Hin as (i & E & _). discriminate. }
  destruct (newClient b InstancesRESTClient p) as [e|] eqn:Hc.
  { unfold deleteVMInstances, log_Printf in H. rewrite Hc in H. revert H. run_simpl.
    intros [E|[]]. injection E as <- _. simpl. intuition discriminate. }
  destruct (final (instances b p)) as [e|] eqn:Hf.
  { rewrite (deleteVMInstances_listing_failed cfg b p e Hc Hf) in H.
    destruct H as [E|[]]. injection E as <- _. cbn [app In]. rewrite in_app_iff.
    specialize (Hfound (listed_instances b p)). simpl. intuition discriminate. }
  rewrite (deleteVMInstances_dry Hc Hf) in H. destruct H as [E|[]]. injection E as <- _.
  cbn [app In]. rewrite in_app_iff. specialize (Hfound (listed_instances b p)).
  destruct (List.length (listed_instances b p)) as [|m] eqn:El; cbn [Nat.eqb In].
  - intuition (try discriminate; try congruence).
  - split.
    + intros [E|[E|[E|[E|[E|[E|[]]]]]]]; try discriminate; try contradiction.
      injection E as <-. split; [reflexivity|]. split; [discriminate|reflexivity].
    + intros (_ & _ & ->). right; right; right; right. now left.
Qed.

Lemma disks_announced t r n :
  In (t, r) (deleteDisks cfg b p) ->
  In (ELog "[%s] Would delete %d disks" [AStr p; AInt n]) t <->
  disksResult b p = None /\ candidate_count b p CDisks <> 0%nat /\
  n = Z.of_nat (candidate_count b p CDisks).
Proof.
  unfold disksResult, candidate_count. intros H.
  assert (Hitems : ~ In (ELog "[%s] Would delete %d disks" [AStr p; AInt n])
                     (flat_map (fun d => first_run (diskBody cfg b p d 0))
                        (listed_disks b p))).
  { intros Hin. apply in_flat_map in Hin as (d & _ & Hin).
    exact (disk_item_no_report cfg b p d n Hin). }
  destruct (newClient b DisksRESTClient p) as [e|] eqn:Hc.
  { rewrite (deleteDisks_no_client cfg b p e Hc) in H. destruct H as [E|[]].
    injection E as <- _. simpl. intuition discriminate. }
  rewrite (deleteDisks_run cfg b p Hc), dry in H. destruct H as [E|[]]. injection E as <- _.
  cbn [app In]. rewrite !in_app_iff.
  destruct (final (disks b p)) as [e|].
  { simpl. intuition discriminate. }
  destruct (List.length (filter unattached (listed_disks b p))) as [|m] eqn:El;
    cbn [Nat.eqb In].
  - intuition (try discriminate; try congruence).
  - split.
    + intros [E|[E|[E|[E|[[E|[]]|[E|[]]]]]]]; try discriminate; try contradiction.
      injection E as <-. split; [reflexivity|]. split; [discriminate|reflexivity].
    + intros (_ & _ & ->). right; right; right; right. left. now left.
Qed.

Lemma addresses_announced t r n :
  In (t, r) (releaseStaticIPs cfg b p) ->
  In (ELog "[%s] Would release %d static IPs" [AStr p; AInt n]) t <->
  addressesResult b p = None /\ candidate_count b p CAddresses <> 0%nat /\
  n = Z.of_nat (candidate_count b p CAddresses).
Proof.
  unfold addressesResult, candidate_count. intros H.
  assert (Hitems : ~ In (ELog "[%s] Would release %d static IPs" [AStr p; AInt n])
                     (flat_map (fun a => first_run (addressBody cfg b p a 0))
                        (listed_addresses b p))).
  { intros Hin. apply in_flat_map in Hin as (a & _ & Hin).
    exact (address_item_no_report cfg b p a n Hin). }
  assert (Hgitems : ~ In (ELog "[%s] Would release %d static IPs" [AStr p; AInt n])
                      (flat_map (fun a => first_run (globalBody cfg b p a 0))
                         (listed_globals b p))).
  { intros Hin. apply in_flat_map in Hin as (a & _ & Hin).
    exact (global_item_no_report cfg b p a n Hin). }
  destruct (newClient b AddressesRESTClient p) as [e|] eqn:Hc.
  { rewrite (releaseStaticIPs_no_client cfg b p e Hc) in H. destruct H as [E|[]].
    injection E as <- _. simpl. intuition discriminate. }
  rewrite (releaseStaticIPs_run cfg b p Hc), dry in H. destruct H as [E|[]].
  injection E as <- _.
  cbn [app In]. rewrite !in_app_iff.
  destruct (final (addresses b p)) as [e|].
  { simpl. intuition discriminate. }
  cbn [In].
  destruct (newClient b GlobalAddressesRESTClient p) as [e|].
  { simpl. intuition discriminate. }
  cbn [app In]. rewrite !in_app_iff.
  assert (Hfin : ~ In (ELog "[%s] Would release %d static IPs" [AStr p; AInt n])
                   match final (globalAddresses b p) with
                   | Some err => [ELog "Error listing global addresses: %v" [AErr err]]
                   | None => []
                   end).
  { destruct (final (globalAddresses b p)); simpl; intuition discriminate. }
  destruct (List.length (filter releasable (listed_addresses b p))
            + List.length (filter releasable (listed_globals b p)))%nat as [|m] eqn:El;
    cbn [Nat.eqb In].
  - intuition (try discriminate; try congruence).
  - split.
    + intros [E|[E|[E|[E|[[E|[E|[E|[E|[[E|[]]|[E|[]]]]]]]|[E|[]]]]]]];
        try discriminate; try contradiction.
      injection E as <-. split; [reflexivity|]. split; [discriminate|reflexivity].
    + intros (_ & _ & ->). do 4 right. left. do 4 right. left. now left.
Qed.

Lemma accounts_announced t r n :
  In (t, r) (deleteServiceAccounts cfg b p) ->
  In (ELog "[%s] Would delete %d service accounts" [AStr p; AInt n]) t <->
  accountsResult b p = None /\ candidate_count b p CServiceAccounts <> 0%nat /\
  n = Z.of_nat (candidate_count b p CServiceAccounts).
Proof.
  unfold accountsResult, candidate_count, listed_accounts. intros H.
  assert (Hfound : forall l,
             ~ In (ELog "[%s] Would delete %d service accounts" [AStr p; AInt n])
                  (map foundAccount l)).
  { intros l Hin. apply in_map_iff in Hin as (i & E & _). discriminate. }
  destruct (newClient b IAMService p) as [e|] eqn:Hc.
  { unfold deleteServiceAccounts, log_Printf in H. rewrite Hc in H. revert H. run_simpl.
    intros [E|[]]. injection E as <- _. simpl. intuition discriminate. }
  destruct (serviceAccounts b (String.append "projects/" p)) as [accounts|e] eqn:Ha.
  2: { unfold deleteServiceAccounts, log_Printf in H. rewrite Hc, Ha in H. revert H.
       run_simpl. intros [E|[]]. injection E as <- _. simpl. intuition discriminate. }
  rewrite (deleteServiceAccounts_dry accounts Hc Ha) in H. destruct H as [E|[]].
  injection E as <- _.
  cbn [app In]. rewrite in_app_iff. specialize (Hfound (filter isCandidate accounts)).
  destruct (List.length (filter isCandidate accounts)) as [|m] eqn:El; cbn [Nat.eqb In].
  - intuition (try discriminate; try congruence).
  - split.
    + intros [E|[E|[E|[E|[E|[]]]]]]; try discriminate; try contradiction.
      injection E as <-. split; [reflexivity|]. split; [discriminate|reflexivity].
    + intros (_ & _ & ->). right; right; right; right. now left.
Qed.

End DryRuns.

Section LiveCounts.
Variable cfg : config.
Variable b : backend.
Variable p : string.
Hypothesis live : dryRun cfg = false.

(** The number of delete calls of a live run whose setup succeeds. *)
Lemma live_delete_count k t r :
  k <> CBuckets ->
  In (t, r) (run_cleaner cfg b p k) ->
  result_of b p k = None ->
  List.length (deletes_of t) = candidate_count b p k.
Proof.
  intros Hk H Hr. destruct k; cbn [run_cleaner result_of candidate_count] in *.
  - unfold vmResult in Hr.
    destruct (newClient b InstancesRESTClient p) eqn:Hc; [discriminate|].
    destruct (final (instances b p)) eqn:Hf; [discriminate|].
    rewrite <- (Permutation_length (deleteVMInstances_deletes cfg b p t r Hc Hf live H)).
    apply length_map.
  - unfold disksResult in Hr.
    destruct (newClient b DisksRESTClient p) eqn:Hc; [discriminate|].
    rewrite (deleteDisks_deletes cfg b p t r H), Hc, live. apply length_map.
  - unfold addressesResult in Hr.
    destruct (newClient b AddressesRESTClient p) eqn:Hc; [discriminate|].
    destruct (final (addresses b p)) eqn:Hf; [discriminate|].
    destruct (newClient b GlobalAddressesRESTClient p) eqn:Hg; [discriminate|].
    rewrite <- deletes_of_calls, (releaseStaticIPs_calls cfg b p t r H), Hc, live.
    unfold global_calls. rewrite Hf, Hg, deletes_of_app, !deletes_of_call_and_wait.
    now rewrite length_app, !length_map.
  - unfold accountsResult in Hr.
    destruct (newClient b IAMService p) eqn:Hc; [discriminate|].
    pose proof (deleteServiceAccounts_deletes cfg b p t r H) as Hp.
    rewrite Hc, live in Hp. rewrite <- (Permutation_length Hp). apply length_map.
  - now contradiction Hk.
Qed.

End LiveCounts.

(** X12: the number a dry run announces is the number of delete calls a
    live run on the same provider issues.  For each cleaner called by
    [cleanupProject]: if the dry run logs its would-delete line, the number
    in it is positive and equals the number of delete calls of any live run
    of that cleaner; and if the setup of the cleaner succeeds and the live
    run issues a delete call, the dry run logs the line. *)
Theorem dry_run_announces_the_live_deletions (cfgD cfgL : config) (b : backend)
    (p : string) (k : cleaner) (format : string) (tD tL : trace) (rD rL : option error) :
  dryRun cfgD = true -> dryRun cfgL = false ->
  In (k, format) would_lines ->
  In (tD, rD) (run_cleaner cfgD b p k) ->
  In (tL, rL) (run_cleaner cfgL b p k) ->
  (forall n, In (ELog format [AStr p; AInt n]) tD ->
     n = Z.of_nat (List.length (deletes_of tL)) /\ (0 < n)%Z) /\
  (result_of b p k = None -> deletes_of tL <> [] ->
   In (ELog format [AStr p; AInt (Z.of_nat (List.length (deletes_of tL)))]) tD).
Proof.
  intros HD HL Hk HtD HtL.
  assert (Hnb : k <> CBuckets).
  { intros ->. simpl in Hk. intuition discriminate. }
  assert (Hline : forall n, In (ELog format [AStr p; AInt n]) tD <->
             result_of b p k = None /\ candidate_count b p k <> 0%nat /\
             n = Z.of_nat (candidate_count b p k)).
  { intros n. destruct Hk as [E|[E|[E|[E|[]]]]]; injection E as <- <-;
      cbn [run_cleaner result_of] in *.
    - exact (instances_announced cfgD b p HD tD rD n HtD).
    - exact (disks_announced cfgD b p HD tD rD n HtD).
    - exact (addresses_announced cfgD b p HD tD rD n HtD).
    - exact (accounts_announced cfgD b p HD tD rD n HtD). }
  pose proof (live_delete_count cfgL b p HL k tL rL Hnb HtL) as Hcount.
  split.
  - intros n Hn. apply Hline in Hn as (Hr & Hc & ->). rewrite (Hcount Hr). split; lia.
  - intros Hr Hne. apply Hline. rewrite (Hcount Hr) in *. repeat split; try assumption.
    intros E. apply Hne. destruct (deletes_of tL); [reflexivity|].
    rewrite <- (Hcount Hr) in E. discriminate.
Qed.

Lemma dry_run_announces_the_live_deletions_witness :
  In (mixedDiskDryRun, None) (run_cleaner dryConfig mixedBackend "p" CDisks) /\
  In (mixedDiskRun, None) (run_cleaner liveConfig mixedBackend "p" CDisks) /\
  In (ELog "[%s] Would delete %d disks" [AStr "p"; AInt 1]) mixedDiskDryRun /\
  1%Z = Z.of_nat (List.length (deletes_of mixedDiskRun)).
Proof.
  assert (HD : In (mixedDiskDryRun, None) (run_cleaner dryConfig mixedBackend "p" CDisks))
    by (vm_compute; left; reflexivity).
  assert (HL : In (mixedDiskRun, None) (run_cleaner liveConfig mixedBackend "p" CDisks))
    by (vm_compute; left; reflexivity).
  assert (Hline : In (ELog "[%s] Would delete %d disks" [AStr "p"; AInt 1]) mixedDiskDryRun)
    by (vm_compute; tauto).
  split; [exact HD|]. split; [exact HL|]. split; [exact Hline|].
  destruct (dry_run_announces_the_live_deletions dryConfig liveConfig mixedBackend "p"
              CDisks "[%s] Would delete %d disks" mixedDiskDryRun mixedDiskRun None None
              eq_refl eq_refl (or_intror (or_introl eq_refl)) HD HL) as [H _].
  exact (proj1 (H 1%Z Hline)).
Defined.

(** * The zone and region of a delete request *)

(** X13: the delete request of an instance, disk or regional address names
    the zone or region by the last segment of the URL the listing gave, not
    by the URL: in live mode, a listed candidate whose URL is [prefix/z]
    gets a delete call for zone or region [z].  Nothing checks the segment:
    an instance listed with an empty zone URL gets a delete call with an
    empty zone. *)
Theorem delete_request_names_last_segment (cfg : config) (b : backend) (p : string)
    (t : trace) (r : option error) (prefix z : string) :
  dryRun cfg = false ->
  contains_byte "/" z = false ->
  (forall i, In (t, r) (deleteVMInstances cfg b p) ->
     newClient b InstancesRESTClient p = None -> final (instances b p) = None ->
     In i (listed_instances b p) ->
     (InstanceZone i = String.append prefix (String "/" z) ->
      In (DeleteInstanceRequest p z (InstanceName i)) (deletes_of t)) /\
     (InstanceZone i = "" ->
      In (DeleteInstanceRequest p "" (InstanceName i)) (deletes_of t))) /\
  (forall d, In (t, r) (deleteDisks cfg b p) ->
     newClient b DisksRESTClient p = None ->
     In d (listed_disks b p) -> unattached d = true ->
     DiskZone d = String.append prefix (String "/" z) ->
     In (DeleteDiskRequest p z (DiskName d)) (deletes_of t)) /\
  (forall a, In (t, r) (releaseStaticIPs cfg b p) ->
     newClient b AddressesRESTClient p = None ->
     In a (listed_addresses b p) -> releasable a = true ->
     AddressRegion a = String.append prefix (String "/" z) ->
     In (DeleteAddressRequest p z (AddressName a)) (deletes_of t)).
Proof.
  intros live Hz. split; [|split].
  - intros i H Hc Hf Hi.
    assert (Hin : In (instanceRequest p i) (deletes_of t)).
    { apply (Permutation_in _ (deleteVMInstances_deletes cfg b p t r Hc Hf live H)).
      now apply in_map. }
    unfold instanceRequest in Hin. split; intros E; rewrite E in Hin.
    + now rewrite (extract_last prefix z Hz) in Hin.
    + exact Hin.
  - intros d H Hc Hd Hu E.
    rewrite (deleteDisks_deletes cfg b p t r H), Hc, live.
    replace (DeleteDiskRequest p z (DiskName d)) with (diskRequest p d)
      by (unfold diskRequest; now rewrite E, (extract_last prefix z Hz)).
    apply in_map, filter_In. now split.
  - intros a H Hc Ha Hu E.
    rewrite <- deletes_of_calls, (releaseStaticIPs_calls cfg b p t r H), Hc, live.
    rewrite deletes_of_app, deletes_of_call_and_wait. apply in_or_app. left.
    replace (DeleteAddressRequest p z (AddressName a)) with (addressRequest p a).
    + apply in_map, filter_In. now split.
    + unfold addressRequest.
      change (extractRegionFromURL (AddressRegion a))
        with (extractZoneFromURL (AddressRegion a)).
      now rewrite E, (extract_last prefix z Hz).
Qed.

Lemma delete_request_names_last_segment_witness :
  (In (scenarioVMRun, None) (deleteVMInstances liveConfig scenarioBackend "p") /\
   In (DeleteInstanceRequest "p" "us-central1-a" "vm-a") (deletes_of scenarioVMRun)) /\
  (In (scenarioDiskRun, None) (deleteDisks liveConfig scenarioBackend "p") /\
   In (DeleteDiskRequest "p" "us-central1-a" "disk-1") (deletes_of scenarioDiskRun)) /\
  (In (scenarioAddressRun, None) (releaseStaticIPs liveConfig scenarioBackend "p") /\
   In (DeleteAddressRequest "p" "us-central1" "ip-1") (deletes_of scenarioAddressRun)).
Proof.
  assert (Hv : In (scenarioVMRun, None) (deleteVMInstances liveConfig scenarioBackend "p"))
    by (vm_compute; left; reflexivity).
  assert (Hd : In (scenarioDiskRun, None) (deleteDisks liveConfig scenarioBackend "p"))
    by (vm_compute; left; reflexivity).
  assert (Ha : In (scenarioAddressRun, None)
                 (releaseStaticIPs liveConfig scenarioBackend "p"))
    by (vm_compute; left; reflexivity).
  split; [|split].
  - split; [exact Hv|].
    destruct (delete_request_names_last_segment liveConfig scenarioBackend "p"
                scenarioVMRun None "https://www.googleapis.com/compute/v1/projects/p/zones"
                "us-central1-a" eq_refl eq_refl) as (H & _).
    refine (proj1 (H {| InstanceName := "vm-a";
                        InstanceZone := "https://www.googleapis.com/compute/v1/projects/p/zones/us-central1-a";
                        InstanceStatus := "RUNNING" |} Hv eq_refl eq_refl _) eq_refl).
    simpl. tauto.
  - split; [exact Hd|].
    destruct (delete_request_names_last_segment liveConfig scenarioBackend "p"
                scenarioDiskRun None "https://www.googleapis.com/compute/v1/projects/p/zones"
                "us-central1-a" eq_refl eq_refl) as (_ & H & _).
    refine (H {| DiskName := "disk-1";
                 DiskZone := "https://www.googleapis.com/compute/v1/projects/p/zones/us-central1-a";
                 DiskUsers := []; DiskSizeGb := 10 |} Hd eq_refl _ eq_refl eq_refl).
    simpl. tauto.
  - split; [exact Ha|].
    destruct (delete_request_names_last_segment liveConfig scenarioBackend "p"
                scenarioAddressRun None
                "https://www.googleapis.com/compute/v1/projects/p/regions"
                "us-central1" eq_refl eq_refl) as (_ & _ & H).
    refine (H {| AddressName := "ip-1";
                 AddressRegion := "https://www.googleapis.com/compute/v1/projects/p/regions/us-central1";
                 AddressAddress := "10.0.0.1"; AddressStatus := "RESERVED" |}
              Ha eq_refl _ eq_refl eq_refl).
    simpl. tauto.
Defined.

(** * The projects a run touches *)

Ltac lists_done := simpl; auto.

Section ListScope.
Variable cfg : config.
Variable b : backend.
Variable p : string.

Lemma deleteVMInstances_lists_only :
  always (Forall (lists_only p)) (deleteVMInstances cfg b p).
Proof.
  assert (Hl : forall pairs l, always (Forall (lists_only p)) (collectInstances pairs l)).
  { intros pairs l. rewrite collectInstances_run. intros t a [E|[]]. injection E as <- _.
    apply Forall_forall. intros e He. apply in_map_iff in He as (i & <- & _). exact I. }
  unfold deleteVMInstances, deleteInstanceTask. all_events ltac:(apply Hl); lists_done.
Qed.

Lemma deleteDisks_lists_only :
  always (Forall (lists_only p)) (deleteDisks cfg b p).
Proof.
  assert (Hb : forall d k, always (Forall (lists_only p)) (diskBody cfg b p d k)).
  { intros d k. unfold diskBody. all_events fail; lists_done. }
  assert (Hp : forall l k, always (Forall (lists_only p)) (disksPair cfg b p l k)).
  { induction l as [|d l IH]; intros k; simpl; all_events ltac:(first [apply Hb|apply IH]). }
  assert (Hl : forall pairs n, always (Forall (lists_only p)) (disksLoop cfg b p pairs n)).
  { induction pairs as [|l pairs IH]; intros n; simpl;
      all_events ltac:(first [apply Hp|apply IH]). }
  unfold deleteDisks. all_events ltac:(apply Hl); lists_done.
Qed.

Lemma releaseStaticIPs_lists_only :
  always (Forall (lists_only p)) (releaseStaticIPs cfg b p).
Proof.
  assert (Hb : forall d k, always (Forall (lists_only p)) (addressBody cfg b p d k)).
  { intros d k. unfold addressBody. all_events fail; lists_done. }
  assert (Hp : forall l k, always (Forall (lists_only p)) (addressesPair cfg b p l k)).
  { induction l as [|d l IH]; intros k; simpl; all_events ltac:(first [apply Hb|apply IH]). }
  assert (Hl : forall pairs n,
             always (Forall (lists_only p)) (addressesLoop cfg b p pairs n)).
  { induction pairs as [|l pairs IH]; intros n; simpl;
      all_events ltac:(first [apply Hp|apply IH]). }
  assert (Hg : forall d k, always (Forall (lists_only p)) (globalBody cfg b p d k)).
  { intros d k. unfold globalBody. all_events fail; lists_done. }
  assert (Hgl : forall l n, always (Forall (lists_only p)) (globalLoop cfg b p l n)).
  { induction l as [|d l IH]; intros n; simpl;
      all_events ltac:(first [apply Hg|apply IH]). }
  unfold releaseStaticIPs. all_events ltac:(first [apply Hl|apply Hgl]); lists_done.
Qed.

Lemma deleteServiceAccounts_lists_only :
  always (Forall (lists_only p)) (deleteServiceAccounts cfg b p).
Proof.
  assert (Hl : forall l acc, always (Forall (lists_only p)) (filterAccounts l acc)).
  { intros l acc. rewrite filterAccounts_run. intros t a [E|[]]. injection E as <- _.
    apply Forall_forall. intros e He. apply in_map_iff in He as (i & <- & _). exact I. }
  unfold deleteServiceAccounts, deleteAccountTask. all_events ltac:(apply Hl); lists_done.
Qed.


Lemma logged_lists_only format (f : M (option error)) :
  always (Forall (lists_only p)) f -> always (Forall (lists_only p)) (logged format p f).
Proof. intros H. unfold logged. all_events ltac:(exact H); lists_done. Qed.

Lemma cleanupProject_lists_only :
  always (Forall (lists_only p)) (cleanupProject cfg b p).
Proof.
  unfold cleanupProject. apply all_bind; [|intros _; apply all_bind; [|intros _]].
  - apply logged_lists_only, deleteVMInstances_lists_only.
  - apply all_par. repeat constructor; apply logged_lists_only.
    + apply deleteDisks_lists_only.
    + apply releaseStaticIPs_lists_only.
    + apply deleteServiceAccounts_lists_only.
  - apply all_emit. exact I.
Qed.

End ListScope.

Lemma sections_In {R : string -> trace -> Prop} ps ts e :
  Forall2 R ps ts -> In e (sections ps ts) ->
  exists q tq, In q ps /\ R q tq /\ (e = ELog sectionMarker [AStr q] \/ In e tq).
Proof.
  unfold sections. induction 1 as [|q tq ps ts Hq _ IH]; simpl; [intros []|].
  intros [<-|Hin].
  - exists q, tq. auto.
  - apply in_app_or in Hin as [Hin|Hin].
    + exists q, tq. auto.
    + destruct (IH Hin) as (q' & tq' & H1 & H2 & H3). exists q', tq'. auto.
Qed.

(** X14: a run of [main] is confined to the configured projects: every list
    call asks for the resources of a configured project, and every compute
    delete call and operation wait names a configured project.  With no
    project configured the run is the two opening lines and the banner. *)
Theorem main_is_confined_to_configured_projects (cfg : config) (b : backend) (t : trace) :
  In (t, tt) (main cfg b) ->
  (forall r, In (EList r) t -> exists q, In q (projectIDs cfg) /\ lists_project q r) /\
  (forall r q, In (EDelete r) t \/ In (EWait r) t -> req_project r = Some q ->
     In q (projectIDs cfg)) /\
  (projectIDs cfg = [] ->
   t = [ELog "Starting GCP cleanup script (Dry Run: %v)" [ABool (dryRun cfg)];
        ELog "Projects to clean: %v" [AStrs []];
        ELog completeBanner []]).
Proof.
  intros H. destruct (main_inv cfg b t H) as (ts & Hts & ->).
  assert (Hev : forall e,
             In e ([ELog "Starting GCP cleanup script (Dry Run: %v)" [ABool (dryRun cfg)];
                    ELog "Projects to clean: %v" [AStrs (projectIDs cfg)]]
                   ++ sections (projectIDs cfg) ts ++ [ELog completeBanner []]) ->
             (exists f a, e = ELog f a) \/
             exists q, In q (projectIDs cfg) /\ project_event cfg q e /\ lists_only q e).
  { intros e He. cbn [app In] in He. rewrite in_app_iff in He.
    destruct He as [<-|[<-|[He|[<-|[]]]]]; try (left; eauto; fail).
    destruct (sections_In _ _ _ Hts He) as (q & tq & Hq & Hrun & [->|Hin]);
      [left; eauto|].
    right. exists q. split; [assumption|].
    pose proof (cleanupProject_events cfg b q tq tt Hrun) as H1.
    pose proof (cleanupProject_lists_only cfg b q tq tt Hrun) as H2.
    rewrite Forall_forall in H1, H2. auto. }
  split; [|split].
  - intros r Hr. destruct (Hev _ Hr) as [(f & a & E)|(q & Hq & _ & Hl)]; [discriminate|].
    exists q. split; [assumption|exact Hl].
  - intros r q Hr Hp.
    assert (Hs : forall e, (e = EDelete r \/ e = EWait r) ->
               (exists f a, e = ELog f a) \/
               (exists q, In q (projectIDs cfg) /\ project_event cfg q e /\ lists_only q e) ->
               In q (projectIDs cfg)).
    { intros e He [(f & a & E)|(q' & Hq' & Hpe & _)];
        [destruct He; subst; discriminate|].
      destruct Hpe as [(k & _ & Hem)|E]; [|destruct He; subst; discriminate].
      destruct He; subst e; simpl in Hem.
      - destruct Hem as (_ & _ & [Hn|Hn]); congruence.
      - destruct Hem as (_ & _ & _ & Hn). congruence. }
    destruct Hr as [Hr|Hr]; [apply (Hs (EDelete r))|apply (Hs (EWait r))]; auto.
  - intros E. rewrite E in *. inversion Hts. reflexivity.
Qed.

Lemma main_is_confined_to_configured_projects_witness :
  In (scenarioMainRun, tt) (main liveConfig scenarioBackend) /\
  (forall r, In (EList r) scenarioMainRun ->
     exists q, In q ["p"] /\ lists_project q r) /\
  forall r q, In (EDelete r) scenarioMainRun \/ In (EWait r) scenarioMainRun ->
    req_project r = Some q -> In q ["p"].
Proof.
  split; [exact scenarioMainRun_in|].
  destruct (main_is_confined_to_configured_projects liveConfig scenarioBackend
              scenarioMainRun scenarioMainRun_in) as (H1 & H2 & _).
  split; [exact H1|exact H2].
Defined.
